(** * Java-Go-Concurrency-Benchmarks: the batch-processing pipelines

    A shallow embedding of the benchmark programs of the repository:

    - the Go fan-out harness ([go/cifar-10] with its metrics, and
      [go/tinyimagenet/main.go]; the two share [SimulateImageProcessing],
      [ProcessBatch] and [RunProcessingTask] word for word, up to the type
      of labels);
    - the Java bounded-queue harness
      ([com/example/cifar/ImageProcessor.java]);
    - the Java Tiny-ImageNet harness
      ([com/example/tinyimagenet/ImageProcessor.java]).

    Pixels are IEEE-754 binary32 values ([float32] in Go, [float] in Java),
    embedded with the Standard Library's executable specification of
    floating-point arithmetic.  Goroutines and threads are embedded as
    schedule-driven state machines: a schedule is the list of choices made
    by the runtime, and every definition runs on a concrete schedule.

    Part I holds the programs, Part II what is proved of them. *)

From Stdlib Require Import ZArith Lia Bool List String SpecFloat.
From stdpp Require Import base list.
Import ListNotations.

Local Open Scope Z_scope.

(** * Part I: the programs *)

(** ** binary32 arithmetic *)

Module F32.

Definition prec : Z := 24.
Definition emax : Z := 128.

(** A [float32] value; NaNs carry no payload. *)
Definition f32 : Type := spec_float.

Definition mul (x y : f32) : f32 := SFmul prec emax x y.
Definition div (x y : f32) : f32 := SFdiv prec emax x y.

(** Conversion of an integer constant or of a byte, [float32(n)]. *)
Definition of_Z (n : Z) : f32 := binary_normalize prec emax n 0 false.

Definition one : f32 := of_Z 1.
Definition two : f32 := of_Z 2.
Definition c255 : f32 := of_Z 255.

(** The largest finite binary32. *)
Definition max_float : f32 := S754_finite false 16777215 104.

(** Well-formed binary32 datum: canonical mantissa, exponent in range. *)
Definition valid (x : f32) : bool := valid_binary prec emax x.

(** The exact value of a finite binary32, counted in units of [2^-149]
    (the smallest positive binary32): every finite binary32 is an integer
    number of such units.  Infinities and NaN have no value. *)
Definition units (x : f32) : option Z :=
  match x with
  | S754_zero _ => Some 0
  | S754_finite s m e => Some (cond_Zopp s (Zpos m * 2 ^ (e + 149)))
  | _ => None
  end.

(** [2^127] in units: the double of a value at least this large is outside
    the binary32 range. *)
Definition half_range : Z := 2 ^ 276.

(** [x * 2], the body of the transform. *)
Definition double (x : f32) : f32 := mul x two.

(** [float32(b) / 255.0], the normalisation done by the loaders. *)
Definition pixel (b : Z) : f32 := div (of_Z b) c255.

(** A pixel is a well-formed value between 0 and 1. *)
Definition pixel_ok (b : Z) : bool :=
  valid (pixel b) &&
  match units (pixel b) with
  | Some u => (0 <=? u) && (u <=? 2 ^ 149)
  | None => false
  end.

(** A finite value whose double is still in range. *)
Definition in_exact_range (x : f32) : bool :=
  valid x &&
  match units x with
  | Some u => Z.abs u <? half_range
  | None => false
  end.

(** The value of a byte read from a file, [0..255]. *)
Definition byte_value (b : Byte.byte) : Z := Z.of_N (Byte.to_N b).

(** A value the loaders can produce. *)
Definition loaded (x : f32) : Prop :=
  exists b : Byte.byte, x = pixel (byte_value b).

(** The exact sum of a sequence of values, in units; [None] when one of
    them is an infinity or a NaN. *)
Fixpoint sum_units (v : list f32) : option Z :=
  match v with
  | [] => Some 0
  | x :: rest =>
      match units x, sum_units rest with
      | Some u, Some s => Some (u + s)
      | _, _ => None
      end
  end.

(** The checksum of a dataset: the exact sum of all its elements. *)
Definition checksum (rows : list (list f32)) : option Z :=
  sum_units (concat rows).

End F32.

(** ** The Go harness: fan-out over goroutines, joined by a WaitGroup *)

Module Go.

Local Open Scope nat_scope.

(** How a Go call ends: it returns, it returns a non-nil [error], it panics
    at run time, or it ends the process through [log.Fatalf]. *)
Inductive result (A : Type) : Type :=
| Ok (a : A)
| Err (msg : string)
| Panic (msg : string)
| Fatal (msg : string).
Arguments Ok {A} a.
Arguments Err {A} msg.
Arguments Panic {A} msg.
Arguments Fatal {A} msg.

(** Sequencing: anything but a normal return ends the caller too. *)
#[global] Instance result_bind : MBind result := fun A B k r =>
  match r with
  | Ok a => k a
  | Err m => Err m
  | Panic m => Panic m
  | Fatal m => Fatal m
  end.

(** *** Constants of [go/cifar-10/main.go] *)

Definition numImagesPerBatch : nat := Z.to_nat 10000.
Definition imageHeight : nat := 32.
Definition imageWidth : nat := 32.
Definition channels : nat := 3.
Definition imageSize : nat := imageHeight * imageWidth * channels.
Definition batchSize_const : nat := 500.
Definition numRuns : nat := 100.

(** *** The transform *)

Definition Vector : Type := list F32.f32.

(** [for i := range image { image[i] = image[i] * 2 }] *)
Definition SimulateImageProcessing (image : Vector) : Vector :=
  map (fun x => F32.mul x F32.two) image.

(** *** Slices of the dataset

    The pixel arrays allocated by the loader (one [make([]float32, imageSize)]
    per image) are the rows of the shared memory; the argument [images] of
    [RunProcessingTask] is the sequence of all rows.  [images[start:end]]
    does not copy: it is a window on that sequence, so a write through a
    batch is a write to the dataset. *)
Record Slice : Type := { s_off : nat; s_len : nat }.

Record ImageBatch : Type := { Images : Slice; Labels : Slice }.

(** [s[lo:hi]] on a slice of [n] elements.  Go checks [hi] against the
    capacity of [s]; the capacity is taken equal to the length here, so
    that this is the slice expression of the code for [hi <= len(s)], and
    for a slice without spare capacity.  Nothing below is stated of a call
    with [len(s) < hi]. *)
Definition reslice (n lo hi : nat) : result Slice :=
  if (lo <=? hi) && (hi <=? n)
  then Ok {| s_off := lo; s_len := hi - lo |}
  else Panic "slice bounds out of range".

(** The elements a window denotes. *)
Definition view {A : Type} (s : Slice) (l : list A) : list A :=
  take (s_len s) (drop (s_off s) l).

(** Whether row [j] lies in the window. *)
Definition covers (s : Slice) (j : nat) : bool :=
  (s_off s <=? j) && (j <? s_off s + s_len s).

(** *** Goroutines under a scheduler *)

Record Goroutine : Type :=
  { g_batch : ImageBatch;   (* argument of ProcessBatch *)
    g_i : nat;              (* index of the range loop *)
    g_done : bool }.        (* the deferred wg.Done() has run *)

Record Tasks : Type :=
  { mem : list Vector;      (* the rows *)
    pool : list Goroutine;  (* one goroutine per batch, in spawn order *)
    wg : nat }.             (* the WaitGroup counter *)

(** One step of goroutine [k]: an iteration
    [batch.Images[i] = SimulateImageProcessing(image)] of [ProcessBatch], or,
    when the loop is over, the deferred [wg.Done()].  A goroutine that has
    returned, or an index that names none, does nothing. *)
Definition step (k : nat) (st : Tasks) : Tasks :=
  match pool st !! k with
  | None => st
  | Some g =>
      if g_done g then st
      else if g_i g <? s_len (Images (g_batch g)) then
        {| mem := alter SimulateImageProcessing
                    (s_off (Images (g_batch g)) + g_i g) (mem st);
           pool := <[k := {| g_batch := g_batch g; g_i := S (g_i g);
                             g_done := false |}]> (pool st);
           wg := wg st |}
      else
        {| mem := mem st;
           pool := <[k := {| g_batch := g_batch g; g_i := g_i g;
                             g_done := true |}]> (pool st);
           wg := pred (wg st) |}
  end.

(** The runtime resumes goroutines in the order [sched]. *)
Definition exec (sched : list nat) (st : Tasks) : Tasks :=
  fold_left (fun s k => step k s) sched st.

(** [wg.Add(1); go ProcessBatch(batch, &wg)] for every batch. *)
Definition spawn (batches : list ImageBatch) (rows : list Vector) : Tasks :=
  {| mem := rows;
     pool := map (fun b => {| g_batch := b; g_i := 0; g_done := false |}) batches;
     wg := length batches |}.

(** Steps still owed to goroutine [g]: its remaining iterations and its
    [wg.Done()]. *)
Definition owed (g : Goroutine) : nat :=
  if g_done g then 0 else S (s_len (Images (g_batch g)) - g_i g).

(** Every goroutine, in spawn order, resumed until it returns. *)
Definition fair_tail (st : Tasks) : list nat :=
  concat (imap (fun k g => replicate (owed g) k) (pool st)).

(** [wg.Wait()]: the caller is blocked while the runtime resumes goroutines
    as [sched] says; goroutines that [sched] leaves unfinished are then run
    to their end, since a goroutine that can run is eventually run. *)
Definition wg_Wait (sched : list nat) (st : Tasks) : Tasks :=
  let st' := exec sched st in exec (fair_tail st') st'.

(** *** Time

    [clock i] is the monotonic reading, in nanoseconds, returned by the
    [i]-th call of [time.Now] in the process. *)
Record World : Type := { heap : list Vector; ticks : nat }.

Definition maxDuration : Z := 2 ^ 63 - 1.
Definition minDuration : Z := - 2 ^ 63.

(** [t.Sub(u)], a [Duration]: saturates at the ends of [int64]. *)
Definition time_Sub (t u : Z) : Z :=
  Z.max minDuration (Z.min maxDuration (t - u)).

(** The clock never goes back. *)
Definition monotonic (clock : nat -> Z) : Prop :=
  forall a b, a <= b -> (clock a <= clock b)%Z.

(** *** What the environment answers during one iteration of [main]

    The order in which goroutines run, the two [runtime.ReadMemStats]
    samples of [Alloc] (a [uint64]), and the [cpu.Percent] probe (a
    [float64], or an error). *)
Record Probe : Type :=
  { p_sched : list nat;
    p_allocBefore : Z;
    p_allocAfter : Z;
    p_cpu : result spec_float }.

Record RunMetrics : Type :=
  { executionTime : Z;
    concurrencyOverhead : Z;
    memoryUsage : Z;
    cpuUsage : spec_float }.

Record Totals : Type :=
  { totalExecutionTime : Z;
    totalConcurrencyOverhead : Z;
    totalMemoryUsage : Z;
    totalCPUUsage : spec_float }.

(** [memoryAfter - memoryBefore] and [+=] on [uint64]. *)
Definition uint64_sub (a b : Z) : Z := ((a - b) mod 2 ^ 64)%Z.
Definition uint64_add (a b : Z) : Z := ((a + b) mod 2 ^ 64)%Z.

(** [+=] on [time.Duration], an [int64]. *)
Definition int64_add (a b : Z) : Z :=
  ((a + b + 2 ^ 63) mod 2 ^ 64 - 2 ^ 63)%Z.

Definition float64_add (a b : spec_float) : spec_float := SFadd 53 1024 a b.

(** [calculateCPUUsage(duration)]: the answer of the probe. *)
Definition calculateCPUUsage (p : Probe) (duration : Z) : result spec_float :=
  p_cpu p.

Definition zero_totals : Totals :=
  {| totalExecutionTime := 0; totalConcurrencyOverhead := 0;
     totalMemoryUsage := 0; totalCPUUsage := S754_zero false |}.

Section Run.

Context {Label : Type}.

(** [const batchSize] of the source; a variable here. *)
Variable batchSize : nat.
Variable clock : nat -> Z.

Definition time_Now (w : World) : Z * World :=
  (clock (ticks w), {| heap := heap w; ticks := S (ticks w) |}).

Definition time_Since (t : Z) (w : World) : Z * World :=
  let '(now, w') := time_Now w in (time_Sub now t, w').

(** The loop [for i := 0; i < numBatches; i++] building [batches]. *)
Fixpoint fill_batches (count i nImages nLabels : nat)
  : result (list ImageBatch) :=
  match count with
  | O => Ok []
  | S count' =>
      let start := i * batchSize in
      let end_ := start + batchSize in
      im ← reslice nImages start end_;
      lb ← reslice nLabels start end_;
      rest ← fill_batches count' (S i) nImages nLabels;
      Ok ({| Images := im; Labels := lb |} :: rest)
  end.

(** "Divide into batches". *)
Definition make_batches (nImages nLabels : nat) : result (list ImageBatch) :=
  if batchSize =? 0 then Panic "integer divide by zero"
  else
    let numBatches := nImages / batchSize in
    fill_batches numBatches 0 nImages nLabels.

(** [RunProcessingTask(images, labels)], the rows of [images] being
    [heap w]; returns [(executionTime, concurrencyOverhead)] and the world
    it leaves. *)
Definition RunProcessingTask (sched : list nat) (labels : list Label)
    (w : World) : result (Z * Z * World) :=
  batches ← make_batches (length (heap w)) (length labels);
  let '(startOverhead, w) := time_Now w in
  let '(startExecution, w) := time_Now w in
  let st := wg_Wait sched (spawn batches (heap w)) in
  let w := {| heap := mem st; ticks := ticks w |} in
  let '(executionTime, w) := time_Since startExecution w in
  let '(concurrencyOverhead, w) := time_Since startOverhead w in
  Ok (executionTime, concurrencyOverhead, w).

(** The body of [for i := 0; i < numRuns; i++] in [main] (log lines left
    out). *)
Definition main_iteration (p : Probe) (labels : list Label)
    (w : World) (tot : Totals) : result (World * Totals * RunMetrics) :=
  let memoryBefore := p_allocBefore p in
  '(executionTime, concurrencyOverhead, w) ←
    RunProcessingTask (p_sched p) labels w;
  let memoryAfter := p_allocAfter p in
  let memoryUsage := uint64_sub memoryAfter memoryBefore in
  let '(startCPUTime, w) := time_Now w in
  let '(elapsed, w) := time_Since startCPUTime w in
  match calculateCPUUsage p elapsed with
  | Ok cpuUsage =>
      Ok (w,
          {| totalExecutionTime :=
               int64_add (totalExecutionTime tot) executionTime;
             totalConcurrencyOverhead :=
               int64_add (totalConcurrencyOverhead tot) concurrencyOverhead;
             totalMemoryUsage :=
               uint64_add (totalMemoryUsage tot) memoryUsage;
             totalCPUUsage := float64_add (totalCPUUsage tot) cpuUsage |},
          {| executionTime := executionTime;
             concurrencyOverhead := concurrencyOverhead;
             memoryUsage := memoryUsage;
             cpuUsage := cpuUsage |})
  | _ => Fatal "Error calculating CPU usage"
  end.

(** [count] iterations starting at iteration [i]; [env i] is what the
    environment answers during iteration [i].  The metrics of the runs are
    returned in run order. *)
Fixpoint main_loop (count i : nat) (env : nat -> Probe)
    (labels : list Label) (w : World) (tot : Totals)
  : result (World * Totals * list RunMetrics) :=
  match count with
  | O => Ok (w, tot, [])
  | S count' =>
      '(w, tot, m) ← main_iteration (env i) labels w tot;
      '(w, tot, ms) ← main_loop count' (S i) env labels w tot;
      Ok (w, tot, m :: ms)
  end.

End Run.

(** *** The loader, [LoadCIFAR10] *)

(** [s[i]]. *)
Definition index {A : Type} (s : list A) (i : nat) : result A :=
  match s !! i with
  | Some x => Ok x
  | None => Panic "index out of range"
  end.

(** [s[lo:hi]], with the capacity taken equal to the length as for
    [reslice]: the slice expression of the code for [hi <= len(s)] (and
    for a string, which has no capacity).  The capacity of what
    [ioutil.ReadFile] returns is not modelled: nothing below is stated of
    a data file that is not empty and shorter than its records. *)
Definition subslice {A : Type} (s : list A) (lo hi : nat) : result (list A) :=
  if (lo <=? hi) && (hi <=? length s)
  then Ok (take (hi - lo) (drop lo s))
  else Panic "slice bounds out of range".

(** [for k := 0; k < imageSize; k++ { image[k] = float32(imageData[k]) / 255.0 }] *)
Fixpoint convert (count k : nat) (imageData : list Byte.byte) : result Vector :=
  match count with
  | O => Ok []
  | S count' =>
      b ← index imageData k;
      rest ← convert count' (S k) imageData;
      Ok (F32.pixel (F32.byte_value b) :: rest)
  end.

(** [for j := 0; j < numImagesPerBatch; j++], appending to the two
    accumulators. *)
Fixpoint load_records (count j : nat) (data : list Byte.byte)
    (acc : list Vector * list Z) : result (list Vector * list Z) :=
  match count with
  | O => Ok acc
  | S count' =>
      label ← index data (j * (imageSize + 1));
      imageData ← subslice data (j * (imageSize + 1) + 1)
                                 ((j + 1) * (imageSize + 1));
      image ← convert imageSize 0 imageData;
      load_records count' (S j) data
        (acc.1 ++ [image], acc.2 ++ [F32.byte_value label])
  end.

(** [for i := 1; i <= 5; i++]; [fs i] is what [ioutil.ReadFile] finds at
    [data_batch_<i>.bin] under the data directory, [None] when the file
    cannot be read. *)
Fixpoint load_files (count i : nat) (fs : nat -> option (list Byte.byte))
    (acc : list Vector * list Z) : result (list Vector * list Z) :=
  match count with
  | O => Ok acc
  | S count' =>
      match fs i with
      | None => Err "failed to read file"
      | Some data =>
          acc ← load_records numImagesPerBatch 0 data acc;
          load_files count' (S i) fs acc
      end
  end.

Definition LoadCIFAR10 (fs : nat -> option (list Byte.byte))
  : result (list Vector * list Z) :=
  load_files 5 1 fs ([], []).

(** [main]: load, or die through [log.Fatalf]; then repeat the run [numRuns]
    times on the same rows. *)
Definition main (clock : nat -> Z) (fs : nat -> option (list Byte.byte))
    (env : nat -> Probe)
  : result (World * Totals * list RunMetrics) :=
  match LoadCIFAR10 fs with
  | Ok (images, labels) =>
      main_loop batchSize_const clock numRuns 0 env labels
        {| heap := images; ticks := 0 |} zero_totals
  | Err m => Fatal "Error loading CIFAR-10"
  | Panic m => Panic m
  | Fatal m => Fatal m
  end.

(** *** Vocabulary of the contract *)

(** The window of batch number [k]. *)
Definition window (batchSize k : nat) : Slice :=
  {| s_off := k * batchSize; s_len := batchSize |}.

Definition batch_at (batchSize k : nat) : ImageBatch :=
  {| Images := window batchSize k; Labels := window batchSize k |}.

(** The partition of the contract: [floor(n / batchSize)] windows of
    [batchSize] items, in dataset order. *)
Definition spec_batches (batchSize n : nat) : list ImageBatch :=
  map (batch_at batchSize) (seq 0 (n / batchSize)).

(** Number of rows that lie in some batch. *)
Definition batched (batchSize n : nat) : nat := n / batchSize * batchSize.

(** The rows after one complete run: each batched row transformed once. *)
Definition run_rows (batchSize : nat) (rows : list Vector) : list Vector :=
  map SimulateImageProcessing (take (batched batchSize (length rows)) rows)
    ++ drop (batched batchSize (length rows)) rows.

(** The rows when goroutine [k] has done [g_i] iterations, for every [k]. *)
Definition progress_rows (batchSize : nat) (gs : list Goroutine)
    (rows : list Vector) : list Vector :=
  imap (fun j row =>
          match gs !! (j / batchSize) with
          | Some g => if j mod batchSize <? g_i g
                      then SimulateImageProcessing row else row
          | None => row
          end) rows.

Definition running (g : Goroutine) : bool := negb (g_done g).

(** Goroutine [g] once it has returned. *)
Definition finish (g : Goroutine) : Goroutine :=
  {| g_batch := g_batch g; g_i := s_len (Images (g_batch g)); g_done := true |}.

(** What holds of the goroutines of a run at every moment. *)
Record Inv (batchSize : nat) (rows : list Vector) (st : Tasks) : Prop :=
  { inv_fits : length (pool st) = length rows / batchSize;
    inv_pool : forall k g, pool st !! k = Some g ->
        g_batch g = batch_at batchSize k /\ g_i g <= batchSize /\
        (g_done g = true -> g_i g = batchSize);
    inv_mem : mem st = progress_rows batchSize (pool st) rows;
    inv_wg : wg st = length (filter (fun g => running g = true) (pool st)) }.

(** What holds of the accumulators of the loader. *)
Definition well_loaded (acc : list Vector * list Z) : Prop :=
  Forall (Forall F32.loaded) acc.1 /\ length acc.2 = length acc.1.

(** The size a data file must have. *)
Definition expected_size : nat := numImagesPerBatch * (imageSize + 1).

End Go.

(** ** The Java CIFAR-10 harness: bounded queue, fixed pool of consumers *)

Module JavaCifar.

Local Open Scope nat_scope.

Definition IMAGE_HEIGHT : nat := 32.
Definition IMAGE_WIDTH : nat := 32.
Definition CHANNELS : nat := 3.
Definition IMAGE_SIZE : nat := IMAGE_HEIGHT * IMAGE_WIDTH * CHANNELS.
Definition BATCH_SIZE : nat := 500.
Definition NUM_IMAGES_PER_BATCH : nat := Z.to_nat 10000.
Definition NUM_RUNS : nat := 100.
Definition QUEUE_CAPACITY : nat := 10.

Definition Vector : Type := list F32.f32.

(** *** The loader, [loadCifar10Dataset] *)

Inductive exn : Type :=
| IOException (msg : string)
| EOFException (msg : string)
| FileNotFoundException (msg : string).

(** A call returns or throws. *)
Inductive completion (A : Type) : Type :=
| Returns (a : A)
| Throws (e : exn).
Arguments Returns {A} a.
Arguments Throws {A} e.

#[global] Instance completion_bind : MBind completion := fun A B k r =>
  match r with
  | Returns a => k a
  | Throws e => Throws e
  end.

(** [dis.readByte()] and [dis.readUnsignedByte()]: the next byte and the
    rest of the stream. *)
Definition readByte (dis : list Byte.byte)
  : completion (Byte.byte * list Byte.byte) :=
  match dis with
  | b :: rest => Returns (b, rest)
  | [] => Throws (EOFException "readByte")
  end.

(** [for (int k = 0; k < IMAGE_SIZE; k++) image[k] = dis.readUnsignedByte() / 255.0f;] *)
Fixpoint read_pixels (count : nat) (dis : list Byte.byte)
  : completion (Vector * list Byte.byte) :=
  match count with
  | O => Returns ([], dis)
  | S count' =>
      '(b, dis) ← readByte dis;
      '(rest, dis) ← read_pixels count' dis;
      Returns (F32.pixel (F32.byte_value b) :: rest, dis)
  end.

(** [for (int j = 0; j < NUM_IMAGES_PER_BATCH; j++)]: every image is added
    to [allBatches] as a batch of its own, [new float[][]{image}]. *)
Fixpoint read_records (count : nat) (dis : list Byte.byte)
    (allBatches : list (list Vector)) : completion (list (list Vector)) :=
  match count with
  | O => Returns allBatches
  | S count' =>
      if length dis <? 1 + IMAGE_SIZE
      then Throws (EOFException "Unexpected end of file")
      else
        '(_, dis) ← readByte dis;
        '(image, dis) ← read_pixels IMAGE_SIZE dis;
        read_records count' dis (allBatches ++ [[image]])
  end.

(** [for (int i = 1; i <= 5; i++)]; [fs i] is the content of
    [data_batch_<i>.bin], [None] when there is no such file
    ([File.length()] is then [0]). *)
Fixpoint read_files (count i : nat) (fs : nat -> option (list Byte.byte))
    (allBatches : list (list Vector)) : completion (list (list Vector)) :=
  match count with
  | O => Returns allBatches
  | S count' =>
      let file_length : Z :=
        match fs i with Some d => Z.of_nat (length d) | None => 0%Z end in
      let expectedSize : Z :=
        (Z.of_nat NUM_IMAGES_PER_BATCH * (1 + Z.of_nat IMAGE_SIZE))%Z in
      if (file_length <? expectedSize)%Z
      then Throws (IOException "File is smaller than expected")
      else
        match fs i with
        | None => Throws (FileNotFoundException "data_batch")
        | Some dis =>
            allBatches ← read_records NUM_IMAGES_PER_BATCH dis allBatches;
            read_files count' (S i) fs allBatches
        end
  end.

Definition loadCifar10Dataset (fs : nat -> option (list Byte.byte))
  : completion (list (list Vector)) :=
  read_files 5 1 fs [].

(** *** Batches in memory

    A [float[][]] is a sequence of references to [float[]] arrays; the
    arrays are the rows of the heap, and a reference is a row number. *)
Definition Batch : Type := list nat.

(** The references of the batches when the arrays are laid out in the heap
    in loading order, from row [next] on. *)
Fixpoint refs_from (next : nat) (loaded : list (list Vector)) : list Batch :=
  match loaded with
  | [] => []
  | b :: rest => seq next (length b) :: refs_from (next + length b) rest
  end.

(** The heap and the references that [loadCifar10Dataset] leaves: one fresh
    array per image. *)
Definition allocate (loaded : list (list Vector)) : list Vector * list Batch :=
  (concat loaded, refs_from 0 loaded).

(** [for (int i = 0; i < image.length; i++) image[i] *= 2;] *)
Definition double_image (image : Vector) : Vector :=
  map (fun x => F32.mul x F32.two) image.

(** [for (float[] image : batch) { ... }] *)
Definition processBatch (batch : Batch) (heap : list Vector) : list Vector :=
  fold_left (fun h r => alter double_image r h) batch heap.

(** *** Producer, queue and consumers under a scheduler *)

Inductive Producer : Type :=
| Producing (todo : list Batch)    (* in the for loop, [todo] not yet put *)
| Finished (unsent : list Batch).  (* past [finally]; [unsent] was never put *)

Inductive Consumer : Type :=
| AtLoop                 (* about to evaluate the [while] condition *)
| Polling                (* inside [queue.poll(1, SECONDS)] *)
| Holding (b : Batch)    (* got a batch, about to call [processBatch] *)
| Exited.                (* the task has returned *)

Record State : Type :=
  { heap : list Vector;
    producer : Producer;
    queue : list Batch;
    isDoneProducing : bool;
    consumers : list Consumer }.

Inductive Event : Type :=
| EProducer                      (* the producer thread runs one step *)
| EInterruptProducer             (* [queue.put] throws InterruptedException *)
| EConsumer (c : nat)            (* consumer [c] runs one step *)
| EInterruptConsumer (c : nat).  (* [queue.poll] throws InterruptedException *)

Definition is_interrupt (ev : Event) : bool :=
  match ev with
  | EInterruptProducer | EInterruptConsumer _ => true
  | _ => false
  end.

(** No thread is interrupted during the trace. *)
Definition undisturbed (trace : list Event) : bool :=
  forallb (fun ev => negb (is_interrupt ev)) trace.

Definition set_producer (p : Producer) (q : list Batch) (done : bool)
    (st : State) : State :=
  {| heap := heap st; producer := p; queue := q;
     isDoneProducing := done; consumers := consumers st |}.

Definition set_consumer (c : nat) (cs : Consumer) (h : list Vector)
    (q : list Batch) (st : State) : State :=
  {| heap := h; producer := producer st; queue := q;
     isDoneProducing := isDoneProducing st;
     consumers := <[c := cs]> (consumers st) |}.

(** [produceBatches]: [queue.put] blocks while the queue is full; leaving
    the loop, normally or through [catch], runs
    [finally { isDoneProducing.set(true); }].  The [catch] is reached when
    [queue.put] throws [InterruptedException], [producer_interrupt] below;
    no code of the repository interrupts a thread, so that the runs of
    the program are those without such events. *)
Definition producer_step (capacity : nat) (st : State) : State :=
  match producer st with
  | Producing [] => set_producer (Finished []) (queue st) true st
  | Producing (b :: rest) =>
      if length (queue st) <? capacity
      then set_producer (Producing rest) (queue st ++ [b]) (isDoneProducing st) st
      else st
  | Finished _ => st
  end.

Definition producer_interrupt (st : State) : State :=
  match producer st with
  | Producing (b :: rest) => set_producer (Finished (b :: rest)) (queue st) true st
  | _ => st
  end.

(** The consumer task:
    [while (!isDoneProducing.get() || !queue.isEmpty()) {
       batch = queue.poll(1, SECONDS); if (batch != null) processBatch(batch); }]
    A step taken inside [poll] on an empty queue is the expiry of the
    one-second wait.  [processBatch] is one step: its writes are not
    synchronised, so that this is the code when no two consumers hold the
    same array at the same time, as with the batches of the loader (one
    array each) or with a single consumer. *)
Definition consumer_step (c : nat) (st : State) : State :=
  match consumers st !! c with
  | Some AtLoop =>
      if negb (isDoneProducing st) || negb (bool_decide (queue st = []))
      then set_consumer c Polling (heap st) (queue st) st
      else set_consumer c Exited (heap st) (queue st) st
  | Some Polling =>
      match queue st with
      | b :: q => set_consumer c (Holding b) (heap st) q st
      | [] => set_consumer c AtLoop (heap st) [] st
      end
  | Some (Holding b) =>
      set_consumer c AtLoop (processBatch b (heap st)) (queue st) st
  | Some Exited | None => st
  end.

Definition consumer_interrupt (c : nat) (st : State) : State :=
  match consumers st !! c with
  | Some Polling => set_consumer c Exited (heap st) (queue st) st
  | _ => st
  end.

Definition step (capacity : nat) (ev : Event) (st : State) : State :=
  match ev with
  | EProducer => producer_step capacity st
  | EInterruptProducer => producer_interrupt st
  | EConsumer c => consumer_step c st
  | EInterruptConsumer c => consumer_interrupt c st
  end.

Definition exec (capacity : nat) (trace : list Event) (st : State) : State :=
  fold_left (fun s ev => step capacity ev s) trace st.

(** [new Thread(() -> produceBatches(allBatches, queue, isDoneProducing))]
    with a fresh queue and flag. *)
Definition start (allBatches : list Batch) (h : list Vector) : State :=
  {| heap := h; producer := Producing allBatches; queue := [];
     isDoneProducing := false; consumers := [] |}.

(** [consumers.execute(consumerTask)], [nConsumers] times. *)
Definition spawn_consumers (nConsumers : nat) (st : State) : State :=
  {| heap := heap st; producer := producer st; queue := queue st;
     isDoneProducing := isDoneProducing st;
     consumers := replicate nConsumers AtLoop |}.

(** *** [processBatches] *)

(** How [consumers.awaitTermination(10, MINUTES)] ends. *)
Inductive Await : Type :=
| AllTerminated      (* returns true: every consumer task has returned *)
| TimedOut           (* returns false: ten minutes have passed *)
| WaitInterrupted.   (* throws InterruptedException *)

Definition all_exited (st : State) : bool :=
  forallb (fun c => match c with Exited => true | _ => false end) (consumers st).

(** [processBatches(queue, isDoneProducing)] with a pool of [nConsumers]
    threads.  [trace] is what the threads do until [awaitTermination] ends,
    and [a] is how it ends; the pair describes no execution, [None], when
    [a] is [AllTerminated] and some consumer is still running.  The value
    of [awaitTermination] is dropped; only [InterruptedException] is
    caught, and its stack trace printed.  Returns the state it leaves and
    the lines printed to the error stream. *)
Definition processBatches (nConsumers capacity : nat) (trace : list Event)
    (a : Await) (st : State) : option (completion (State * list string)) :=
  let st := exec capacity trace (spawn_consumers nConsumers st) in
  match a with
  | AllTerminated =>
      if all_exited st then Some (Returns (st, [])) else None
  | TimedOut => Some (Returns (st, []))
  | WaitInterrupted =>
      Some (Returns (st, ["java.lang.InterruptedException"%string]))
  end.

(** *** The memory sample of [main] *)

Definition long_wrap (z : Z) : Z := ((z + 2 ^ 63) mod 2 ^ 64 - 2 ^ 63)%Z.

(** [long memoryUsage = memoryAfter - memoryBefore;] *)
Definition memoryUsage (memoryBefore memoryAfter : Z) : Z :=
  long_wrap (memoryAfter - memoryBefore).

(** *** Vocabulary of the contract *)

(** The batches of a list, each processed once, in list order. *)
Definition process_all (batches : list Batch) (h : list Vector) : list Vector :=
  fold_left (fun h b => processBatch b h) batches h.

Definition in_hand (c : Consumer) : list Batch :=
  match c with Holding b => [b] | _ => [] end.

(** The batches taken from the queue and not yet processed. *)
Definition held (cs : list Consumer) : list Batch := flat_map in_hand cs.

(** The batches not yet put. *)
Definition remaining (p : Producer) : list Batch :=
  match p with Producing todo => todo | Finished unsent => unsent end.

(** What holds at every moment of a run in which no thread is
    interrupted. *)
Record Inv (allBatches : list Batch) (h0 : list Vector) (st : State) : Prop :=
  { inv_done : exists processed,
      heap st = process_all processed h0 /\
      processed ++ held (consumers st) ++ queue st ++ remaining (producer st)
        ≡ₚ allBatches;
    inv_flag : isDoneProducing st = true <-> producer st = Finished [];
    inv_running : (exists todo, producer st = Producing todo)
                  \/ producer st = Finished [];
    inv_exit : Exited ∈ consumers st ->
               isDoneProducing st = true /\ queue st = [] }.

(** A trace in which the producer and the first consumer alternate, one
    batch at a time, and every consumer then leaves its loop. *)
Definition sequential_trace (nBatches nConsumers : nat) : list Event :=
  concat (replicate nBatches [EProducer; EConsumer 0; EConsumer 0; EConsumer 0])
    ++ [EProducer] ++ map EConsumer (seq 0 nConsumers).

(** What the loader makes of the images it reads. *)
Definition singleton_batches (images : list Vector) : list (list Vector) :=
  map (fun image => [image]) images.

(** The size a data file must have, and the size of a file. *)
Definition expected_size : nat := NUM_IMAGES_PER_BATCH * (1 + IMAGE_SIZE).

Definition file_length (f : option (list Byte.byte)) : nat :=
  match f with Some d => length d | None => 0 end.

(** A data file of the expected size, all zeros. *)
Definition zero_file : list Byte.byte := replicate expected_size Byte.x00.

End JavaCifar.

(** ** The Java Tiny-ImageNet harness *)

Module JavaTiny.

Local Open Scope Z_scope.

Definition BATCH_SIZE : nat := 500.
Definition QUEUE_CAPACITY : nat := 50.

(** [Math.min(c * 2, 255)] on one channel. *)
Definition double_channel (c : Z) : Z := Z.min (c * 2) 255.

(** The body of the two loops of [processImage], on the [int] that
    [image.getRGB(x, y)] returns; the result is what [image.setRGB]
    receives. *)
Definition processPixel (rgb : Z) : Z :=
  let r := Z.land (Z.shiftr rgb 16) 255 in
  let g := Z.land (Z.shiftr rgb 8) 255 in
  let b := Z.land rgb 255 in
  let r := double_channel r in
  let g := double_channel g in
  let b := double_channel b in
  Z.lor (Z.lor (Z.shiftl r 16) (Z.shiftl g 8)) b.

(** An image as its rows of pixels. *)
Definition processImage (image : list (list Z)) : list (list Z) :=
  map (map processPixel) image.

(** The [int] of a pixel with channels [r], [g], [b]. *)
Definition rgb_of (r g b : Z) : Z :=
  Z.lor (Z.lor (Z.shiftl r 16) (Z.shiftl g 8)) b.

(** *** [produceImages] *)

(** What the producer finds at one path of the walk. *)
Inductive Entry : Type :=
| NotAJpeg                        (* not a regular file ending in .jpg *)
| Readable (img : list (list Z)) (put_interrupted : bool)
| Unreadable.                     (* [ImageIO.read] throws, or gives null *)

(** What [Files.walk(Paths.get(directory))] gives to [forEach]: the paths
    it yields, in order, and whether the stream then throws instead of
    ending (the directory cannot be opened, or a directory below it cannot
    be read when the walk reaches it). *)
Record Walked : Type := { visited : list Entry; walk_throws : bool }.

(** What the producer does that other threads and the log can see, in the
    order in which it does it. *)
Inductive Action : Type :=
| Put (img : list (list Z))    (* [queue.put(img)] has returned *)
| Log (message : string)       (* [logMessage(LOG_FILE_PATH, message)] *)
| SetFlag.                     (* [isDoneProducing.set(true)] *)

(** The [forEach] body, each path under its own [try]/[catch]; [done] is
    what has been done so far. *)
Fixpoint walk (entries : list Entry) (done : list Action) : list Action :=
  match entries with
  | [] => done
  | NotAJpeg :: rest => walk rest done
  | Readable img false :: rest => walk rest (done ++ [Put img])
  | Readable _ true :: rest | Unreadable :: rest =>
      walk rest (done ++ [Log "Error processing image"%string])
  end.

(** [produceImages]: the walk, the [catch] of the outer [try] when the
    stream throws, then [finally]. *)
Definition produceImages (w : Walked) : list Action :=
  let done := walk (visited w) [] in
  let done :=
    if walk_throws w
    then done ++ [Log "Error walking dataset directory"%string]
    else done in
  done ++ [SetFlag].

(** The end of [processImages]: [consumers.shutdown()] and
    [awaitTermination(10, MINUTES)], whose value is dropped.  Returns the
    lines logged; there is no path on which it throws. *)
Definition await_and_log (a : JavaCifar.Await)
  : JavaCifar.completion (list string) :=
  match a with
  | JavaCifar.AllTerminated => JavaCifar.Returns []
  | JavaCifar.TimedOut => JavaCifar.Returns []
  | JavaCifar.WaitInterrupted =>
      JavaCifar.Returns ["Consumer threads failed to terminate in time."%string]
  end.

End JavaTiny.

(** ** Small datasets and environments, for running the definitions *)

Module Fixtures.

(** [n] images of one pixel, all ones, and the same all twos. *)
Definition all_ones (n : nat) : list Go.Vector := replicate n [F32.one].
Definition all_twos (n : nat) : list Go.Vector := replicate n [F32.two].

(** A world at its first clock reading. *)
Definition fresh (rows : list Go.Vector) : Go.World :=
  {| Go.heap := rows; Go.ticks := 0 |}.

(** A clock that advances by one nanosecond per reading. *)
Definition ticking : nat -> Z := Z.of_nat.

(** An environment that resumes goroutines last to first, then lets the
    runtime finish, samples memory growing from 1000 to 2000 bytes, and
    answers every CPU probe. *)
Definition calm : Go.Probe :=
  {| Go.p_sched := [1; 0; 1]%nat; Go.p_allocBefore := 1000;
     Go.p_allocAfter := 2000; Go.p_cpu := Go.Ok (S754_zero false) |}.

(** The same, with the collector freeing memory during the run. *)
Definition shrinking : Go.Probe :=
  {| Go.p_sched := []; Go.p_allocBefore := 2000;
     Go.p_allocAfter := 1000; Go.p_cpu := Go.Ok (S754_zero false) |}.

(** Five labels. *)
Definition five_labels : list Z := [0; 1; 2; 3; 4].

(** A data directory whose five files are empty. *)
Definition empty_files : nat -> option (list Byte.byte) := fun _ => Some [].

(** A data directory with no file at all. *)
Definition no_files : nat -> option (list Byte.byte) := fun _ => None.

(** A data directory whose five files have the expected size. *)
Definition zero_files : nat -> option (list Byte.byte) :=
  fun _ => Some JavaCifar.zero_file.

(** Two batches of one image each, as the Java loader lays them out. *)
Definition two_batches : list (list JavaCifar.Vector) :=
  [[[F32.one]]; [[F32.one]]].

End Fixtures.

(** ** Assignment to an element of a Go slice *)

Module GoSlice.

Import Go.

Local Open Scope nat_scope.

(** [s[i] = x]. *)
Definition assign {A : Type} (s : list A) (i : nat) (x : A) : result (list A) :=
  if i <? length s then Ok (<[i := x]> s) else Panic "index out of range".

End GoSlice.

(** ** The Go harness that only times the run

    [go/cifar-10/main.go], and the second program of
    [go/tinyimagenet/main.go]: the batcher, [ProcessBatch] and the fan-out
    are those of the harness with metrics; [RunProcessingTask] reads the
    clock twice and [main] keeps every execution time. *)

Module GoTimed.

Import Go.

Local Open Scope nat_scope.

(** [a / b] on [time.Duration]: truncated towards zero. *)
Definition int64_div (a b : Z) : result Z :=
  if (b =? 0)%Z then Panic "integer divide by zero"
  else Ok (((Z.quot a b + 2 ^ 63) mod 2 ^ 64 - 2 ^ 63)%Z).

Section Run.

Context {Label : Type}.
Variable batchSize : nat.
Variable clock : nat -> Z.

(** [RunProcessingTask(images, labels)], returning the execution time. *)
Definition RunProcessingTask (sched : list nat) (labels : list Label)
    (w : World) : result (Z * World) :=
  batches ← make_batches batchSize (length (heap w)) (length labels);
  let '(start, w) := time_Now clock w in
  let st := wg_Wait sched (spawn batches (heap w)) in
  let w := {| heap := mem st; ticks := ticks w |} in
  let '(elapsed, w) := time_Since clock start w in
  Ok (elapsed, w).

(** [count] iterations of [for i := 0; i < numRuns; i++] from iteration
    [i] on; [scheds i] is the order in which the runtime resumes the
    goroutines of run [i]. *)
Fixpoint main_loop (count i : nat) (scheds : nat -> list nat)
    (labels : list Label) (w : World) (totalTime : Z)
    (executionTimes : list Z) : result (World * Z * list Z) :=
  match count with
  | O => Ok (w, totalTime, executionTimes)
  | S count' =>
      '(runTime, w) ← RunProcessingTask (scheds i) labels w;
      executionTimes ← GoSlice.assign executionTimes i runTime;
      main_loop count' (S i) scheds labels w (int64_add totalTime runTime)
        executionTimes
  end.

(** The loop of [main] and the average it logs, on a dataset already
    loaded, for [runs] runs ([const numRuns] of the source). *)
Definition run_and_average (runs : nat) (scheds : nat -> list nat)
    (labels : list Label) (w : World) : result (World * list Z * Z * Z) :=
  '(w, totalTime, executionTimes) ←
    main_loop runs 0 scheds labels w 0%Z (replicate runs 0%Z);
  averageTime ← int64_div totalTime (Z.of_nat runs);
  Ok (w, executionTimes, totalTime, averageTime).

End Run.

(** [main] of [go/cifar-10/main.go] (log lines left out). *)
Definition main (clock : nat -> Z) (fs : nat -> option (list Byte.byte))
    (scheds : nat -> list nat) : result (World * list Z * Z * Z) :=
  match LoadCIFAR10 fs with
  | Ok (images, labels) =>
      run_and_average batchSize_const clock numRuns scheds labels
        {| heap := images; ticks := 0 |}
  | Err m => Fatal "Error loading CIFAR-10"
  | Panic m => Panic m
  | Fatal m => Fatal m
  end.

(** *** Vocabulary *)

(** What [count] successive runs return when the first one starts at clock
    reading number [t]: a run reads the clock twice. *)
Definition durations (clock : nat -> Z) (t count : nat) : list Z :=
  map (fun k => time_Sub (clock (2 * k + 1 + t)) (clock (2 * k + t)))
      (seq 0 count).

End GoTimed.

(** ** Vocabulary for the totals kept by [main] *)

Module Metrics.

(** The sum of a list of integers. *)
Definition sum (l : list Z) : Z := foldr Z.add 0%Z l.

(** The signed differences [Alloc after - Alloc before] of the runs
    [i .. i + count - 1]. *)
Definition alloc_deltas (env : nat -> Go.Probe) (i count : nat) : list Z :=
  map (fun k => (Go.p_allocAfter (env k) - Go.p_allocBefore (env k))%Z)
      (seq i count).

End Metrics.

(** ** The layout of a CIFAR-10 data file

    A file is a sequence of records of [1 + imageSize] bytes: a label, then
    the pixels of the image. *)

Module CifarFile.

Local Open Scope nat_scope.

(** The image of record [j]. *)
Definition record_image (data : list Byte.byte) (j : nat) : Go.Vector :=
  map (fun b => F32.pixel (F32.byte_value b))
      (take Go.imageSize (drop (j * (Go.imageSize + 1) + 1) data)).

(** The label of record [j]. *)
Definition record_label (data : list Byte.byte) (j : nat) : Z :=
  match data !! (j * (Go.imageSize + 1)) with
  | Some b => F32.byte_value b
  | None => 0%Z
  end.

(** The images and the labels of the first [numImagesPerBatch] records. *)
Definition file_images (data : list Byte.byte) : list Go.Vector :=
  map (record_image data) (seq 0 Go.numImagesPerBatch).

Definition file_labels (data : list Byte.byte) : list Z :=
  map (record_label data) (seq 0 Go.numImagesPerBatch).

(** The content of file number [i], empty when there is none. *)
Definition content (fs : nat -> option (list Byte.byte)) (i : nat)
  : list Byte.byte :=
  match fs i with Some d => d | None => [] end.

(** The images and the labels of the files [i .. i + count - 1], in file
    order. *)
Definition dataset_images (fs : nat -> option (list Byte.byte))
    (i count : nat) : list Go.Vector :=
  concat (map (fun k => file_images (content fs k)) (seq i count)).

Definition dataset_labels (fs : nat -> option (list Byte.byte))
    (i count : nat) : list Z :=
  concat (map (fun k => file_labels (content fs k)) (seq i count)).

(** File [i] can be read and holds at least [numImagesPerBatch] records. *)
Definition complete (fs : nat -> option (list Byte.byte)) (i : nat) : Prop :=
  exists d, fs i = Some d /\ Go.expected_size <= length d.

End CifarFile.

(** ** The Go Tiny-ImageNet loader, [go/tinyimagenet/main.go] *)

Module GoTiny.

Import Go.

Local Open Scope nat_scope.

Definition imageHeight : nat := 64.
Definition imageWidth : nat := 64.
Definition channels : nat := 3.

(** A decoded image: [img.Bounds().Dx()], [img.Bounds().Dy()] and, for
    the pixel at [(x, y)], the red, green and blue values that
    [img.At(x, y).RGBA()] returns, each a [uint32] in [0, 65535]. *)
Record Image : Type :=
  { Dx : nat; Dy : nat; At : nat -> nat -> Z * Z * Z }.

(** What [os.Open] and [image.Decode] make of a path. *)
Inductive File : Type :=
| Unopenable
| Undecodable
| Decodes (img : Image).

(** [float32(r) / 65535.0] *)
Definition channel (r : Z) : F32.f32 := F32.div (F32.of_Z r) (F32.of_Z 65535).

(** An element of [make([]float32, n)]. *)
Definition zero : F32.f32 := S754_zero false.

(** [for x := 0; x < img.Bounds().Dx(); x++], with [count] columns still
    to visit from column [x] on. *)
Fixpoint columns (img : Image) (y count x : nat) (pixels : Vector)
    (idx : nat) : result (Vector * nat) :=
  match count with
  | O => Ok (pixels, idx)
  | S count' =>
      let '(r, g, b) := At img x y in
      pixels ← GoSlice.assign pixels idx (channel r);
      pixels ← GoSlice.assign pixels (idx + 1) (channel g);
      pixels ← GoSlice.assign pixels (idx + 2) (channel b);
      columns img y count' (S x) pixels (idx + 3)
  end.

(** [for y := 0; y < img.Bounds().Dy(); y++] *)
Fixpoint rows (img : Image) (count y : nat) (pixels : Vector) (idx : nat)
  : result (Vector * nat) :=
  match count with
  | O => Ok (pixels, idx)
  | S count' =>
      '(pixels, idx) ← columns img y (Dx img) 0 pixels idx;
      rows img count' (S y) pixels idx
  end.

(** [loadImage(imagePath)]; [dir] is the name of the directory that holds
    the file, [filepath.Base(filepath.Dir(imagePath))]. *)
Definition loadImage (f : File) (dir : string) : result (Vector * string) :=
  match f with
  | Unopenable => Err "failed to open image"
  | Undecodable => Err "failed to decode image"
  | Decodes img =>
      let pixels := replicate (imageHeight * imageWidth * channels) zero in
      '(pixels, _) ← rows img (Dy img) 0 pixels 0;
      let label := dir in
      Ok (pixels, label)
  end.





(** *** Vocabulary *)

(** The three values stored for the pixel at [(x, y)]. *)
Definition triple (img : Image) (y x : nat) : list F32.f32 :=
  let '(r, g, b) := At img x y in [channel r; channel g; channel b].

(** The values of [count] pixels of row [y] from column [x] on, and of
    [count] rows from row [y] on, in the order of the two loops. *)
Definition row_values (img : Image) (y x count : nat) : list F32.f32 :=
  concat (map (triple img y) (seq x count)).

Definition rows_values (img : Image) (y count : nat) : list F32.f32 :=
  concat (map (fun y' => row_values img y' 0 (Dx img)) (seq y count)).



End GoTiny.

(** ** Vocabulary for the Java queue under any trace *)

Module JavaQueue.

Import JavaCifar.

Local Open Scope nat_scope.

(** Every batch is in exactly one place: processed, in the hands of a
    consumer, in the queue, or still with the producer. *)
Definition conserved (allBatches : list Batch) (h0 : list Vector)
    (st : State) : Prop :=
  exists processed,
    heap st = process_all processed h0 /\
    processed ++ held (consumers st) ++ queue st ++ remaining (producer st)
      ≡ₚ allBatches.

(** The state a run starts from. *)
Definition initial (nConsumers : nat) (allBatches : list Batch)
    (h : list Vector) : State :=
  spawn_consumers nConsumers (start allBatches h).

(** No event of the trace interrupts the producer. *)
Definition producer_undisturbed (trace : list Event) : bool :=
  forallb (fun ev => match ev with EInterruptProducer => false | _ => true end)
    trace.

(** Steps a consumer still owes before it can have returned, at the
    least. *)
Definition cost (c : Consumer) : nat :=
  match c with
  | Exited => 0
  | AtLoop => 1
  | Polling => 2
  | Holding _ => 2
  end.

(** The work that is left in a state: batches to put, the flag to set,
    batches to take, consumers to bring home. *)
Definition work (st : State) : nat :=
  2 * length (remaining (producer st))
  + match producer st with Producing _ => 1 | Finished _ => 0 end
  + length (queue st)
  + foldr Nat.add 0 (map cost (consumers st)).

End JavaQueue.

(** ** Vocabulary for the Java Tiny-ImageNet producer *)

Module JavaTinyWalk.

Import JavaTiny.

(** The images of the paths whose [put] succeeds, in walk order. *)
Fixpoint put_images (entries : list Entry) : list (list (list Z)) :=
  match entries with
  | [] => []
  | Readable img false :: rest => img :: put_images rest
  | _ :: rest => put_images rest
  end.

(** The paths that end in [.jpg] and are not enqueued: unreadable, or
    with an interrupted [put]. *)
Fixpoint failures (entries : list Entry) : nat :=
  match entries with
  | [] => 0
  | Readable _ true :: rest | Unreadable :: rest => S (failures rest)
  | _ :: rest => failures rest
  end.

(** The images put, and the lines logged, in order. *)
Definition enqueued (acts : list Action) : list (list (list Z)) :=
  flat_map (fun a => match a with Put img => [img] | _ => [] end) acts.

Definition logged (acts : list Action) : list string :=
  flat_map (fun a => match a with Log m => [m] | _ => [] end) acts.

(** What the producer does at one path. *)
Definition visit (e : Entry) : list Action :=
  match e with
  | NotAJpeg => []
  | Readable img false => [Put img]
  | Readable _ true | Unreadable => [Log "Error processing image"%string]
  end.

(** A path that is a regular file ending in [.jpg]. *)
Definition is_jpg (e : Entry) : bool :=
  match e with NotAJpeg => false | _ => true end.

(** A channel that has reached one of its two fixed points. *)
Definition saturated (c : Z) : Z := if (c =? 0)%Z then 0%Z else 255%Z.

End JavaTinyWalk.

(** ** Log files *)

Module Logs.

Local Open Scope string_scope.

(** What a path names. *)
Inductive Node : Type :=
| Absent                       (* nothing yet, in a directory one can write to *)
| Regular (content : string)   (* a file one can append to *)
| Unwritable.                  (* a directory, a file one may not write, ... *)

Definition Disk : Type := string -> Node.

Definition store (d : Disk) (path content : string) : Disk :=
  fun p => if String.eqb p path then Regular content else d p.

(** Opening for appending, creating the file when there is none: the
    content the writes will follow, or no file. *)
Definition open_append (d : Disk) (path : string) : option string :=
  match d path with
  | Absent => Some ""
  | Regular content => Some content
  | Unwritable => None
  end.

(** The line feed, and the line separator of the platform. *)
Definition LF : string := String (Ascii.ascii_of_nat 10) "".

(** [AppendToLogFile(filePath, message)] of the Go harnesses:
    [os.OpenFile(filePath, O_APPEND|O_CREATE|O_WRONLY, 0644)], then
    [log.New(file, "", log.LstdFlags).Println(message)].  [stamp] is the
    date and time that [LstdFlags] prints, with its trailing space. *)
Definition AppendToLogFile (stamp : string) (d : Disk)
    (filePath message : string) : Disk * Go.result unit :=
  match open_append d filePath with
  | None => (d, Go.Err "open")
  | Some content =>
      (store d filePath (content ++ stamp ++ message ++ LF), Go.Ok tt)
  end.

(** What the console has received. *)
Record Console : Type := { out : list string; err : list string }.

(** [logMessage(filePath, message)] of the Java harnesses:
    [try (PrintWriter out = new PrintWriter(new FileWriter(filePath, true)))
       { out.println(message); System.out.println(message); }
     catch (IOException e) { System.err.println("Failed to write log: ..."); }]
    [sep] is the line separator. *)
Definition logMessage (sep : string) (d : Disk) (c : Console)
    (filePath message : string) : Disk * Console :=
  match open_append d filePath with
  | None =>
      (d, {| out := out c; err := err c ++ ["Failed to write log"] |})
  | Some content =>
      (store d filePath (content ++ message ++ sep),
       {| out := out c ++ [message]; err := err c |})
  end.

(** The successive calls [logMessage(filePath, m)] for the messages
    [ms]. *)
Fixpoint log_all (sep : string) (d : Disk) (c : Console)
    (filePath : string) (ms : list string) : Disk * Console :=
  match ms with
  | [] => (d, c)
  | m :: rest =>
      let '(d, c) := logMessage sep d c filePath m in
      log_all sep d c filePath rest
  end.

(** The text that [println] writes for the messages [ms]. *)
Fixpoint printed (sep : string) (ms : list string) : string :=
  match ms with
  | [] => ""
  | m :: rest => m ++ sep ++ printed sep rest
  end.

(** The successive calls [AppendToLogFile(filePath, m)] for the messages
    [ms], each result dropped as [main] drops it
    ([err = AppendToLogFile(...)], never read). *)
Fixpoint append_all (stamps : nat -> string) (i : nat) (d : Disk)
    (filePath : string) (ms : list string) : Disk :=
  match ms with
  | [] => d
  | m :: rest =>
      append_all stamps (S i)
        (AppendToLogFile (stamps i) d filePath m).1 filePath rest
  end.

(** The lines that the calls number [i], [i + 1], ... write. *)
Fixpoint lines (stamps : nat -> string) (i : nat) (ms : list string) : string :=
  match ms with
  | [] => ""
  | m :: rest => stamps i ++ m ++ LF ++ lines stamps (S i) rest
  end.

(** [a == b] on strings. *)
Definition string_eq (a b : list Byte.byte) : bool :=
  if List.list_eq_dec Byte.byte_eq_dec a b then true else false.

(** [contains(data, substring)] of the Go test file:
    [len(data) >= len(substring) && data[:len(substring)] == substring],
    on strings as sequences of bytes. *)
Definition contains (data substring : list Byte.byte) : Go.result bool :=
  if (length substring <=? length data)%nat then
    head ← Go.subslice data 0 (length substring);
    Go.Ok (string_eq head substring)
  else Go.Ok false.

End Logs.

(** ** The loop of [main] of the Java CIFAR-10 harness

    The arrays loaded once are shared by all runs.  Every run has its own
    queue, flag, producer thread and pool; the threads of a run whose
    [awaitTermination] timed out are still there during the runs that
    follow, so a thread event names the run it belongs to. *)

Module JavaMain.

Import JavaCifar.

Local Open Scope nat_scope.

(** The threads of one run. *)
Record Threads : Type :=
  { t_producer : Producer;
    t_queue : list Batch;
    t_flag : bool;
    t_consumers : list Consumer }.

Record World : Type :=
  { arrays : list Vector;     (* the [float[]] arrays of [allBatches] *)
    runs : list Threads;      (* the threads of the runs started so far *)
    ticks : nat }.            (* number of calls of [System.nanoTime] *)

(** The threads of a run together with the arrays, as the state of the
    producer and consumer steps. *)
Definition view (h : list Vector) (t : Threads) : State :=
  {| heap := h; producer := t_producer t; queue := t_queue t;
     isDoneProducing := t_flag t; consumers := t_consumers t |}.

Definition threads_of (st : State) : Threads :=
  {| t_producer := producer st; t_queue := queue st;
     t_flag := isDoneProducing st; t_consumers := consumers st |}.

(** One step of a thread of run [e.1]. *)
Definition wstep (capacity : nat) (e : nat * Event) (w : World) : World :=
  match runs w !! e.1 with
  | Some t =>
      let st := step capacity e.2 (view (arrays w) t) in
      {| arrays := heap st; runs := <[e.1 := threads_of st]> (runs w);
         ticks := ticks w |}
  | None => w
  end.

Definition wexec (capacity : nat) (trace : list (nat * Event)) (w : World)
  : World :=
  fold_left (fun w e => wstep capacity e w) trace w.

(** [new LinkedBlockingQueue<>(QUEUE_CAPACITY)], [new AtomicBoolean(false)],
    [new Thread(() -> produceBatches(...))] and [producer.start()]. *)
Definition start_run (allBatches : list Batch) (w : World) : World :=
  {| arrays := arrays w;
     runs := runs w ++ [{| t_producer := Producing allBatches; t_queue := [];
                           t_flag := false; t_consumers := [] |}];
     ticks := ticks w |}.

(** [consumers.execute(consumerTask)], [nConsumers] times, in run [r]. *)
Definition spawn_pool (r nConsumers : nat) (w : World) : World :=
  {| arrays := arrays w;
     runs := alter (fun t => {| t_producer := t_producer t;
                                t_queue := t_queue t; t_flag := t_flag t;
                                t_consumers := replicate nConsumers AtLoop |})
               r (runs w);
     ticks := ticks w |}.

(** [System.nanoTime()]: [clock i] is the value of the [i]-th call. *)
Definition nanoTime (clock : nat -> Z) (w : World) : Z * World :=
  (clock (ticks w),
   {| arrays := arrays w; runs := runs w; ticks := S (ticks w) |}).

(** What the environment does during one iteration of the loop: the steps
    of the threads between [producer.start()] and the call of
    [processBatches], until [awaitTermination] ends, and while [main]
    waits in [producer.join()]; how [awaitTermination] ends; the two
    memory samples and the CPU load. *)
Record Probe : Type :=
  { p_before : list (nat * Event);
    p_during : list (nat * Event);
    p_await : Await;
    p_joining : list (nat * Event);
    p_memoryBefore : Z;
    p_memoryAfter : Z;
    p_cpu : spec_float }.

Record RunMetrics : Type :=
  { elapsedTime : Z; memoryUsage : Z; cpuUsage : spec_float; overheadTime : Z }.

Record Totals : Type :=
  { totalExecutionTime : Z; totalMemoryUsage : Z;
    totalCpuUsage : spec_float; totalOverheadTime : Z }.

Definition zero_totals : Totals :=
  {| totalExecutionTime := 0; totalMemoryUsage := 0;
     totalCpuUsage := S754_zero false; totalOverheadTime := 0 |}.

(** [a + b] and [a - b] on [long]. *)
Definition long_add (a b : Z) : Z := long_wrap (a + b).
Definition long_sub (a b : Z) : Z := long_wrap (a - b).

Definition double_add (a b : spec_float) : spec_float := SFadd 53 1024 a b.

Definition pool_exited (r : nat) (w : World) : bool :=
  match runs w !! r with
  | Some t => forallb (fun c => match c with Exited => true | _ => false end)
                (t_consumers t)
  | None => false
  end.

Definition producer_ended (r : nat) (w : World) : bool :=
  match runs w !! r with
  | Some t => match t_producer t with Finished _ => true | _ => false end
  | None => false
  end.

Section Loop.

Variable nConsumers : nat.
Variable capacity : nat.
Variable clock : nat -> Z.
Variable allBatches : list Batch.

(** The body of [for (int run = 0; run < NUM_RUNS; run++)] (log lines
    left out).  [None]: the probe describes no execution, because
    [awaitTermination] is said to return [true] with a consumer still
    running, or [producer.join()] to return with the producer still in
    its loop. *)
Definition main_iteration (p : Probe) (w : World) (tot : Totals)
  : option (World * Totals * RunMetrics) :=
  let r := length (runs w) in
  let memoryBefore := p_memoryBefore p in
  let w := start_run allBatches w in
  let w := wexec capacity (p_before p) w in
  let '(startOverheadTime, w) := nanoTime clock w in
  let '(startTime, w) := nanoTime clock w in
  let w := spawn_pool r nConsumers w in
  let w := wexec capacity (p_during p) w in
  if match p_await p with AllTerminated => negb (pool_exited r w) | _ => false end
  then None
  else
    let '(now, w) := nanoTime clock w in
    let elapsedTime := long_sub now startTime in
    let '(endOverheadTime, w) := nanoTime clock w in
    let w := wexec capacity (p_joining p) w in
    if negb (producer_ended r w) then None
    else
      let memoryAfter := p_memoryAfter p in
      let memoryUsage := long_sub memoryAfter memoryBefore in
      let overheadTime := long_sub endOverheadTime startOverheadTime in
      let cpuUsage := p_cpu p in
      Some (w,
            {| totalExecutionTime := long_add (totalExecutionTime tot) elapsedTime;
               totalMemoryUsage := long_add (totalMemoryUsage tot) memoryUsage;
               totalCpuUsage := double_add (totalCpuUsage tot) cpuUsage;
               totalOverheadTime := long_add (totalOverheadTime tot) overheadTime |},
            {| elapsedTime := elapsedTime; memoryUsage := memoryUsage;
               cpuUsage := cpuUsage; overheadTime := overheadTime |}).

(** [count] iterations from iteration [i] on. *)
Fixpoint main_loop (count i : nat) (env : nat -> Probe) (w : World)
    (tot : Totals) : option (World * Totals * list RunMetrics) :=
  match count with
  | O => Some (w, tot, [])
  | S count' =>
      '(w, tot, m) ← main_iteration (env i) w tot;
      '(w, tot, ms) ← main_loop count' (S i) env w tot;
      Some (w, tot, m :: ms)
  end.

End Loop.

(** *** Vocabulary *)

(** The threads of a run that is over. *)
Definition over (t : Threads) : Prop :=
  (exists unsent, t_producer t = Finished unsent) /\
  Forall (fun c => c = Exited) (t_consumers t).

(** A run in which no thread is interrupted and the pool drains before
    [awaitTermination] returns. *)
Definition quiet (p : Probe) : Prop :=
  p_await p = AllTerminated /\
  undisturbed (map snd (p_before p)) = true /\
  undisturbed (map snd (p_during p)) = true /\
  undisturbed (map snd (p_joining p)) = true.

(** The steps of the threads of run [r] in a trace. *)
Fixpoint focus (r : nat) (trace : list (nat * Event)) : list Event :=
  match trace with
  | [] => []
  | e :: rest => if e.1 =? r then e.2 :: focus r rest else focus r rest
  end.

(** The clock never goes back. *)
Definition monotonic (clock : nat -> Z) : Prop :=
  forall a b, a <= b -> (clock a <= clock b)%Z.

End JavaMain.

(** ** More small inputs *)

Module Samples.

(** An image of one pixel: full red, no green, half blue. *)
Definition one_pixel : GoTiny.Image :=
  {| GoTiny.Dx := 1; GoTiny.Dy := 1;
     GoTiny.At := fun _ _ => (65535, 0, 32768)%Z |}.

(** A black image one column wider than [imageWidth]. *)
Definition too_wide : GoTiny.Image :=
  {| GoTiny.Dx := 65; GoTiny.Dy := 64;
     GoTiny.At := fun _ _ => (0, 0, 0)%Z |}.



(** What a quiet run number [r] of the Java loop does over two one-image
    batches with one consumer: the sequential trace, and a memory sample
    that shrinks by 1000 bytes. *)
Definition quiet_probe (r : nat) : JavaMain.Probe :=
  {| JavaMain.p_before := [];
     JavaMain.p_during := map (pair r) (JavaCifar.sequential_trace 2 1);
     JavaMain.p_await := JavaCifar.AllTerminated;
     JavaMain.p_joining := [];
     JavaMain.p_memoryBefore := 2000;
     JavaMain.p_memoryAfter := 1000;
     JavaMain.p_cpu := S754_zero false |}.

(** A run of the Java loop over the same batches in which the ten
    minutes of [awaitTermination] pass while the consumer holds the first
    batch and the producer has not put the second; [main] then waits in
    [producer.join()] while the producer puts it and ends. *)
Definition timed_out_probe : JavaMain.Probe :=
  {| JavaMain.p_before := [];
     JavaMain.p_during :=
       map (pair 0%nat)
         [JavaCifar.EProducer; JavaCifar.EConsumer 0; JavaCifar.EConsumer 0];
     JavaMain.p_await := JavaCifar.TimedOut;
     JavaMain.p_joining :=
       map (pair 0%nat) [JavaCifar.EProducer; JavaCifar.EProducer];
     JavaMain.p_memoryBefore := 1000;
     JavaMain.p_memoryAfter := 1000;
     JavaMain.p_cpu := S754_zero false |}.

(** The Java world before the first run, with the arrays of two
    one-image batches. *)
Definition java_fresh : JavaMain.World :=
  {| JavaMain.arrays := (JavaCifar.allocate Fixtures.two_batches).1;
     JavaMain.runs := []; JavaMain.ticks := 0 |}.

End Samples.

(** * Part II: what is proved *)

(** ** binary32: doubling is exact below half the range *)

Module F32Facts.

Import F32.

Lemma two_eq : two = S754_finite false 8388608 (-22).
Proof. reflexivity. Qed.

Lemma one_eq : one = S754_finite false 8388608 (-23).
Proof. reflexivity. Qed.

(** A well-formed finite binary32 is normal (24 significant bits) or
    subnormal (fewer bits, least exponent). *)
Lemma valid_finite_inv s m e :
  valid (S754_finite s m e) = true ->
  -149 <= e <= 104 /\
  (Zpos (digits2_pos m) = 24 \/ (e = -149 /\ Zpos (digits2_pos m) < 24)).
Proof.
  unfold valid, valid_binary, bounded, canonical_mantissa, fexp,
    SpecFloat.emin, prec, emax.
  intros H. apply andb_prop in H as [H1 H2].
  apply Z.eqb_eq in H1. apply Z.leb_le in H2. lia.
Qed.

Lemma valid_finite_intro s m e :
  -149 <= e <= 104 ->
  (Zpos (digits2_pos m) = 24 \/ (e = -149 /\ Zpos (digits2_pos m) < 24)) ->
  valid (S754_finite s m e) = true.
Proof.
  unfold valid, valid_binary, bounded, canonical_mantissa, fexp,
    SpecFloat.emin, prec, emax.
  intros He Hd. apply andb_true_intro. split.
  - apply Z.eqb_eq. lia.
  - apply Z.leb_le. lia.
Qed.

Lemma digits2_bounds m :
  2 ^ (Zpos (digits2_pos m) - 1) <= Zpos m < 2 ^ Zpos (digits2_pos m).
Proof.
  induction m as [p IH | p IH |]; cbn [digits2_pos].
  - rewrite Pos2Z.inj_succ.
    replace (Z.succ (Zpos (digits2_pos p)) - 1)
      with (Z.succ (Zpos (digits2_pos p) - 1)) by lia.
    rewrite !Z.pow_succ_r by lia. lia.
  - rewrite Pos2Z.inj_succ.
    replace (Z.succ (Zpos (digits2_pos p)) - 1)
      with (Z.succ (Zpos (digits2_pos p) - 1)) by lia.
    rewrite !Z.pow_succ_r by lia. lia.
  - cbn. lia.
Qed.

Lemma double_normal s m e :
  Zpos (digits2_pos m) = 24 -> -149 <= e ->
  double (S754_finite s m e) =
    if e + 1 <=? 104 then S754_finite s m (e + 1) else S754_infinity s.
Proof.
  intros Hd He. unfold double. rewrite two_eq. unfold mul, SFmul.
  rewrite xorb_false_r, !Pos.mul_xO_r, Pos.mul_1_r.
  unfold binary_round_aux, shr_fexp.
  cbn [Zdigits2 digits2_pos shr_record_of_loc].
  rewrite !Pos2Z.inj_succ, Hd.
  unfold fexp, SpecFloat.emin, prec, emax.
  replace (Z.max _ _ - _) with 23 by lia.
  cbn [shr SpecFloat.iter_pos shr_1 orb shr_m loc_of_shr_record
         round_nearest_even shr_record_of_loc Zdigits2].
  rewrite Hd.
  replace (Z.max _ _ - _) with 0 by lia.
  cbn [shr shr_m]. replace (e + -22 + 23) with (e + 1) by lia. reflexivity.
Qed.

Lemma double_subnormal s m :
  Zpos (digits2_pos m) < 24 ->
  double (S754_finite s m (-149)) = S754_finite s m~0 (-149).
Proof.
  intros Hd. unfold double. rewrite two_eq. unfold mul, SFmul.
  rewrite xorb_false_r, !Pos.mul_xO_r, Pos.mul_1_r.
  unfold binary_round_aux, shr_fexp.
  cbn [Zdigits2 digits2_pos shr_record_of_loc].
  rewrite !Pos2Z.inj_succ.
  unfold fexp, SpecFloat.emin, prec, emax.
  replace (Z.max _ _ - _) with 22 by lia.
  cbn [shr SpecFloat.iter_pos shr_1 orb shr_m loc_of_shr_record
         round_nearest_even shr_record_of_loc Zdigits2 digits2_pos].
  rewrite Pos2Z.inj_succ.
  replace (Z.max _ _ - _) with 0 by lia.
  cbn [shr shr_m]. reflexivity.
Qed.

Lemma double_zero s : double (S754_zero s) = S754_zero s.
Proof. destruct s; reflexivity. Qed.

(** Doubling keeps a datum well formed. *)
Lemma double_valid x : valid x = true -> valid (double x) = true.
Proof.
  destruct x as [s | s | | s m e]; try reflexivity.
  intros H. destruct (valid_finite_inv _ _ _ H) as [He [Hd | [-> Hd]]].
  - rewrite double_normal by lia.
    destruct (Z.leb_spec (e + 1) 104); [|reflexivity].
    apply valid_finite_intro; lia.
  - rewrite double_subnormal by lia.
    apply valid_finite_intro; [lia|].
    cbn [digits2_pos]. rewrite Pos2Z.inj_succ. lia.
Qed.

(** Below half the range, doubling is exact: the value of [x * 2] is
    twice the value of [x]. *)
Lemma double_units x u :
  valid x = true -> units x = Some u -> Z.abs u < half_range ->
  units (double x) = Some (2 * u).
Proof.
  destruct x as [s | s | | s m e]; try discriminate.
  - intros _ [= <-] _. rewrite double_zero. reflexivity.
  - intros H [= <-] Hu.
    destruct (valid_finite_inv _ _ _ H) as [He [Hd | [-> Hd]]].
    + rewrite double_normal by lia.
      pose proof (digits2_bounds m) as Hm. rewrite Hd in Hm.
      assert (e + 1 <= 104) as Hle.
      { destruct (Z.eq_dec e 104) as [-> |]; [|lia].
        exfalso. revert Hu. unfold half_range.
        destruct s; cbn [cond_Zopp]; cbn in Hm |- *; lia. }
      destruct (Z.leb_spec (e + 1) 104); [|lia].
      cbn [units]. f_equal.
      replace (e + 1 + 149) with (Z.succ (e + 149)) by lia.
      rewrite Z.pow_succ_r by lia.
      destruct s; cbn [cond_Zopp]; lia.
    + rewrite double_subnormal by lia. cbn [units]. f_equal.
      destruct s; cbn [cond_Zopp] ; cbn; lia.
Qed.

(** What doubling does outside the exact range. *)
Lemma double_overflow s m :
  Zpos (digits2_pos m) = 24 ->
  double (S754_finite s m 104) = S754_infinity s.
Proof. intros Hd. rewrite double_normal by lia. reflexivity. Qed.

Lemma double_infinity s : double (S754_infinity s) = S754_infinity s.
Proof. destruct s; reflexivity. Qed.

Lemma double_nan : double S754_nan = S754_nan.
Proof. reflexivity. Qed.

(** [r] doublings multiply the value by [2^r] while the result stays in
    range. *)
Lemma iter_double_units (r : nat) x u :
  valid x = true -> units x = Some u ->
  Z.abs u * 2 ^ Z.of_nat r <= half_range ->
  valid (Nat.iter r double x) = true /\
  units (Nat.iter r double x) = Some (2 ^ Z.of_nat r * u).
Proof.
  intros Hv Hu. induction r as [|r IH]; intros Hr.
  - change (Nat.iter 0 double x) with x. split; [assumption|].
    rewrite Hu. f_equal. cbn. lia.
  - rewrite Nat2Z.inj_succ, Z.pow_succ_r in * by lia.
    assert (0 < 2 ^ Z.of_nat r) by (apply Z.pow_pos_nonneg; lia).
    destruct IH as [IHv IHu]; [nia|].
    change (Nat.iter (S r) double x) with (double (Nat.iter r double x)).
    split; [apply double_valid; assumption|].
    rewrite (double_units _ _ IHv IHu).
    + f_equal. lia.
    + assert (0 < half_range) by (unfold half_range; lia).
      rewrite Z.abs_mul, (Z.abs_eq (2 ^ Z.of_nat r)) by lia.
      pose proof (Z.abs_nonneg u). nia.
Qed.

(** ** Loaded pixels *)

Lemma pixel_ok_all : forallb pixel_ok (map Z.of_nat (seq 0 256)) = true.
Proof. vm_compute. reflexivity. Qed.

(** Every [float32(b) / 255.0] is a well-formed value between 0 and 1. *)
Lemma pixel_range b :
  0 <= b < 256 ->
  valid (pixel b) = true /\
  exists u, units (pixel b) = Some u /\ 0 <= u <= 2 ^ 149.
Proof.
  intros Hb. pose proof pixel_ok_all as H.
  rewrite forallb_forall in H.
  assert (In b (map Z.of_nat (seq 0 256))) as Hin.
  { apply in_map_iff. exists (Z.to_nat b). split; [lia|]. apply in_seq. lia. }
  specialize (H b Hin). unfold pixel_ok in H.
  apply andb_prop in H as [Hv Hu]. split; [assumption|].
  destruct (units (pixel b)) as [u|]; [|discriminate].
  apply andb_prop in Hu as [H1 H2].
  exists u. split; [reflexivity|]. split; apply Z.leb_le; assumption.
Qed.

End F32Facts.

(** ** Go: the batcher, the scheduler and the repeated runs *)

Module GoFacts.

Import Go F32Facts.

Local Open Scope nat_scope.

Section Batcher.
Variable batchSize : nat.
Hypothesis batchSize_pos : 0 < batchSize.

Lemma reslice_window n k :
  (k + 1) * batchSize <= n ->
  reslice n (k * batchSize) (k * batchSize + batchSize) = Ok (window batchSize k).
Proof.
  intros H. unfold reslice, window.
  destruct (Nat.leb_spec (k * batchSize) (k * batchSize + batchSize)); [|lia].
  destruct (Nat.leb_spec (k * batchSize + batchSize) n); [|lia].
  cbn. do 2 f_equal. lia.
Qed.

Lemma fill_batches_spec count i nImages nLabels :
  (i + count) * batchSize <= nImages ->
  (i + count) * batchSize <= nLabels ->
  fill_batches batchSize count i nImages nLabels
  = Ok (map (batch_at batchSize) (seq i count)).
Proof.
  revert i. induction count as [|count IH]; intros i HI HL; [reflexivity|].
  cbn [fill_batches seq map].
  rewrite !reslice_window by nia. cbn [mbind result_bind].
  rewrite IH by lia. reflexivity.
Qed.

Lemma batched_le n : batched batchSize n <= n.
Proof. unfold batched. pose proof (Nat.div_mod_eq n batchSize). nia. Qed.

Lemma make_batches_spec nImages nLabels :
  batched batchSize nImages <= nLabels ->
  make_batches batchSize nImages nLabels = Ok (spec_batches batchSize nImages).
Proof.
  intros H. unfold make_batches.
  destruct (Nat.eqb_spec batchSize 0); [lia|].
  apply fill_batches_spec; [apply batched_le | exact H].
Qed.
End Batcher.

Lemma filter_insert_same {A} (P : A -> Prop) `{forall x, Decision (P x)}
    (l : list A) k x y :
  l !! k = Some x -> (P x <-> P y) ->
  length (filter P (<[k := y]> l)) = length (filter P l).
Proof.
  revert k. induction l as [|a l IH]; intros [|k] Hk Hxy; try discriminate.
  - injection Hk as ->. change (<[0:=y]> (x :: l)) with (y :: l).
    rewrite !filter_cons.
    destruct (decide (P y)), (decide (P x)); try tauto; reflexivity.
  - cbn in Hk. change (<[S k:=y]> (a :: l)) with (a :: <[k:=y]> l).
    rewrite !filter_cons.
    destruct (decide (P a)); cbn [length]; rewrite (IH k) by assumption; reflexivity.
Qed.

Lemma filter_insert_drop {A} (P : A -> Prop) `{forall x, Decision (P x)}
    (l : list A) k x y :
  l !! k = Some x -> P x -> ~ P y ->
  length (filter P (<[k := y]> l)) = pred (length (filter P l)).
Proof.
  revert k. induction l as [|a l IH]; intros [|k] Hk Hx Hy; try discriminate.
  - injection Hk as ->. change (<[0:=y]> (x :: l)) with (y :: l).
    rewrite !filter_cons.
    destruct (decide (P y)), (decide (P x)); try tauto; reflexivity.
  - cbn in Hk. change (<[S k:=y]> (a :: l)) with (a :: <[k:=y]> l).
    rewrite !filter_cons.
    pose proof (IH k Hk Hx Hy) as IHk.
    assert (0 < length (filter P l)) as Hpos.
    { clear IHk IH. revert k Hk. induction l as [|b l IHl]; intros [|k] Hk; try discriminate.
      - injection Hk as ->. rewrite filter_cons. destruct (decide (P x)); [cbn; lia | tauto].
      - cbn in Hk. rewrite filter_cons. specialize (IHl k Hk).
        destruct (decide (P b)); cbn [length]; lia. }
    destruct (decide (P a)); cbn [length]; lia.
Qed.

Section Sched.
Variable batchSize : nat.
Hypothesis batchSize_pos : 0 < batchSize.

Lemma window_div k i : i < batchSize -> (k * batchSize + i) / batchSize = k.
Proof. intros. symmetry. apply (Nat.div_unique _ _ k i); lia. Qed.

Lemma window_mod k i : i < batchSize -> (k * batchSize + i) mod batchSize = i.
Proof. intros. symmetry. apply (Nat.mod_unique _ _ k i); lia. Qed.

Lemma progress_rows_step gs rows k g :
  gs !! k = Some g -> g_i g < batchSize ->
  alter SimulateImageProcessing (k * batchSize + g_i g)
    (progress_rows batchSize gs rows)
  = progress_rows batchSize
      (<[k := {| g_batch := g_batch g; g_i := S (g_i g); g_done := false |}]> gs)
      rows.
Proof.
  intros Hk Hi. apply list_eq. intros j. unfold progress_rows.
  rewrite list_lookup_alter, !list_lookup_imap.
  destruct (decide (k * batchSize + g_i g = j)) as [<- | Hne].
  - rewrite window_div, window_mod by assumption.
    rewrite Hk, list_lookup_insert_eq by (eapply lookup_lt_Some; eassumption).
    cbn [g_i]. rewrite Nat.ltb_irrefl.
    destruct (Nat.ltb_spec (g_i g) (S (g_i g))); [|lia].
    destruct (rows !! _); reflexivity.
  - destruct (rows !! j) as [row|]; [|reflexivity].
    cbn [fmap option_fmap option_map]. f_equal.
    destruct (decide (j / batchSize = k)) as [Hjk | Hjk].
    + rewrite Hjk, Hk, list_lookup_insert_eq by (eapply lookup_lt_Some; eassumption).
      cbn [g_i].
      assert (j mod batchSize <> g_i g).
      { intros E. apply Hne. rewrite <- E, <- Hjk.
        pose proof (Nat.div_mod_eq j batchSize). lia. }
      destruct (Nat.ltb_spec (j mod batchSize) (g_i g)),
               (Nat.ltb_spec (j mod batchSize) (S (g_i g))); try reflexivity; lia.
    + rewrite list_lookup_insert_ne by congruence. reflexivity.
Qed.

Lemma progress_rows_done gs rows k g :
  gs !! k = Some g ->
  progress_rows batchSize
    (<[k := {| g_batch := g_batch g; g_i := g_i g; g_done := true |}]> gs) rows
  = progress_rows batchSize gs rows.
Proof.
  intros Hk. apply list_eq. intros j. unfold progress_rows.
  rewrite !list_lookup_imap.
  destruct (rows !! j) as [row|]; [|reflexivity].
    cbn [fmap option_fmap option_map]. f_equal.
  destruct (decide (j / batchSize = k)) as [-> | Hjk].
  - rewrite Hk, list_lookup_insert_eq by (eapply lookup_lt_Some; eassumption).
    reflexivity.
  - rewrite list_lookup_insert_ne by congruence. reflexivity.
Qed.

Lemma goroutine_step_inv rows k st :
  Inv batchSize rows st -> Inv batchSize rows (step k st).
Proof.
  intros [Hfit Hpool Hmem Hwg]. unfold step.
  destruct (pool st !! k) as [g|] eqn:Hk; [|split; assumption].
  destruct (g_done g) eqn:Hdone; [split; assumption|].
  destruct (Hpool k g Hk) as (Hb & Hle & _).
  rewrite Hb. cbn [batch_at window Images s_len s_off].
  destruct (Nat.ltb_spec (g_i g) batchSize) as [Hlt | Hge].
  - split; cbn [pool mem wg].
    + rewrite length_insert. exact Hfit.
    + intros k' g' Hk'.
      destruct (decide (k = k')) as [<- | Hne].
      * rewrite list_lookup_insert_eq in Hk' by (eapply lookup_lt_Some; eassumption).
        injection Hk' as <-. cbn.
        split; [reflexivity | split; [lia | discriminate]].
      * rewrite list_lookup_insert_ne in Hk' by assumption. auto.
    + rewrite Hmem. rewrite <- Hb. apply progress_rows_step; assumption.
    + rewrite Hwg. symmetry. eapply filter_insert_same; [eassumption|].
      unfold running. cbn. rewrite Hdone. tauto.
  - split; cbn [pool mem wg].
    + rewrite length_insert. exact Hfit.
    + intros k' g' Hk'.
      destruct (decide (k = k')) as [<- | Hne].
      * rewrite list_lookup_insert_eq in Hk' by (eapply lookup_lt_Some; eassumption).
        injection Hk' as <-. cbn.
        split; [reflexivity | split; [lia | intros _; lia]].
      * rewrite list_lookup_insert_ne in Hk' by assumption. auto.
    + rewrite Hmem. symmetry. rewrite <- Hb. apply progress_rows_done. assumption.
    + rewrite Hwg. symmetry. eapply filter_insert_drop; [eassumption| |].
      * unfold running. rewrite Hdone. reflexivity.
      * unfold running. cbn. discriminate.
Qed.

Lemma goroutines_exec_app a b st : exec (a ++ b) st = exec b (exec a st).
Proof. unfold exec. apply fold_left_app. Qed.

Lemma goroutines_inv rows sched st :
  Inv batchSize rows st -> Inv batchSize rows (exec sched st).
Proof.
  revert st. induction sched as [|k sched IH]; intros st H; [exact H|].
  cbn [exec fold_left]. apply IH, goroutine_step_inv, H.
Qed.

Lemma spawn_inv rows :
  Inv batchSize rows (spawn (spec_batches batchSize (length rows)) rows).
Proof.
  unfold spawn, spec_batches. split; cbn [pool mem wg].
  - rewrite !length_map, length_seq. reflexivity.
  - intros k g Hk. rewrite !list_lookup_fmap in Hk.
    destruct (seq 0 (length rows / batchSize) !! k) as [k'|] eqn:Hs; [|discriminate].
    apply lookup_seq in Hs as [-> _]. injection Hk as <-. cbn.
    split; [reflexivity | split; [lia | discriminate]].
  - apply list_eq. intros j. unfold progress_rows.
    rewrite list_lookup_imap, !list_lookup_fmap.
    destruct (rows !! j) as [row|]; [|reflexivity].
    cbn [fmap option_fmap option_map]. f_equal.
    destruct (seq 0 (length rows / batchSize) !! (j / batchSize)); reflexivity.
  - rewrite !length_map. symmetry.
    induction (seq 0 (length rows / batchSize)) as [|a l IH]; [reflexivity|].
    cbn [map]. rewrite filter_cons_True by reflexivity.
    cbn [length]. rewrite IH. reflexivity.
Qed.

Lemma step_pool rows k st g :
  Inv batchSize rows st -> pool st !! k = Some g -> g_done g = false ->
  pool (step k st)
  = <[k := if g_i g <? batchSize
           then {| g_batch := g_batch g; g_i := S (g_i g); g_done := false |}
           else {| g_batch := g_batch g; g_i := g_i g; g_done := true |}]> (pool st).
Proof.
  intros HI Hk Hd. unfold step. rewrite Hk, Hd.
  destruct (inv_pool _ _ _ HI k g Hk) as (Hb & _).
  replace (s_len (Images (g_batch g))) with batchSize by (rewrite Hb; reflexivity).
  destruct (g_i g <? batchSize); reflexivity.
Qed.

(** Resumed [owed g] times, goroutine [k] returns; nobody else moves. *)
Lemma exec_own rows k : forall d st g,
  Inv batchSize rows st -> pool st !! k = Some g ->
  batchSize - g_i g = d ->
  pool (exec (replicate (owed g) k) st) = <[k := finish g]> (pool st).
Proof.
  induction d as [|d IH]; intros st g HI Hk Hd;
    destruct (inv_pool _ _ _ HI k g Hk) as (Hb & Hle & Hfin);
    assert (s_len (Images (g_batch g)) = batchSize) as Hlen
      by (rewrite Hb; reflexivity);
    unfold owed; rewrite Hlen; destruct (g_done g) eqn:Hdone.
  - cbn. symmetry. apply list_insert_id. rewrite Hk. f_equal.
    unfold finish. rewrite Hlen. destruct g as [b i dn]; cbn in *.
    rewrite Hdone, (Hfin eq_refl). reflexivity.
  - replace (batchSize - g_i g) with 0 by lia.
    cbn [replicate exec fold_left].
    rewrite (step_pool rows k st g) by assumption.
    destruct (Nat.ltb_spec (g_i g) batchSize); [lia|].
    unfold finish. rewrite Hlen. do 3 f_equal. lia.
  - cbn. symmetry. apply list_insert_id. rewrite Hk. f_equal.
    unfold finish. rewrite Hlen. destruct g as [b i dn]; cbn in *.
    rewrite Hdone, (Hfin eq_refl). reflexivity.
  - rewrite Hd. cbn [replicate exec fold_left].
    pose proof (goroutine_step_inv rows k st HI) as HI'.
    pose proof (step_pool rows k st g HI Hk Hdone) as Hp.
    destruct (Nat.ltb_spec (g_i g) batchSize); [|lia].
    set (g' := {| g_batch := g_batch g; g_i := S (g_i g); g_done := false |}) in *.
    assert (pool (step k st) !! k = Some g') as Hk'.
    { rewrite Hp. apply list_lookup_insert_eq. eapply lookup_lt_Some; eassumption. }
    specialize (IH (step k st) g' HI' Hk').
    unfold owed in IH. cbn [g' g_done g_batch g_i] in IH.
    rewrite Hlen in IH.
    replace (S (batchSize - S (g_i g))) with (S d) in IH by lia.
    change (exec (replicate (S d) k) (step k st))
      with (fold_left (fun s k => step k s) (replicate (S d) k) (step k st)) in IH.
    cbn [replicate fold_left] in IH |- *.
    unfold exec in IH. rewrite IH by lia. rewrite Hp.
    rewrite list_insert_insert_eq. reflexivity.
Qed.
End Sched.

Section Sched.
Variable batchSize : nat.
Hypothesis batchSize_pos : 0 < batchSize.

Lemma exec_tail_from rows : forall gs st k0,
  Inv batchSize rows st -> drop k0 (pool st) = gs ->
  pool (exec (concat (imap (fun j g => replicate (owed g) (k0 + j)) gs)) st)
  = take k0 (pool st) ++ map finish gs.
Proof.
  induction gs as [|g gs IH]; intros st k0 HI Hdrop.
  - cbn. rewrite app_nil_r, take_ge; [reflexivity|].
    apply drop_nil_inv in Hdrop. exact Hdrop.
  - assert (pool st !! k0 = Some g) as Hk.
    { rewrite <- (Nat.add_0_r k0), <- lookup_drop, Hdrop. reflexivity. }
    rewrite imap_cons. cbn [concat]. rewrite goroutines_exec_app, Nat.add_0_r.
    pose proof (goroutines_inv batchSize batchSize_pos rows (replicate (owed g) k0) st HI) as HI1.
    pose proof (exec_own batchSize batchSize_pos rows k0 _ st g HI Hk eq_refl) as Hp.
    set (st1 := exec (replicate (owed g) k0) st) in *.
    rewrite (imap_ext _ (fun j g => replicate (owed g) (S k0 + j)))
      by (intros; cbn; f_equal; lia).
    rewrite (IH st1 (S k0) HI1).
    + rewrite Hp. erewrite take_S_r;
        [|apply list_lookup_insert_eq; eapply lookup_lt_Some; eassumption].
      rewrite take_insert_ge by lia. rewrite <- app_assoc. reflexivity.
    + rewrite Hp, drop_insert_lt by lia.
      erewrite drop_S in Hdrop by eassumption. congruence.
Qed.

(** After the fair tail every goroutine has returned. *)
Lemma exec_fair_tail rows st :
  Inv batchSize rows st ->
  pool (exec (fair_tail st) st) = map finish (pool st).
Proof.
  intros HI. exact (exec_tail_from rows (pool st) st 0 HI eq_refl).
Qed.

Lemma progress_rows_finished rows gs :
  length gs = length rows / batchSize ->
  (forall k g, gs !! k = Some g -> g_batch g = batch_at batchSize k) ->
  progress_rows batchSize (map finish gs) rows = run_rows batchSize rows.
Proof.
  intros Hlen Hgs. apply list_eq. intros j. unfold progress_rows, run_rows.
  rewrite list_lookup_imap, list_lookup_fmap.
  pose proof (batched_le batchSize batchSize_pos (length rows)) as Hb.
  unfold batched in *.
  destruct (Nat.lt_ge_cases j (length rows / batchSize * batchSize)) as [Hj | Hj].
  - rewrite lookup_app_l by (rewrite length_map, length_take; lia).
    rewrite list_lookup_fmap, lookup_take_lt by lia.
    assert (j / batchSize < length gs) as Hq.
    { rewrite Hlen. apply Nat.Div0.div_lt_upper_bound; lia. }
    destruct (lookup_lt_is_Some_2 gs _ Hq) as [g Hg].
    rewrite Hg. cbn [fmap option_fmap option_map finish g_i].
    rewrite (Hgs _ _ Hg). cbn [batch_at Images window s_len].
    pose proof (Nat.mod_upper_bound j batchSize ltac:(lia)).
    destruct (Nat.ltb_spec (j mod batchSize) batchSize); [|lia].
    destruct (rows !! j); reflexivity.
  - rewrite lookup_app_r by (rewrite length_map, length_take; lia).
    rewrite length_map, length_take, lookup_drop.
    rewrite Nat.min_l by lia.
    replace (length rows / batchSize * batchSize
             + (j - length rows / batchSize * batchSize)) with j by lia.
    assert (length gs <= j / batchSize) as Hq.
    { rewrite Hlen. apply Nat.div_le_lower_bound; lia. }
    rewrite (lookup_ge_None_2 gs) by exact Hq.
    cbn [fmap option_fmap option_map].
    destruct (rows !! j); reflexivity.
Qed.

(** Whatever the schedule, when [wg.Wait] returns every goroutine has
    returned, the counter is zero and the rows are those of one
    complete run. *)
Lemma wg_Wait_spec rows sched :
  let st := wg_Wait sched (spawn (spec_batches batchSize (length rows)) rows) in
  mem st = run_rows batchSize rows /\ wg st = 0 /\
  Forall (fun g => g_done g = true) (pool st).
Proof.
  cbn zeta. unfold wg_Wait.
  set (st0 := exec sched _).
  assert (Inv batchSize rows st0) as HI0
    by (apply goroutines_inv, spawn_inv; assumption).
  pose proof (goroutines_inv batchSize batchSize_pos rows (fair_tail st0) st0 HI0) as HI.
  pose proof (exec_fair_tail rows st0 HI0) as Hp.
  destruct HI as [Hfit Hpool Hmem Hwg].
  split; [|split].
  - rewrite Hmem, Hp. apply progress_rows_finished.
    + apply (inv_fits _ _ _ HI0).
    + intros k g Hk. apply (inv_pool _ _ _ HI0 k g Hk).
  - rewrite Hwg, Hp. clear. induction (pool st0) as [|g l IH]; [reflexivity|].
    cbn [map]. rewrite filter_cons_False; [exact IH|]. cbn. discriminate.
  - rewrite Hp. apply Forall_fmap, Forall_true. reflexivity.
Qed.
End Sched.

Lemma time_Sub_mono t u t' u' :
  (t <= t')%Z -> (u' <= u)%Z -> (time_Sub t u <= time_Sub t' u')%Z.
Proof. unfold time_Sub. lia. Qed.

Section Run.
Context {Label : Type}.
Variable batchSize : nat.
Variable clock : nat -> Z.
Hypothesis batchSize_pos : 0 < batchSize.

Lemma length_run_rows rows : length (run_rows batchSize rows) = length rows.
Proof.
  unfold run_rows. rewrite length_app, length_map, length_take, length_drop.
  pose proof (batched_le batchSize batchSize_pos (length rows)). lia.
Qed.

Lemma RunProcessingTask_spec sched (labels : list Label) w :
  batched batchSize (length (heap w)) <= length labels ->
  RunProcessingTask batchSize clock sched labels w
  = Ok (time_Sub (clock (2 + ticks w)) (clock (1 + ticks w)),
        time_Sub (clock (3 + ticks w)) (clock (ticks w)),
        {| heap := run_rows batchSize (heap w); ticks := 4 + ticks w |}).
Proof.
  intros HL. unfold RunProcessingTask.
  rewrite make_batches_spec by assumption.
  cbn [mbind result_bind time_Now time_Since heap ticks].
  destruct (wg_Wait_spec batchSize batchSize_pos (heap w) sched) as (Hmem & _).
  cbn zeta in Hmem. rewrite Hmem. reflexivity.
Qed.

Lemma main_iteration_spec p (labels : list Label) w tot :
  batched batchSize (length (heap w)) <= length labels ->
  main_iteration batchSize clock p labels w tot
  = match p_cpu p with
    | Ok cpu =>
        let e := time_Sub (clock (2 + ticks w)) (clock (1 + ticks w)) in
        let o := time_Sub (clock (3 + ticks w)) (clock (ticks w)) in
        let m := uint64_sub (p_allocAfter p) (p_allocBefore p) in
        Ok ({| heap := run_rows batchSize (heap w); ticks := 6 + ticks w |},
            {| totalExecutionTime := int64_add (totalExecutionTime tot) e;
               totalConcurrencyOverhead := int64_add (totalConcurrencyOverhead tot) o;
               totalMemoryUsage := uint64_add (totalMemoryUsage tot) m;
               totalCPUUsage := float64_add (totalCPUUsage tot) cpu |},
            {| executionTime := e; concurrencyOverhead := o;
               memoryUsage := m; cpuUsage := cpu |})
    | _ => Fatal "Error calculating CPU usage"
    end.
Proof.
  intros HL. unfold main_iteration.
  rewrite RunProcessingTask_spec by assumption.
  cbn [mbind result_bind time_Now time_Since heap ticks].
  unfold calculateCPUUsage. destruct (p_cpu p); reflexivity.
Qed.

(** The rows after [count] iterations of the loop, and how many runs
    were recorded. *)
Lemma main_loop_rows (labels : list Label) env : forall count i w tot w' tot' ms,
  batched batchSize (length (heap w)) <= length labels ->
  main_loop batchSize clock count i env labels w tot = Ok (w', tot', ms) ->
  heap w' = Nat.iter count (run_rows batchSize) (heap w) /\ length ms = count.
Proof.
  induction count as [|count IH]; intros i w tot w' tot' ms HL Hrun.
  - cbn in Hrun. injection Hrun as <- <- <-. split; reflexivity.
  - cbn [main_loop] in Hrun.
    rewrite main_iteration_spec in Hrun by assumption.
    destruct (p_cpu (env i)) as [cpu | | |]; try discriminate.
    cbn [mbind result_bind] in Hrun.
    match type of Hrun with context [main_loop _ _ _ _ _ _ ?w1 ?t1] =>
      destruct (main_loop batchSize clock count (S i) env labels w1 t1)
        as [[[w2 tot2] ms2] | | |] eqn:Hrest; try discriminate;
      apply IH in Hrest as [Hh Hl]
    end.
    + cbn in Hrun. injection Hrun as <- <- <-.
      rewrite Hh. cbn [heap length]. rewrite Hl. split; [|reflexivity].
      rewrite Nat.iter_succ_r. reflexivity.
    + cbn [heap]. rewrite length_run_rows. assumption.
Qed.

(** The loop recovers from nothing but completes whenever every CPU
    probe answers. *)
Lemma main_loop_total (labels : list Label) env : forall count i w tot,
  batched batchSize (length (heap w)) <= length labels ->
  (forall j, i <= j < i + count -> exists cpu, p_cpu (env j) = Ok cpu) ->
  exists w' tot' ms,
    main_loop batchSize clock count i env labels w tot = Ok (w', tot', ms).
Proof.
  induction count as [|count IH]; intros i w tot HL Hcpu.
  - eexists _, _, _. reflexivity.
  - cbn [main_loop]. rewrite main_iteration_spec by assumption.
    destruct (Hcpu i ltac:(lia)) as [cpu ->]. cbn [mbind result_bind].
    match goal with |- context [main_loop _ _ _ _ _ _ ?w1 ?t1] =>
      destruct (IH (S i) w1 t1) as (w2 & tot2 & ms2 & ->)
    end.
    + cbn [heap]. rewrite length_run_rows. assumption.
    + intros j Hj. apply Hcpu. lia.
    + eexists _, _, _. reflexivity.
Qed.

Lemma main_loop_overhead (labels : list Label) env : forall count i w tot w' tot' ms,
  monotonic clock ->
  batched batchSize (length (heap w)) <= length labels ->
  main_loop batchSize clock count i env labels w tot = Ok (w', tot', ms) ->
  Forall (fun m => (executionTime m <= concurrencyOverhead m)%Z) ms.
Proof.
  induction count as [|count IH]; intros i w tot w' tot' ms Hmono HL Hrun.
  - cbn in Hrun. injection Hrun as <- <- <-. constructor.
  - cbn [main_loop] in Hrun.
    rewrite main_iteration_spec in Hrun by assumption.
    destruct (p_cpu (env i)) as [cpu | | |]; try discriminate.
    cbn [mbind result_bind] in Hrun.
    match type of Hrun with context [main_loop _ _ _ _ _ _ ?w1 ?t1] =>
      destruct (main_loop batchSize clock count (S i) env labels w1 t1)
        as [[[w2 tot2] ms2] | | |] eqn:Hrest; try discriminate;
      apply IH in Hrest
    end.
    + cbn in Hrun. injection Hrun as <- <- <-. constructor; [|assumption].
      cbn [executionTime concurrencyOverhead].
      apply time_Sub_mono; apply Hmono; lia.
    + assumption.
    + cbn [heap]. rewrite length_run_rows. assumption.
Qed.
End Run.

Lemma Simulate_as_double v : SimulateImageProcessing v = map F32.double v.
Proof. reflexivity. Qed.

Lemma iter_Simulate r v :
  Nat.iter r SimulateImageProcessing v = map (Nat.iter r F32.double) v.
Proof.
  induction r as [|r IH].
  - cbn. symmetry. apply map_id.
  - rewrite Nat.iter_succ, IH, Simulate_as_double, map_map. reflexivity.
Qed.

Lemma sum_units_double v c :
  Forall (fun x => F32.in_exact_range x = true) v ->
  F32.sum_units v = Some c ->
  F32.sum_units (map F32.double v) = Some (2 * c)%Z.
Proof.
  intros Hv. revert c. induction Hv as [|x v Hx Hv IH]; intros c Hc.
  - cbn in *. injection Hc as <-. reflexivity.
  - cbn [F32.sum_units map] in *.
    apply andb_prop in Hx as [Hval Hu].
    destruct (F32.units x) as [u|] eqn:Hux; [|discriminate].
    destruct (F32.sum_units v) as [s|]; [|discriminate].
    injection Hc as <-.
    rewrite (double_units x u Hval Hux) by (apply Z.ltb_lt; exact Hu).
    rewrite (IH s eq_refl). f_equal. lia.
Qed.

Lemma concat_Simulate rows :
  concat (map SimulateImageProcessing rows) = map F32.double (concat rows).
Proof.
  induction rows as [|row rows IH]; [reflexivity|].
  cbn [map concat]. rewrite map_app, IH. reflexivity.
Qed.

Lemma checksum_doubles rows c :
  Forall (Forall (fun x => F32.in_exact_range x = true)) rows ->
  F32.checksum rows = Some c ->
  F32.checksum (map SimulateImageProcessing rows) = Some (2 * c)%Z.
Proof.
  intros Hrows Hc. unfold F32.checksum in *. rewrite concat_Simulate.
  apply sum_units_double; [|exact Hc]. clear Hc.
  induction Hrows as [|row rows Hrow _ IH]; [constructor|].
  cbn [concat]. apply Forall_app. split; assumption.
Qed.

Section Rows.
Variable batchSize : nat.
Hypothesis batchSize_pos : 0 < batchSize.

Lemma spec_batches_lookup n k b :
  spec_batches batchSize n !! k = Some b ->
  b = batch_at batchSize k /\ k < n / batchSize.
Proof.
  unfold spec_batches. rewrite list_lookup_fmap. intros H.
  destruct (seq 0 (n / batchSize) !! k) as [k'|] eqn:Hs; [|discriminate].
  apply lookup_seq in Hs as [-> Hk]. injection H as <-. split; [reflexivity|lia].
Qed.

Lemma concat_windows {A} (l : list A) : forall count i,
  concat (map (fun k => view (window batchSize k) l) (seq i count))
  = take (count * batchSize) (drop (i * batchSize) l).
Proof.
  induction count as [|count IH]; intros i; [reflexivity|].
  cbn [seq map concat]. rewrite IH. unfold view, window. cbn [s_off s_len].
  replace (S i * batchSize) with (i * batchSize + batchSize) by lia.
  rewrite <- drop_drop, take_take_drop. f_equal.
Qed.

Lemma run_rows_lookup_batched rows j row :
  j < batched batchSize (length rows) -> rows !! j = Some row ->
  run_rows batchSize rows !! j = Some (SimulateImageProcessing row).
Proof.
  intros Hj Hrow. unfold run_rows.
  pose proof (batched_le batchSize batchSize_pos (length rows)).
  rewrite lookup_app_l by (rewrite length_map, length_take; lia).
  rewrite list_lookup_fmap, lookup_take_lt, Hrow by lia. reflexivity.
Qed.

Lemma run_rows_lookup_rest rows j :
  batched batchSize (length rows) <= j ->
  run_rows batchSize rows !! j = rows !! j.
Proof.
  intros Hj. unfold run_rows.
  pose proof (batched_le batchSize batchSize_pos (length rows)).
  rewrite lookup_app_r by (rewrite length_map, length_take; lia).
  rewrite length_map, length_take, lookup_drop, Nat.min_l by lia.
  f_equal. lia.
Qed.

Lemma iter_run_rows_length r rows :
  length (Nat.iter r (run_rows batchSize) rows) = length rows.
Proof.
  induction r as [|r IH]; [reflexivity|].
  rewrite Nat.iter_succ, length_run_rows by assumption. exact IH.
Qed.

Lemma iter_run_rows_batched r rows j row :
  j < batched batchSize (length rows) -> rows !! j = Some row ->
  Nat.iter r (run_rows batchSize) rows !! j
  = Some (Nat.iter r SimulateImageProcessing row).
Proof.
  intros Hj Hrow. induction r as [|r IH]; [exact Hrow|].
  rewrite !Nat.iter_succ.
  apply run_rows_lookup_batched; [|exact IH].
  rewrite iter_run_rows_length. exact Hj.
Qed.

Lemma iter_run_rows_rest r rows j :
  batched batchSize (length rows) <= j ->
  Nat.iter r (run_rows batchSize) rows !! j = rows !! j.
Proof.
  intros Hj. induction r as [|r IH]; [reflexivity|].
  rewrite Nat.iter_succ, run_rows_lookup_rest; [exact IH|].
  rewrite iter_run_rows_length. exact Hj.
Qed.

(** No step of any goroutine writes a row outside the batches. *)
Lemma exec_frame rows sched j :
  batched batchSize (length rows) <= j ->
  mem (exec sched (spawn (spec_batches batchSize (length rows)) rows)) !! j
  = rows !! j.
Proof.
  intros Hj.
  pose proof (goroutines_inv batchSize batchSize_pos rows sched _
                (spawn_inv batchSize batchSize_pos rows)) as [Hfit _ Hmem _].
  rewrite Hmem. unfold progress_rows. rewrite list_lookup_imap.
  rewrite (lookup_ge_None_2 (pool _)).
  - destruct (rows !! j); reflexivity.
  - rewrite Hfit. unfold batched in Hj. apply Nat.div_le_lower_bound; lia.
Qed.
End Rows.

End GoFacts.

(** ** Java: the bounded queue and its consumers *)

Module JavaFacts.

Import JavaCifar F32Facts.

Local Open Scope nat_scope.

Lemma alter_comm {A} (f : A -> A) i j (l : list A) :
  alter f i (alter f j l) = alter f j (alter f i l).
Proof.
  destruct (decide (i = j)) as [-> | Hne]; [reflexivity|].
  apply list_alter_alter_ne. exact Hne.
Qed.

Lemma alter_processBatch r b h :
  alter double_image r (processBatch b h)
  = processBatch b (alter double_image r h).
Proof.
  revert h. induction b as [|r' b IH]; intros h; [reflexivity|].
  unfold processBatch in *. cbn [fold_left]. rewrite IH, alter_comm. reflexivity.
Qed.

Lemma processBatch_cons r b h :
  processBatch (r :: b) h
  = processBatch b (alter double_image r h).
Proof. reflexivity. Qed.

Lemma processBatch_comm b1 b2 h :
  processBatch b1 (processBatch b2 h) = processBatch b2 (processBatch b1 h).
Proof.
  revert h. induction b1 as [|r b1 IH]; intros h; [reflexivity|].
  rewrite !processBatch_cons, alter_processBatch. apply IH.
Qed.

(** The order in which batches are processed does not matter. *)
Lemma process_all_perm l1 l2 :
  l1 ≡ₚ l2 -> forall h, process_all l1 h = process_all l2 h.
Proof.
  induction 1 as [|x l1 l2 _ IH|x y l|l1 l2 l3 _ IH1 _ IH2]; intros h.
  - reflexivity.
  - cbn. apply IH.
  - cbn. rewrite processBatch_comm. reflexivity.
  - rewrite IH1. apply IH2.
Qed.

Lemma process_all_snoc l b h :
  process_all (l ++ [b]) h = processBatch b (process_all l h).
Proof. unfold process_all. rewrite fold_left_app. reflexivity. Qed.

Lemma held_insert (cs : list Consumer) (c : nat) x y :
  cs !! c = Some y ->
  in_hand x ++ held cs ≡ₚ in_hand y ++ held (<[c := x]> cs).
Proof.
  revert c. induction cs as [|a cs IH]; intros [|c] Hc; try discriminate.
  - injection Hc as ->. cbn. solve_Permutation.
  - cbn in Hc. change (<[S c:=x]> (a :: cs)) with (a :: <[c:=x]> cs).
    cbn [held flat_map]. specialize (IH c Hc). unfold held in IH.
    rewrite !(Permutation_app_comm (in_hand a)), !app_assoc, IH. reflexivity.
Qed.

Lemma held_insert_idle (cs : list Consumer) (c : nat) x y :
  cs !! c = Some y -> in_hand x = [] -> in_hand y = [] ->
  held (<[c := x]> cs) ≡ₚ held cs.
Proof.
  intros Hc Hx Hy. pose proof (held_insert cs c x y Hc) as H.
  rewrite Hx, Hy in H. symmetry. exact H.
Qed.

Lemma exited_insert (cs : list Consumer) (c : nat) x :
  x <> Exited -> Exited ∈ <[c := x]> cs -> Exited ∈ cs.
Proof.
  intros Hx [i Hi]%list_elem_of_lookup.
  apply list_lookup_insert_Some in Hi as [(_ & E & _) | (_ & Hi)].
  - congruence.
  - eapply list_elem_of_lookup_2. exact Hi.
Qed.

Lemma held_all_exited cs :
  forallb (fun c => match c with Exited => true | _ => false end) cs = true ->
  held cs = [].
Proof.
  induction cs as [|c cs IH]; [reflexivity|]. cbn.
  destruct c; try discriminate. exact IH.
Qed.

Section Steps.
Variable allBatches : list Batch.
Variable h0 : list Vector.
Variable capacity : nat.

Lemma producer_step_inv st :
  Inv allBatches h0 st -> Inv allBatches h0 (producer_step capacity st).
Proof.
  intros [(processed & Hheap & Hperm) Hflag Hrun Hexit]. unfold producer_step.
  destruct (producer st) as [[|b rest] | unsent] eqn:Hp.
  - split; cbn [set_producer heap consumers queue producer isDoneProducing remaining].
    + exists processed. split; [exact Hheap | exact Hperm].
    + tauto.
    + right. reflexivity.
    + intros Hin. split; [reflexivity | apply (Hexit Hin)].
  - destruct (length (queue st) <? capacity).
    + split; cbn [set_producer heap consumers queue producer isDoneProducing remaining].
      * exists processed. split; [exact Hheap|].
        rewrite <- Hperm. cbn [remaining]. solve_Permutation.
      * split; [|discriminate]. intros E. apply Hflag in E. discriminate.
      * left. eexists. reflexivity.
      * intros Hin. destruct (Hexit Hin) as [E _]. apply Hflag in E. discriminate.
    + split; [exists processed; rewrite Hp; split; assumption | | |]; try assumption.
      * rewrite Hp. exact Hflag.
      * rewrite Hp. exact Hrun.
  - split; [exists processed; rewrite Hp; split; assumption | | |]; try assumption.
    + rewrite Hp. exact Hflag.
    + rewrite Hp. exact Hrun.
Qed.

Lemma consumer_step_inv c st :
  Inv allBatches h0 st -> Inv allBatches h0 (consumer_step c st).
Proof.
  intros HI. pose proof HI as [(processed & Hheap & Hperm) Hflag Hrun Hexit].
  unfold consumer_step.
  destruct (consumers st !! c) as [[| | b |]|] eqn:Hc; try exact HI.
  - destruct (negb (isDoneProducing st) || negb (bool_decide (queue st = [])))
      eqn:Hcond;
      split; cbn [set_consumer heap consumers queue producer isDoneProducing];
      try assumption.
    + exists processed. split; [exact Hheap|].
      rewrite (held_insert_idle _ _ Polling AtLoop Hc) by reflexivity. exact Hperm.
    + intros Hin. apply exited_insert in Hin; [auto | discriminate].
    + exists processed. split; [exact Hheap|].
      rewrite (held_insert_idle _ _ Exited AtLoop Hc) by reflexivity. exact Hperm.
    + intros _. apply orb_false_elim in Hcond as [H1 H2].
      apply negb_false_iff in H1, H2. apply bool_decide_eq_true in H2. auto.
  - destruct (queue st) as [|b q] eqn:Hq;
      split; cbn [set_consumer heap consumers queue producer isDoneProducing];
      try assumption.
    + exists processed. split; [exact Hheap|].
      rewrite (held_insert_idle _ _ AtLoop Polling Hc) by reflexivity. exact Hperm.
    + intros Hin. apply exited_insert in Hin; [|discriminate].
      destruct (Hexit Hin) as [E _]. auto.
    + exists processed. split; [exact Hheap|].
      rewrite <- Hperm.
      pose proof (held_insert _ _ (Holding b) Polling Hc) as Hh. cbn in Hh.
      rewrite <- Hh. solve_Permutation.
    + intros Hin. apply exited_insert in Hin; [|discriminate].
      destruct (Hexit Hin) as [_ E]. discriminate.
  - split; cbn [set_consumer heap consumers queue producer isDoneProducing];
      try assumption.
    + exists (processed ++ [b]). split.
      * rewrite process_all_snoc, Hheap. reflexivity.
      * rewrite <- Hperm.
        pose proof (held_insert _ _ AtLoop (Holding b) Hc) as Hh. cbn in Hh.
        rewrite Hh. solve_Permutation.
    + intros Hin. apply exited_insert in Hin; [auto | discriminate].
Qed.

Lemma threads_inv trace st :
  forallb (fun ev => negb (is_interrupt ev)) trace = true ->
  Inv allBatches h0 st -> Inv allBatches h0 (exec capacity trace st).
Proof.
  revert st. induction trace as [|ev trace IH]; intros st Hn HI; [exact HI|].
  cbn [forallb] in Hn. apply andb_prop in Hn as [Hev Hn].
  cbn [exec fold_left]. apply IH; [exact Hn|].
  destruct ev; try discriminate; cbn [step].
  - apply producer_step_inv, HI.
  - apply consumer_step_inv, HI.
Qed.

Lemma exec_consumers_length trace st :
  length (consumers (exec capacity trace st)) = length (consumers st).
Proof.
  revert st. induction trace as [|ev trace IH]; intros st; [reflexivity|].
  cbn [exec fold_left]. change (fold_left _ trace ?s) with (exec capacity trace s).
  rewrite IH. destruct ev as [| |c|c]; cbn [step].
  - unfold producer_step.
    destruct (producer st) as [[|b rest]|]; try reflexivity.
    destruct (_ <? _); reflexivity.
  - unfold producer_interrupt.
    destruct (producer st) as [[|b rest]|]; reflexivity.
  - unfold consumer_step.
    destruct (consumers st !! c) as [[| | b |]|]; try reflexivity.
    + destruct (_ || _); cbn; apply length_insert.
    + destruct (queue st); cbn; apply length_insert.
    + cbn. apply length_insert.
  - unfold consumer_interrupt.
    destruct (consumers st !! c) as [[| | b |]|]; try reflexivity.
    cbn. apply length_insert.
Qed.
End Steps.

Lemma held_idle n : flat_map in_hand (replicate n AtLoop) = [].
Proof. induction n as [|n IH]; [reflexivity | exact IH]. Qed.

Lemma start_inv allBatches h nConsumers :
  Inv allBatches h (spawn_consumers nConsumers (start allBatches h)).
Proof.
  split; cbn.
  - exists []. split; [reflexivity|]. rewrite held_idle. reflexivity.
  - split; discriminate.
  - left. eexists. reflexivity.
  - intros [i Hi]%list_elem_of_lookup.
    apply lookup_replicate in Hi as [Hi _]. discriminate.
Qed.

(** A run without interrupts in which every consumer has left its loop:
    every batch has been put, taken and processed, once. *)
Lemma processBatches_complete nConsumers capacity trace allBatches h st log :
  0 < nConsumers ->
  forallb (fun ev => negb (is_interrupt ev)) trace = true ->
  processBatches nConsumers capacity trace AllTerminated (start allBatches h)
    = Some (Returns (st, log)) ->
  heap st = process_all allBatches h /\ queue st = [] /\
  producer st = Finished [] /\ isDoneProducing st = true.
Proof.
  intros HW Hn Hrun. unfold processBatches in Hrun.
  change {| heap := _; producer := _; queue := _; isDoneProducing := _;
            consumers := replicate nConsumers AtLoop |}
    with (spawn_consumers nConsumers (start allBatches h)) in Hrun.
  set (st1 := exec capacity trace _) in Hrun.
  destruct (all_exited st1) eqn:Hall; [|discriminate].
  injection Hrun as <- <-.
  pose proof (threads_inv allBatches h capacity trace _ Hn
                (start_inv allBatches h nConsumers)) as HI.
  fold st1 in HI.
  destruct HI as [(processed & Hheap & Hperm) Hflag Hrun' Hexit].
  assert (Exited ∈ consumers st1) as Hin.
  { pose proof (exec_consumers_length capacity trace
                  (spawn_consumers nConsumers (start allBatches h))) as Hlen.
    fold st1 in Hlen. cbn in Hlen. rewrite length_replicate in Hlen.
    unfold all_exited in Hall.
    destruct (consumers st1) as [|c cs]; [cbn in Hlen; lia|].
    cbn in Hall. destruct c; try discriminate. left. }
  destruct (Hexit Hin) as [Hdone Hq].
  pose proof (proj1 Hflag Hdone) as Hp.
  rewrite Hq, Hp, (held_all_exited _ Hall) in Hperm. cbn in Hperm.
  rewrite app_nil_r in Hperm.
  rewrite Hheap. split; [apply process_all_perm; exact Hperm | auto].
Qed.

Lemma threads_exec_app capacity a b st :
  exec capacity (a ++ b) st = exec capacity b (exec capacity a st).
Proof. unfold exec. apply fold_left_app. Qed.

(** One round of the sequential trace: a put, and the first consumer's
    test, poll and call of [processBatch]. *)
Lemma sequential_round capacity h b rest cs :
  0 < capacity ->
  exec capacity [EProducer; EConsumer 0; EConsumer 0; EConsumer 0]
    {| heap := h; producer := Producing (b :: rest); queue := [];
       isDoneProducing := false; consumers := AtLoop :: cs |}
  = {| heap := processBatch b h; producer := Producing rest; queue := [];
       isDoneProducing := false; consumers := AtLoop :: cs |}.
Proof. intros Hc. destruct capacity; [lia|]. reflexivity. Qed.

Lemma sequential_rounds capacity cs : forall todo h,
  0 < capacity ->
  exec capacity
    (concat (replicate (length todo)
               [EProducer; EConsumer 0; EConsumer 0; EConsumer 0]))
    {| heap := h; producer := Producing todo; queue := [];
       isDoneProducing := false; consumers := AtLoop :: cs |}
  = {| heap := process_all todo h; producer := Producing []; queue := [];
       isDoneProducing := false; consumers := AtLoop :: cs |}.
Proof.
  induction todo as [|b todo IH]; intros h Hc; [reflexivity|].
  cbn [length replicate concat]. rewrite threads_exec_app, sequential_round by exact Hc.
  apply IH, Hc.
Qed.

Lemma sequential_exits capacity h : forall m k,
  exec capacity (map EConsumer (seq k m))
    {| heap := h; producer := Finished []; queue := [];
       isDoneProducing := true;
       consumers := replicate k Exited ++ replicate m AtLoop |}
  = {| heap := h; producer := Finished []; queue := [];
       isDoneProducing := true; consumers := replicate (k + m) Exited |}.
Proof.
  induction m as [|m IH]; intros k.
  - cbn. rewrite app_nil_r, Nat.add_0_r. reflexivity.
  - cbn [seq map exec fold_left step]. unfold consumer_step.
    cbn [consumers isDoneProducing queue heap].
    change (replicate (S m) AtLoop) with (AtLoop :: replicate m AtLoop).
    rewrite list_lookup_middle by (rewrite length_replicate; reflexivity).
    rewrite bool_decide_eq_true_2 by reflexivity.
    cbn [negb orb]. unfold set_consumer.
    cbn [consumers isDoneProducing queue heap producer].
    rewrite insert_app_r_alt by (rewrite length_replicate; lia).
    rewrite length_replicate, Nat.sub_diag.
    change (<[0:=Exited]> (AtLoop :: replicate m AtLoop))
      with (Exited :: replicate m AtLoop).
    rewrite cons_middle, app_assoc, <- replicate_S_end.
    change (fold_left _ ?t ?s) with (exec capacity t s).
    rewrite IH. do 2 f_equal. lia.
Qed.

(** The scheduler always has a way to the end: the sequential trace is an
    execution, whatever the batches. *)
Lemma processBatches_can_complete nConsumers capacity allBatches h :
  0 < nConsumers -> 0 < capacity ->
  processBatches nConsumers capacity
    (sequential_trace (length allBatches) nConsumers) AllTerminated
    (start allBatches h)
  = Some (Returns
      ({| heap := process_all allBatches h; producer := Finished [];
          queue := []; isDoneProducing := true;
          consumers := replicate nConsumers Exited |}, [])).
Proof.
  intros HW Hc. unfold processBatches, sequential_trace, spawn_consumers.
  cbn [start heap producer queue isDoneProducing].
  destruct nConsumers as [|n]; [lia|]. cbn [replicate].
  rewrite !threads_exec_app, sequential_rounds by exact Hc.
  change (exec capacity [EProducer] ?s) with (producer_step capacity s).
  unfold producer_step, set_producer.
  cbn [producer heap queue consumers isDoneProducing].
  pose proof (sequential_exits capacity (process_all allBatches h) (S n) 0) as He.
  cbn [replicate app Nat.add] in He. rewrite He.
  unfold all_exited. cbn [consumers].
  replace (forallb _ _) with true; [reflexivity|].
  symmetry. clear. cbn. induction n as [|n IH]; [reflexivity | exact IH].
Qed.

End JavaFacts.

(** ** The loaders *)

Module LoaderFacts.

Import F32Facts.

Local Open Scope nat_scope.

Lemma byte_value_range b : (0 <= F32.byte_value b < 256)%Z.
Proof.
  unfold F32.byte_value. pose proof (Byte.to_N_bounded b). lia.
Qed.

(** ** Go *)

Lemma convert_total imageData : forall count k,
  k + count <= length imageData ->
  exists v, Go.convert count k imageData = Go.Ok v /\
            length v = count /\ Forall F32.loaded v.
Proof.
  induction count as [|count IH]; intros k Hk.
  - exists []. repeat split. constructor.
  - cbn [Go.convert]. unfold Go.index.
    destruct (lookup_lt_is_Some_2 imageData k ltac:(lia)) as [b ->].
    cbn [mbind Go.result_bind].
    destruct (IH (S k) ltac:(lia)) as (v & -> & Hlen & Hv).
    cbn [mbind Go.result_bind]. eexists. split; [reflexivity|].
    split; [cbn; lia|]. constructor; [|exact Hv]. exists b. reflexivity.
Qed.

Lemma convert_loaded imageData : forall count k v,
  Go.convert count k imageData = Go.Ok v -> Forall F32.loaded v.
Proof.
  induction count as [|count IH]; intros k v H.
  - injection H as <-. constructor.
  - cbn [Go.convert] in H. unfold Go.index in H.
    destruct (imageData !! k) as [b|]; [|discriminate].
    cbn [mbind Go.result_bind] in H.
    destruct (Go.convert count (S k) imageData) as [rest| | |] eqn:Hr;
      try discriminate.
    injection H as <-. constructor; [exists b; reflexivity|].
    eapply IH. exact Hr.
Qed.

Lemma load_records_loaded data : forall count j acc acc',
  Go.well_loaded acc ->
  Go.load_records count j data acc = Go.Ok acc' -> Go.well_loaded acc'.
Proof.
  induction count as [|count IH]; intros j acc acc' Hacc H.
  - injection H as <-. exact Hacc.
  - cbn [Go.load_records] in H.
    destruct (Go.index data _) as [label| | |]; try discriminate.
    cbn [mbind Go.result_bind] in H.
    destruct (Go.subslice data _ _) as [imageData| | |]; try discriminate.
    cbn [mbind Go.result_bind] in H.
    destruct (Go.convert Go.imageSize 0 imageData) as [image| | |] eqn:Hc;
      try discriminate.
    cbn [mbind Go.result_bind] in H.
    eapply IH; [|exact H].
    destruct Hacc as [H1 H2]. split; cbn [fst snd].
    + apply Forall_app. split; [exact H1|].
      constructor; [|constructor]. eapply convert_loaded. exact Hc.
    + rewrite !length_app, H2. reflexivity.
Qed.

Lemma load_files_loaded fs : forall count i acc acc',
  Go.well_loaded acc ->
  Go.load_files count i fs acc = Go.Ok acc' -> Go.well_loaded acc'.
Proof.
  induction count as [|count IH]; intros i acc acc' Hacc H.
  - injection H as <-. exact Hacc.
  - cbn [Go.load_files] in H.
    destruct (fs i) as [data|]; [|discriminate].
    destruct (Go.load_records Go.numImagesPerBatch 0 data acc)
      as [acc1| | |] eqn:H1; try discriminate.
    cbn [mbind Go.result_bind] in H.
    eapply IH; [|exact H]. eapply load_records_loaded; eassumption.
Qed.

(** What [LoadCIFAR10] returns: pixels [float32(b) / 255.0], and as many
    labels as images. *)
Lemma LoadCIFAR10_loaded fs images labels :
  Go.LoadCIFAR10 fs = Go.Ok (images, labels) ->
  Forall (Forall F32.loaded) images /\ length labels = length images.
Proof.
  intros H. apply (load_files_loaded fs 5 1 ([], []) (images, labels)); [|exact H].
  split; [constructor | reflexivity].
Qed.

Lemma load_records_total data : forall count j acc,
  (j + count) * (Go.imageSize + 1) <= length data ->
  exists acc', Go.load_records count j data acc = Go.Ok acc'.
Proof.
  induction count as [|count IH]; intros j acc Hlen; [eexists; reflexivity|].
  cbn [Go.load_records]. unfold Go.index.
  destruct (lookup_lt_is_Some_2 data (j * (Go.imageSize + 1)) ltac:(lia))
    as [label ->].
  cbn [mbind Go.result_bind]. unfold Go.subslice.
  destruct (Nat.leb_spec (j * (Go.imageSize + 1) + 1) ((j + 1) * (Go.imageSize + 1)));
    [|lia].
  destruct (Nat.leb_spec ((j + 1) * (Go.imageSize + 1)) (length data)); [|lia].
  cbn [andb mbind Go.result_bind].
  match goal with |- context [Go.convert _ 0 ?d] =>
    destruct (convert_total d Go.imageSize 0) as (image & -> & _)
  end.
  { rewrite length_take, length_drop. lia. }
  cbn [mbind Go.result_bind]. apply IH; lia.
Qed.

Lemma numImagesPerBatch_pos : 0 < Go.numImagesPerBatch.
Proof. unfold Go.numImagesPerBatch. lia. Qed.

(** ** Java *)

Import JavaCifar.

Lemma read_pixels_total : forall count dis,
  count <= length dis ->
  exists image, read_pixels count dis = Returns (image, drop count dis) /\
                length image = count /\ Forall F32.loaded image.
Proof.
  induction count as [|count IH]; intros dis Hlen.
  - exists []. repeat split. constructor.
  - destruct dis as [|b dis]; [cbn in Hlen; lia|].
    cbn [read_pixels readByte mbind completion_bind].
    destruct (IH dis ltac:(cbn in Hlen; lia)) as (image & -> & Hl & Hf).
    cbn [mbind completion_bind]. eexists. split; [reflexivity|].
    split; [cbn; lia|]. constructor; [exists b; reflexivity | exact Hf].
Qed.

Lemma read_records_total : forall count dis allBatches,
  count * (1 + IMAGE_SIZE) <= length dis ->
  exists images,
    read_records count dis allBatches
      = Returns (allBatches ++ singleton_batches images) /\
    length images = count /\
    Forall (fun image => length image = IMAGE_SIZE /\ Forall F32.loaded image) images.
Proof.
  induction count as [|count IH]; intros dis allBatches Hlen.
  - exists []. cbn. rewrite app_nil_r. repeat split. constructor.
  - cbn [read_records].
    destruct (Nat.ltb_spec (length dis) (1 + IMAGE_SIZE)); [lia|].
    destruct dis as [|b dis]; [cbn in *; lia|].
    cbn [readByte mbind completion_bind].
    destruct (read_pixels_total IMAGE_SIZE dis ltac:(cbn [length] in *; lia))
      as (image & -> & Hl & Hf).
    cbn [mbind completion_bind].
    destruct (IH (drop IMAGE_SIZE dis) (allBatches ++ [[image]]))
      as (images & -> & Hn & Himgs).
    { rewrite length_drop. cbn [length] in Hlen. lia. }
    exists (image :: images). split; [|split].
    + cbn [singleton_batches map]. rewrite <- app_assoc. reflexivity.
    + cbn. lia.
    + constructor; [split; assumption | exact Himgs].
Qed.

Lemma NUM_IMAGES_PER_BATCH_pos : 0 < NUM_IMAGES_PER_BATCH.
Proof. unfold NUM_IMAGES_PER_BATCH. lia. Qed.

(** When the five files are large enough the loader returns, and what it
    returns is one batch of a single image per record. *)
Lemma read_files_total fs : forall count i allBatches,
  (forall i', i <= i' < i + count -> expected_size <= file_length (fs i')) ->
  exists images,
    read_files count i fs allBatches
      = Returns (allBatches ++ singleton_batches images) /\
    length images = count * NUM_IMAGES_PER_BATCH /\
    Forall (fun image => length image = IMAGE_SIZE /\ Forall F32.loaded image) images.
Proof.
  induction count as [|count IH]; intros i allBatches Hfs.
  - exists []. cbn. rewrite app_nil_r. repeat split. constructor.
  - cbn [read_files]. pose proof (Hfs i ltac:(lia)) as Hi.
    pose proof NUM_IMAGES_PER_BATCH_pos as Hpos.
    unfold expected_size, file_length in Hi.
    destruct (fs i) as [d|] eqn:Hd; [|nia].
    destruct (Z.ltb_spec (Z.of_nat (length d))
                (Z.of_nat NUM_IMAGES_PER_BATCH * (1 + Z.of_nat IMAGE_SIZE))); [nia|].
    destruct (read_records_total NUM_IMAGES_PER_BATCH d allBatches Hi)
      as (imgs1 & -> & Hn1 & H1).
    cbn [mbind completion_bind].
    destruct (IH (S i) (allBatches ++ singleton_batches imgs1))
      as (imgs2 & -> & Hn2 & H2).
    { intros i' Hi'. apply Hfs. lia. }
    exists (imgs1 ++ imgs2). split; [|split].
    + unfold singleton_batches. rewrite map_app, app_assoc. reflexivity.
    + rewrite length_app. lia.
    + apply Forall_app. split; assumption.
Qed.

(** A missing or undersized file makes the loader throw [IOException]. *)
Lemma read_files_short fs i0 : forall count i allBatches,
  i <= i0 < i + count ->
  file_length (fs i0) < expected_size ->
  exists msg, read_files count i fs allBatches = Throws (IOException msg).
Proof.
  induction count as [|count IH]; intros i allBatches Hi Hshort; [lia|].
  cbn [read_files].
  match goal with |- context [if ?c then _ else _] => destruct c eqn:Hlt end;
    [eexists; reflexivity|].
  apply Z.ltb_ge in Hlt.
  assert (expected_size <= file_length (fs i)) as Hfit.
  { unfold expected_size, file_length. destruct (fs i); nia. }
  destruct (decide (i = i0)) as [-> | Hne]; [lia|].
  destruct (fs i) as [d|] eqn:Hd.
  - destruct (read_records_total NUM_IMAGES_PER_BATCH d allBatches Hfit)
      as (imgs & -> & _).
    cbn [mbind completion_bind]. apply IH; [lia | assumption].
  - pose proof NUM_IMAGES_PER_BATCH_pos. unfold expected_size, file_length in Hfit. nia.
Qed.

End LoaderFacts.

(** ** Java: layout of the loaded batches, the flag, the clamped transform *)

Module JavaFacts2.

Import JavaCifar JavaFacts.

Local Open Scope nat_scope.

Lemma processBatch_seq (pre mid post : list Vector) :
  processBatch (seq (length pre) (length mid)) (pre ++ mid ++ post)
  = pre ++ map double_image mid ++ post.
Proof.
  revert pre. induction mid as [|x mid IH]; intros pre; [reflexivity|].
  cbn [length seq]. rewrite processBatch_cons.
  cbn [app]. rewrite alter_app_r_alt; [|apply Nat.le_refl]. rewrite Nat.sub_diag.
  change (alter ?f 0 (x :: ?l)) with (f x :: l).
  specialize (IH (pre ++ [double_image x])).
  rewrite length_app, Nat.add_1_r, <- !app_assoc in IH. exact IH.
Qed.

Lemma process_all_refs : forall (loaded : list (list Vector)) (pre : list Vector),
  process_all (refs_from (length pre) loaded) (pre ++ concat loaded)
  = pre ++ map double_image (concat loaded).
Proof.
  induction loaded as [|b loaded IH]; intros pre; [reflexivity|].
  cbn [refs_from concat process_all fold_left].
  rewrite processBatch_seq.
  specialize (IH (pre ++ map double_image b)).
  rewrite length_app, length_map, <- app_assoc in IH.
  etransitivity; [exact IH|]. rewrite map_app, app_assoc. reflexivity.
Qed.

(** With the layout the loader leaves, processing every batch once is
    transforming every vector once. *)
Lemma process_all_allocate (loaded : list (list Vector)) :
  process_all (allocate loaded).2 (allocate loaded).1
  = map double_image (concat loaded).
Proof. exact (process_all_refs loaded []). Qed.

(** The flag is [true] exactly when the producer is past its [finally],
    interrupts or not. *)
Lemma flag_iff_finished capacity trace st :
  (isDoneProducing st = true <-> exists unsent, producer st = Finished unsent) ->
  let st' := exec capacity trace st in
  isDoneProducing st' = true <-> exists unsent, producer st' = Finished unsent.
Proof.
  revert st. induction trace as [|ev trace IH]; intros st H; [exact H|].
  cbn [exec fold_left]. apply IH.
  destruct ev as [| |c|c]; cbn [step].
  - unfold producer_step. destruct (producer st) as [[|b rest]|unsent] eqn:Hp.
    + cbn. split; eauto.
    + destruct (_ <? _); [|rewrite Hp; exact H]. cbn.
      split; [intros E; apply H in E as [? E]; discriminate|].
      intros [? E]. discriminate.
    + rewrite Hp. exact H.
  - unfold producer_interrupt. destruct (producer st) as [[|b rest]|unsent] eqn:Hp;
      try (rewrite Hp; exact H).
    cbn. split; eauto.
  - unfold consumer_step.
    destruct (consumers st !! c) as [[| | b |]|]; try exact H.
    + destruct (_ || _); exact H.
    + destruct (queue st); exact H.
  - unfold consumer_interrupt.
    destruct (consumers st !! c) as [[| | b |]|]; exact H.
Qed.

Lemma double_channel_spec c :
  (0 <= c <= 255)%Z ->
  JavaTiny.double_channel c = if (c <=? 127)%Z then (2 * c)%Z else 255%Z.
Proof.
  intros Hc. unfold JavaTiny.double_channel.
  destruct (Z.leb_spec c 127); lia.
Qed.

Lemma land_shifted_small a c n :
  (0 <= n -> 0 <= c < 2 ^ n -> Z.land (a * 2 ^ n) c = 0)%Z.
Proof.
  intros Hn Hc. apply Z.bits_inj'. intros m Hm.
  rewrite Z.land_spec, Z.bits_0.
  destruct (Z.lt_ge_cases m n) as [Hlt | Hge].
  - rewrite Z.mul_pow2_bits_low by lia. reflexivity.
  - destruct (Z.eq_dec c 0%Z) as [-> | Hc0].
    + rewrite Z.bits_0. apply andb_false_r.
    + rewrite (Z.bits_above_log2 c m), andb_false_r; [reflexivity | lia |].
      apply Z.log2_lt_pow2; [lia|].
      apply Z.lt_le_trans with (2 ^ n)%Z; [lia|].
      apply Z.pow_le_mono_r; lia.
Qed.

(** The [int] of a pixel is the sum of its shifted channels. *)
Lemma rgb_of_sum r g b :
  (0 <= r <= 255 -> 0 <= g <= 255 -> 0 <= b <= 255 ->
   JavaTiny.rgb_of r g b = r * 65536 + g * 256 + b)%Z.
Proof.
  intros Hr Hg Hb. unfold JavaTiny.rgb_of.
  rewrite !Z.shiftl_mul_pow2 by lia.
  change (2 ^ 16)%Z with (256 * 2 ^ 8)%Z.
  assert (Z.lor (r * (256 * 2 ^ 8)) (g * 2 ^ 8) = (r * 256 + g) * 2 ^ 8)%Z as H1.
  { pose proof (Z.add_lor_land (r * (256 * 2 ^ 8))%Z (g * 2 ^ 8)%Z) as H.
    replace (r * (256 * 2 ^ 8))%Z with (r * 2 ^ 16)%Z in * by lia.
    rewrite (land_shifted_small r (g * 2 ^ 8)%Z 16%Z) in H by lia. lia. }
  rewrite H1.
  pose proof (Z.add_lor_land ((r * 256 + g) * 2 ^ 8)%Z b) as H.
  rewrite (land_shifted_small (r * 256 + g)%Z b 8%Z) in H by lia. lia.
Qed.

(** [processImage] doubles each channel of a pixel and clamps it at 255;
    the alpha byte [a] that [getRGB] puts on top plays no part. *)
Lemma processPixel_channels a r g b :
  (0 <= r <= 255 -> 0 <= g <= 255 -> 0 <= b <= 255 ->
   JavaTiny.processPixel (a * 2 ^ 24 + JavaTiny.rgb_of r g b)
   = JavaTiny.rgb_of (JavaTiny.double_channel r) (JavaTiny.double_channel g)
       (JavaTiny.double_channel b))%Z.
Proof.
  intros Hr Hg Hb. rewrite rgb_of_sum by assumption.
  unfold JavaTiny.processPixel.
  rewrite !Z.shiftr_div_pow2 by lia.
  change 255%Z with (Z.ones 8) at 1 2 3. rewrite !Z.land_ones by lia.
  change (2 ^ 24)%Z with 16777216%Z. change (2 ^ 16)%Z with 65536%Z.
  change (2 ^ 8)%Z with 256%Z.
  replace (((a * 16777216 + (r * 65536 + g * 256 + b)) / 65536) mod 256)%Z
    with r by (Z.to_euclidean_division_equations; lia).
  replace (((a * 16777216 + (r * 65536 + g * 256 + b)) / 256) mod 256)%Z
    with g by (Z.to_euclidean_division_equations; lia).
  replace ((a * 16777216 + (r * 65536 + g * 256 + b)) mod 256)%Z
    with b by (Z.to_euclidean_division_equations; lia).
  reflexivity.
Qed.

End JavaFacts2.

(** ** Java: the queue under any trace, interrupts included *)

Module JavaQueueFacts.

Import JavaCifar JavaFacts JavaQueue.

Local Open Scope nat_scope.

Section Steps.
Variable allBatches : list Batch.
Variable h0 : list Vector.
Variable capacity : nat.

Lemma producer_step_conserved st :
  conserved allBatches h0 st ->
  conserved allBatches h0 (producer_step capacity st).
Proof.
  intros (processed & Hheap & Hperm). unfold producer_step.
  destruct (producer st) as [[|b rest] | unsent] eqn:Hp.
  - exists processed. cbn [set_producer heap consumers queue producer remaining].
    split; [exact Hheap | exact Hperm].
  - destruct (length (queue st) <? capacity).
    + exists processed.
      cbn [set_producer heap consumers queue producer remaining].
      split; [exact Hheap|]. rewrite <- Hperm. cbn [remaining]. solve_Permutation.
    + exists processed. rewrite Hp. split; assumption.
  - exists processed. rewrite Hp. split; assumption.
Qed.

Lemma producer_interrupt_conserved st :
  conserved allBatches h0 st ->
  conserved allBatches h0 (producer_interrupt st).
Proof.
  intros (processed & Hheap & Hperm). unfold producer_interrupt.
  destruct (producer st) as [[|b rest] | unsent] eqn:Hp;
    exists processed; rewrite ?Hp; split; assumption.
Qed.

Lemma consumer_step_conserved c st :
  conserved allBatches h0 st ->
  conserved allBatches h0 (consumer_step c st).
Proof.
  intros HI. pose proof HI as (processed & Hheap & Hperm).
  unfold consumer_step.
  destruct (consumers st !! c) as [[| | b |]|] eqn:Hc; try exact HI.
  - destruct (negb (isDoneProducing st) || negb (bool_decide (queue st = [])));
      exists processed;
      cbn [set_consumer heap consumers queue producer isDoneProducing];
      (split; [exact Hheap|]).
    + rewrite (held_insert_idle _ _ Polling AtLoop Hc) by reflexivity. exact Hperm.
    + rewrite (held_insert_idle _ _ Exited AtLoop Hc) by reflexivity. exact Hperm.
  - destruct (queue st) as [|b q] eqn:Hq; exists processed;
      cbn [set_consumer heap consumers queue producer isDoneProducing];
      (split; [exact Hheap|]).
    + rewrite (held_insert_idle _ _ AtLoop Polling Hc) by reflexivity. exact Hperm.
    + rewrite <- Hperm.
      pose proof (held_insert _ _ (Holding b) Polling Hc) as Hh. cbn in Hh.
      rewrite <- Hh. solve_Permutation.
  - exists (processed ++ [b]).
    cbn [set_consumer heap consumers queue producer isDoneProducing]. split.
    + rewrite process_all_snoc, Hheap. reflexivity.
    + rewrite <- Hperm.
      pose proof (held_insert _ _ AtLoop (Holding b) Hc) as Hh. cbn in Hh.
      rewrite Hh. solve_Permutation.
Qed.

Lemma consumer_interrupt_conserved c st :
  conserved allBatches h0 st ->
  conserved allBatches h0 (consumer_interrupt c st).
Proof.
  intros HI. pose proof HI as (processed & Hheap & Hperm).
  unfold consumer_interrupt.
  destruct (consumers st !! c) as [[| | b |]|] eqn:Hc; try exact HI.
  exists processed.
  cbn [set_consumer heap consumers queue producer isDoneProducing].
  split; [exact Hheap|].
  rewrite (held_insert_idle _ _ Exited Polling Hc) by reflexivity. exact Hperm.
Qed.

Lemma exec_conserved trace st :
  conserved allBatches h0 st ->
  conserved allBatches h0 (exec capacity trace st).
Proof.
  revert st. induction trace as [|ev trace IH]; intros st HI; [exact HI|].
  cbn [exec fold_left]. apply IH. destruct ev; cbn [step].
  - apply producer_step_conserved, HI.
  - apply producer_interrupt_conserved, HI.
  - apply consumer_step_conserved, HI.
  - apply consumer_interrupt_conserved, HI.
Qed.

(** The queue is bounded. *)
Lemma step_bounded ev st :
  length (queue st) <= capacity ->
  length (queue (step capacity ev st)) <= capacity.
Proof.
  intros H. destruct ev as [| |c|c]; cbn [step].
  - unfold producer_step.
    destruct (producer st) as [[|b rest] | unsent]; try exact H.
    destruct (Nat.ltb_spec (length (queue st)) capacity); [|exact H].
    cbn [set_producer queue]. rewrite length_app. cbn [length]. lia.
  - unfold producer_interrupt.
    destruct (producer st) as [[|b rest] | unsent]; exact H.
  - unfold consumer_step.
    destruct (consumers st !! c) as [[| | b |]|]; try exact H.
    + destruct (_ || _); exact H.
    + destruct (queue st) as [|b q]; cbn [set_consumer queue length] in *; lia.
  - unfold consumer_interrupt.
    destruct (consumers st !! c) as [[| | b |]|]; exact H.
Qed.

Lemma exec_bounded trace st :
  length (queue st) <= capacity ->
  length (queue (exec capacity trace st)) <= capacity.
Proof.
  revert st. induction trace as [|ev trace IH]; intros st H; [exact H|].
  cbn [exec fold_left]. apply IH, step_bounded, H.
Qed.

(** Unless [queue.put] is interrupted, the flag is set only when the
    producer has put every batch. *)
Lemma step_flag_sent ev st :
  ev <> EInterruptProducer ->
  (isDoneProducing st = true -> producer st = Finished []) ->
  isDoneProducing (step capacity ev st) = true ->
  producer (step capacity ev st) = Finished [].
Proof.
  intros Hev HI. destruct ev as [| |c|c]; cbn [step]; [|congruence| |].
  - unfold producer_step.
    destruct (producer st) as [[|b rest] | unsent] eqn:Hp.
    + reflexivity.
    + destruct (length (queue st) <? capacity).
      * cbn [set_producer isDoneProducing producer]. intros E.
        apply HI in E. discriminate.
      * rewrite Hp. intros E. apply HI in E. discriminate.
    + rewrite Hp. exact HI.
  - unfold consumer_step.
    destruct (consumers st !! c) as [[| | b |]|]; try exact HI.
    + destruct (_ || _); exact HI.
    + destruct (queue st); exact HI.
  - unfold consumer_interrupt.
    destruct (consumers st !! c) as [[| | b |]|]; exact HI.
Qed.

Lemma exec_flag_sent trace : forall st,
  producer_undisturbed trace = true ->
  (isDoneProducing st = true -> producer st = Finished []) ->
  isDoneProducing (exec capacity trace st) = true ->
  producer (exec capacity trace st) = Finished [].
Proof.
  induction trace as [|ev trace IH]; intros st Hq HI; [exact HI|].
  cbn [producer_undisturbed forallb] in Hq. apply andb_prop in Hq as [Hev Hq].
  cbn [exec fold_left]. apply IH; [exact Hq|].
  apply step_flag_sent; [|exact HI]. intros ->. discriminate.
Qed.

End Steps.

Lemma initial_conserved nConsumers allBatches h :
  conserved allBatches h (initial nConsumers allBatches h).
Proof.
  exists []. split; [reflexivity|]. cbn.
  unfold held. rewrite held_idle. cbn. reflexivity.
Qed.

(** A batch enqueued [k] times is processed [k] times. *)
Lemma process_all_replicate (b : Batch) (h : list Vector) : forall k,
  process_all (replicate k b) h = Nat.iter k (processBatch b) h.
Proof.
  induction k as [|k IH]; [reflexivity|].
  rewrite replicate_S_end, process_all_snoc, IH. reflexivity.
Qed.

Lemma processBatch_singleton r (h : list Vector) :
  processBatch [r] h = alter double_image r h.
Proof. reflexivity. Qed.

Lemma iter_alter {A} (f : A -> A) r (h : list A) : forall k,
  Nat.iter k (alter f r) h = alter (Nat.iter k f) r h.
Proof.
  induction k as [|k IH].
  - cbn. symmetry. apply list_alter_id. reflexivity.
  - change (Nat.iter (S k) (alter f r) h) with (alter f r (Nat.iter k (alter f r) h)).
    rewrite IH, list_alter_alter_eq. reflexivity.
Qed.

End JavaQueueFacts.

(** ** Java Tiny-ImageNet: the producer and the repeated transform *)

Module JavaTinyFacts.

Import JavaTiny JavaTinyWalk JavaFacts2.

Lemma walk_spec : forall entries done,
  walk entries done = done ++ flat_map visit entries.
Proof.
  induction entries as [|e entries IH]; intros done.
  - cbn. rewrite app_nil_r. reflexivity.
  - destruct e as [|img [|]|]; cbn [walk flat_map visit];
      rewrite IH, <- ?app_assoc; reflexivity.
Qed.

Lemma produceImages_spec w :
  produceImages w
  = (flat_map visit (visited w)
       ++ (if walk_throws w
           then [Log "Error walking dataset directory"%string] else []))
    ++ [SetFlag].
Proof.
  unfold produceImages. rewrite walk_spec, app_nil_l.
  destruct (walk_throws w); [reflexivity|]. rewrite app_nil_r. reflexivity.
Qed.

Lemma enqueued_visits entries :
  enqueued (flat_map visit entries) = put_images entries.
Proof.
  induction entries as [|e entries IH]; [reflexivity|].
  cbn [flat_map]. unfold enqueued in *. rewrite flat_map_app, IH.
  destruct e as [|img [|]|]; reflexivity.
Qed.

Lemma logged_visits entries :
  logged (flat_map visit entries)
  = replicate (failures entries) "Error processing image"%string.
Proof.
  induction entries as [|e entries IH]; [reflexivity|].
  cbn [flat_map]. unfold logged in *. rewrite flat_map_app, IH.
  destruct e as [|img [|]|]; reflexivity.
Qed.

Lemma SetFlag_not_visited entries : SetFlag ∉ flat_map visit entries.
Proof.
  induction entries as [|e entries IH]; [apply not_elem_of_nil|].
  cbn [flat_map]. rewrite elem_of_app. intros [H | H]; [|exact (IH H)].
  destruct e as [|img [|]|]; cbn in H.
  - apply elem_of_nil in H. exact H.
  - apply list_elem_of_singleton in H. discriminate.
  - apply list_elem_of_singleton in H. discriminate.
  - apply list_elem_of_singleton in H. discriminate.
Qed.

Local Open Scope Z_scope.

Lemma double_channel_range c :
  0 <= c <= 255 -> 0 <= double_channel c <= 255.
Proof. unfold double_channel. lia. Qed.

(** [k] applications multiply a channel by [2^k], up to 255. *)
Lemma iter_double_channel c : forall k : nat,
  0 <= c <= 255 ->
  Nat.iter k double_channel c = Z.min (2 ^ Z.of_nat k * c) 255.
Proof.
  induction k as [|k IH]; intros Hc.
  - cbn. lia.
  - change (Nat.iter (S k) double_channel c)
      with (double_channel (Nat.iter k double_channel c)).
    rewrite IH by exact Hc. rewrite Nat2Z.inj_succ, Z.pow_succ_r by lia.
    assert (0 < 2 ^ Z.of_nat k) by (apply Z.pow_pos_nonneg; lia).
    unfold double_channel. nia.
Qed.

Lemma iter_double_channel_range c k :
  0 <= c <= 255 -> 0 <= Nat.iter k double_channel c <= 255.
Proof.
  intros Hc. rewrite iter_double_channel by exact Hc.
  assert (0 < 2 ^ Z.of_nat k) by (apply Z.pow_pos_nonneg; lia). nia.
Qed.

Lemma rgb_of_range r g b :
  0 <= r <= 255 -> 0 <= g <= 255 -> 0 <= b <= 255 ->
  0 <= rgb_of r g b < 2 ^ 24.
Proof.
  intros Hr Hg Hb. rewrite rgb_of_sum by assumption.
  change (2 ^ 24) with 16777216. lia.
Qed.

(** [k] applications of the body of [processImage] to a pixel. *)
Lemma iter_processPixel a r g b : forall k : nat,
  0 <= r <= 255 -> 0 <= g <= 255 -> 0 <= b <= 255 ->
  Nat.iter (S k) processPixel (a * 2 ^ 24 + rgb_of r g b)
  = rgb_of (Nat.iter (S k) double_channel r) (Nat.iter (S k) double_channel g)
      (Nat.iter (S k) double_channel b).
Proof.
  induction k as [|k IH]; intros Hr Hg Hb.
  - apply processPixel_channels; assumption.
  - change (Nat.iter (S (S k)) processPixel ?x)
      with (processPixel (Nat.iter (S k) processPixel x)).
    rewrite IH by assumption.
    change (Nat.iter (S (S k)) double_channel ?x)
      with (double_channel (Nat.iter (S k) double_channel x)).
    rewrite <- (Z.add_0_l (rgb_of _ _ _)).
    change 0 with (0 * 2 ^ 24) at 1.
    apply processPixel_channels; apply iter_double_channel_range; assumption.
Qed.

Lemma saturates c (k : nat) :
  0 <= c <= 255 -> (8 <= k)%nat ->
  Nat.iter k double_channel c = saturated c.
Proof.
  intros Hc Hk. rewrite iter_double_channel by exact Hc. unfold saturated.
  destruct (Z.eqb_spec c 0) as [-> | Hne]; [lia|].
  assert (2 ^ 8 <= 2 ^ Z.of_nat k) by (apply Z.pow_le_mono_r; lia).
  change (2 ^ 8) with 256 in *. nia.
Qed.

End JavaTinyFacts.

(** ** The properties of the specification *)

Module Properties.

Import F32Facts GoFacts JavaFacts JavaFacts2 LoaderFacts.
Import JavaQueueFacts JavaTinyFacts.

Local Open Scope nat_scope.

(** *** Batcher *)

(** C2, as amended.  Go: for a positive [batchSize] and as many labels as
    images, "divide into batches" succeeds; it yields
    [floor(N / batchSize)] batches; batch [k] holds exactly the [batchSize]
    images and the [batchSize] labels from position [k * batchSize] on, in
    dataset order; the batches laid end to end are the first
    [floor(N / batchSize) * batchSize] images; and no batch covers a row of
    the remainder.  Java: [BATCH_SIZE] plays no part; when the five files
    are large enough the loader returns one batch of a single image per
    record, [5 * NUM_IMAGES_PER_BATCH] batches in all, and drops nothing. *)
Theorem batcher_partition :
  (forall (Label : Type) (batchSize : nat) (images : list Go.Vector)
          (labels : list Label),
      0 < batchSize -> length labels = length images ->
      exists batches,
        Go.make_batches batchSize (length images) (length labels)
          = Go.Ok batches /\
        length batches = length images / batchSize /\
        (forall k b, batches !! k = Some b ->
           Go.view (Go.Images b) images
             = take batchSize (drop (k * batchSize) images) /\
           length (Go.view (Go.Images b) images) = batchSize /\
           Go.view (Go.Labels b) labels
             = take batchSize (drop (k * batchSize) labels) /\
           length (Go.view (Go.Labels b) labels) = batchSize) /\
        concat (map (fun b => Go.view (Go.Images b) images) batches)
          = take (Go.batched batchSize (length images)) images /\
        (forall j b, Go.batched batchSize (length images) <= j ->
           b ∈ batches ->
           Go.covers (Go.Images b) j = false /\
           Go.covers (Go.Labels b) j = false))
  /\
  (forall fs : nat -> option (list Byte.byte),
      (forall i, 1 <= i <= 5 ->
         JavaCifar.expected_size <= JavaCifar.file_length (fs i)) ->
      exists images,
        JavaCifar.loadCifar10Dataset fs
          = JavaCifar.Returns (JavaCifar.singleton_batches images) /\
        length images = 5 * JavaCifar.NUM_IMAGES_PER_BATCH /\
        Forall (fun b => length b = 1) (JavaCifar.singleton_batches images)).
Proof.
  split.
  - intros Label batchSize images labels Hpos Hlen.
    pose proof (batched_le batchSize Hpos (length images)) as Hb.
    exists (Go.spec_batches batchSize (length images)).
    split; [apply make_batches_spec; [exact Hpos | lia]|].
    split; [unfold Go.spec_batches; rewrite length_map, length_seq; reflexivity|].
    split; [|split].
    + intros k b Hk. apply (spec_batches_lookup batchSize Hpos) in Hk as [-> Hk].
      assert ((k + 1) * batchSize <= length images) as Hfit.
      { unfold Go.batched in Hb. nia. }
      unfold Go.view, Go.batch_at, Go.window; cbn.
      repeat split; try reflexivity;
        rewrite length_take, length_drop; lia.
    + unfold Go.spec_batches. rewrite map_map.
      change (fun x => Go.view (Go.Images (Go.batch_at batchSize x)) images)
        with (fun k => Go.view (Go.window batchSize k) images).
      rewrite (concat_windows batchSize Hpos images (length images / batchSize) 0).
      reflexivity.
    + intros j b Hj Hin. apply list_elem_of_lookup in Hin as [k Hk].
      apply (spec_batches_lookup batchSize Hpos) in Hk as [-> Hk].
      unfold Go.covers, Go.batch_at, Go.window, Go.batched in *.
      cbn [Go.s_off Go.s_len Go.Images Go.Labels].
      assert (k * batchSize + batchSize <= j) by nia.
      destruct (Nat.ltb_spec j (k * batchSize + batchSize)); [lia|].
      rewrite andb_false_r. split; reflexivity.
  - intros fs Hfs.
    destruct (read_files_total fs 5 1 []) as (images & Hload & Hn & _).
    { intros i Hi. apply Hfs. lia. }
    exists images. split; [exact Hload|]. split; [exact Hn|].
    unfold JavaCifar.singleton_batches. apply Forall_fmap, Forall_true.
    reflexivity.
Qed.

(** The hypotheses of [batcher_partition] on a dataset of five images with
    [batchSize = 2], and on five data files of zeros. *)
Lemma batcher_partition_witness :
  (exists batches,
     Go.make_batches 2 5 5 = Go.Ok batches /\ length batches = 2) /\
  (exists images,
     JavaCifar.loadCifar10Dataset Fixtures.zero_files
       = JavaCifar.Returns (JavaCifar.singleton_batches images)).
Proof.
  split.
  - destruct (proj1 batcher_partition Z 2 (Fixtures.all_ones 5)
                Fixtures.five_labels ltac:(lia) eq_refl)
      as (batches & H1 & H2 & _).
    exists batches. split; [exact H1 | exact H2].
  - destruct (proj2 batcher_partition Fixtures.zero_files)
      as (images & H1 & _).
    + intros i _. unfold JavaCifar.file_length, Fixtures.zero_files, JavaCifar.zero_file.
      rewrite length_replicate. apply Nat.le_refl.
    + exists images. exact H1.
Defined.

(** C2 as stated fails on the Java loader: on five data files of the
    expected size it returns [5 * NUM_IMAGES_PER_BATCH] batches, not that
    number divided by [BATCH_SIZE], and every batch holds one image, not
    [BATCH_SIZE]. *)
Lemma java_batches_are_single_images :
  exists batches,
    JavaCifar.loadCifar10Dataset Fixtures.zero_files
      = JavaCifar.Returns batches /\
    length batches = 5 * JavaCifar.NUM_IMAGES_PER_BATCH /\
    length batches
      <> 5 * JavaCifar.NUM_IMAGES_PER_BATCH / JavaCifar.BATCH_SIZE /\
    batches <> [] /\
    Forall (fun b => length b = 1 /\ length b <> JavaCifar.BATCH_SIZE) batches.
Proof.
  destruct (read_files_total Fixtures.zero_files 5 1 [])
    as (images & Hload & Hn & _).
  { intros i _. unfold JavaCifar.file_length, Fixtures.zero_files, JavaCifar.zero_file.
    rewrite length_replicate. apply Nat.le_refl. }
  pose proof NUM_IMAGES_PER_BATCH_pos as Hpos.
  exists (JavaCifar.singleton_batches images).
  split; [exact Hload|].
  assert (length (JavaCifar.singleton_batches images)
          = 5 * JavaCifar.NUM_IMAGES_PER_BATCH) as Hlen.
  { unfold JavaCifar.singleton_batches. rewrite length_map. exact Hn. }
  split; [exact Hlen|]. split; [|split].
  - rewrite Hlen.
    assert (5 * JavaCifar.NUM_IMAGES_PER_BATCH / JavaCifar.BATCH_SIZE
            < 5 * JavaCifar.NUM_IMAGES_PER_BATCH); [|lia].
    apply Nat.div_lt; [lia | unfold JavaCifar.BATCH_SIZE; lia].
  - intros E. rewrite E in Hlen. cbn in Hlen. lia.
  - unfold JavaCifar.singleton_batches. apply Forall_fmap, Forall_true.
    intros image. cbn. split; [reflexivity | discriminate].
Qed.

(** *** Transform *)

(** C3, as amended.  The Go transform and the Java CIFAR transform replace
    every element by its binary32 product with 2; for a finite element
    whose double is in range that product is exact, so one application
    gives exactly twice the value and two applications exactly four times.
    The Java Tiny-ImageNet transform replaces every 8-bit channel [c] of a
    pixel by [min(2c, 255)]: twice [c] only up to 127, and at most 255
    after any number of applications. *)
Theorem transform_doubles :
  (forall v : list F32.f32,
     Go.SimulateImageProcessing v = map F32.double v /\
     JavaCifar.double_image v = map F32.double v) /\
  (forall x u,
     F32.valid x = true -> F32.units x = Some u ->
     (Z.abs u < F32.half_range)%Z ->
     F32.units (F32.double x) = Some (2 * u)%Z) /\
  (forall x u,
     F32.valid x = true -> F32.units x = Some u ->
     (2 * Z.abs u < F32.half_range)%Z ->
     F32.units (F32.double (F32.double x)) = Some (4 * u)%Z) /\
  (forall a r g b,
     (0 <= r <= 255)%Z -> (0 <= g <= 255)%Z -> (0 <= b <= 255)%Z ->
     JavaTiny.processPixel (a * 2 ^ 24 + JavaTiny.rgb_of r g b)%Z
     = JavaTiny.rgb_of (Z.min (r * 2) 255) (Z.min (g * 2) 255)
         (Z.min (b * 2) 255)) /\
  (forall c,
     (0 <= c <= 255)%Z ->
     (JavaTiny.double_channel c = 2 * c <-> c <= 127)%Z /\
     JavaTiny.double_channel (JavaTiny.double_channel c) = Z.min (4 * c) 255).
Proof.
  split; [intros v; split; reflexivity|].
  split; [intros x u; apply double_units|].
  split.
  - intros x u Hv Hu Hrange.
    rewrite (double_units (F32.double x) (2 * u)%Z).
    + f_equal. lia.
    + apply double_valid. exact Hv.
    + apply double_units; [exact Hv | exact Hu | lia].
    + rewrite Z.abs_mul. change (Z.abs 2) with 2%Z. exact Hrange.
  - split.
    + intros a r g b Hr Hg Hb. apply processPixel_channels; assumption.
    + intros c Hc. unfold JavaTiny.double_channel. split; lia.
Qed.

(** The hypotheses of [transform_doubles] at the value 1.0 and at the
    channel 100. *)
Lemma transform_doubles_witness :
  F32.units (F32.double F32.one) = Some (2 * 2 ^ 149)%Z /\
  F32.units (F32.double (F32.double F32.one)) = Some (4 * 2 ^ 149)%Z /\
  JavaTiny.processPixel (JavaTiny.rgb_of 100 100 100)
  = JavaTiny.rgb_of 200 200 200.
Proof.
  destruct transform_doubles as (_ & H1 & H2 & H3 & _).
  split; [|split].
  - apply (H1 F32.one (2 ^ 149)%Z); [reflexivity | reflexivity |].
    vm_compute. reflexivity.
  - apply (H2 F32.one (2 ^ 149)%Z); [reflexivity | reflexivity |].
    vm_compute. reflexivity.
  - exact (H3 0%Z 100%Z 100%Z 100%Z ltac:(lia) ltac:(lia) ltac:(lia)).
Defined.

(** C3 as stated fails: the Java Tiny-ImageNet transform clamps, so that a
    channel at 200 becomes 255 and not 400, and a channel at 100 becomes
    255 after two applications and not 400; and binary32 itself leaves the
    reals at the top of its range, where the largest finite value doubles
    to infinity. *)
Lemma transform_clamps_and_overflows :
  JavaTiny.processPixel (JavaTiny.rgb_of 200 200 200)
    = JavaTiny.rgb_of 255 255 255 /\
  JavaTiny.double_channel 200 = 255%Z /\
  JavaTiny.double_channel 200 <> (2 * 200)%Z /\
  JavaTiny.double_channel (JavaTiny.double_channel 100) = 255%Z /\
  JavaTiny.double_channel (JavaTiny.double_channel 100) <> (4 * 100)%Z /\
  F32.valid F32.max_float = true /\
  F32.double F32.max_float = S754_infinity false /\
  F32.units (F32.double F32.max_float) = None.
Proof. repeat split; vm_compute; congruence. Qed.

(** *** Metrics *)

(** C4.  With a clock that never goes back, the overhead returned by
    [RunProcessingTask] is at least the execution time it returns, and so
    is it for every run recorded by the loop of [main]: the overhead
    window is opened first and closed last. *)
Theorem overhead_covers_execution (Label : Type) (batchSize : nat)
    (clock : nat -> Z) (env : nat -> Go.Probe) (labels : list Label) :
  Go.monotonic clock ->
  (forall sched w e o w',
     Go.RunProcessingTask batchSize clock sched labels w = Go.Ok (e, o, w') ->
     (e <= o)%Z) /\
  (forall count i w tot w' tot' ms,
     Go.main_loop batchSize clock count i env labels w tot
       = Go.Ok (w', tot', ms) ->
     Forall (fun m => (Go.executionTime m <= Go.concurrencyOverhead m)%Z) ms).
Proof.
  intros Hmono.
  assert (forall sched w e o w',
     Go.RunProcessingTask batchSize clock sched labels w = Go.Ok (e, o, w') ->
     (e <= o)%Z) as Hrun.
  { intros sched w e o w' H. unfold Go.RunProcessingTask in H.
    destruct (Go.make_batches _ _ _) as [batches| | |]; try discriminate.
    cbn [mbind Go.result_bind Go.time_Now Go.time_Since Go.heap Go.ticks] in H.
    injection H as <- <- _.
    apply time_Sub_mono; apply Hmono; lia. }
  split; [exact Hrun|].
  induction count as [|count IH]; intros i w tot w' tot' ms H.
  - cbn in H. injection H as <- <- <-. constructor.
  - cbn [Go.main_loop] in H. unfold Go.main_iteration in H.
    destruct (Go.RunProcessingTask _ _ _ _ _) as [[[e o] w1]| | |] eqn:H1;
      try discriminate.
    cbn [mbind Go.result_bind Go.time_Now Go.time_Since] in H.
    destruct (Go.calculateCPUUsage _ _) as [cpu| | |]; try discriminate.
    cbn [mbind Go.result_bind] in H.
    match type of H with context [Go.main_loop _ _ _ _ _ _ ?w2 ?t2] =>
      destruct (Go.main_loop batchSize clock count (S i) env labels w2 t2)
        as [[[w3 tot3] ms3]| | |] eqn:H2; try discriminate
    end.
    cbn in H. injection H as <- <- <-.
    constructor; [cbn; eapply Hrun; exact H1 | eapply IH; exact H2].
Qed.

(** The hypotheses of [overhead_covers_execution] on a clock that ticks
    once per reading: a run over five images in batches of two. *)
Lemma overhead_covers_execution_witness :
  Go.monotonic Fixtures.ticking /\
  Go.RunProcessingTask 2 Fixtures.ticking [1; 0] Fixtures.five_labels
    (Fixtures.fresh (Fixtures.all_ones 5))
  = Go.Ok (1%Z, 3%Z,
           {| Go.heap := Fixtures.all_twos 4 ++ Fixtures.all_ones 1;
              Go.ticks := 4 |}) /\
  (1 <= 3)%Z.
Proof.
  assert (Go.monotonic Fixtures.ticking) as Hmono.
  { intros a b Hab. unfold Fixtures.ticking. lia. }
  assert (Go.RunProcessingTask 2 Fixtures.ticking [1; 0] Fixtures.five_labels
            (Fixtures.fresh (Fixtures.all_ones 5))
          = Go.Ok (1%Z, 3%Z,
                   {| Go.heap := Fixtures.all_twos 4 ++ Fixtures.all_ones 1;
                      Go.ticks := 4 |})) as Hrun
    by (vm_compute; reflexivity).
  split; [exact Hmono|]. split; [exact Hrun|].
  exact (proj1 (overhead_covers_execution Z 2 Fixtures.ticking
                  (fun _ => Fixtures.calm) Fixtures.five_labels Hmono)
           _ _ _ _ _ Hrun).
Defined.

(** *** The remainder and the repeated runs *)

(** C9.  Whatever the size of the dataset, after any number of iterations
    of the loop of [main] the rows past the last full batch are what they
    were; no batch covers them; no step of any goroutine, under any
    schedule, writes them; and the rows that are in batches have been
    transformed once per run. *)
Theorem remainder_never_mutated (Label : Type) (batchSize : nat)
    (clock : nat -> Z) (env : nat -> Go.Probe) (labels : list Label)
    (count i : nat) (w w' : Go.World) (tot tot' : Go.Totals)
    (ms : list Go.RunMetrics) (j : nat) :
  0 < batchSize ->
  Go.batched batchSize (length (Go.heap w)) <= length labels ->
  Go.main_loop batchSize clock count i env labels w tot = Go.Ok (w', tot', ms) ->
  Go.batched batchSize (length (Go.heap w)) <= j ->
  Go.heap w' !! j = Go.heap w !! j /\
  (forall b, b ∈ Go.spec_batches batchSize (length (Go.heap w)) ->
     Go.covers (Go.Images b) j = false) /\
  (forall sched,
     Go.mem (Go.exec sched
               (Go.spawn (Go.spec_batches batchSize (length (Go.heap w)))
                  (Go.heap w))) !! j = Go.heap w !! j) /\
  (forall j' row, j' < Go.batched batchSize (length (Go.heap w)) ->
     Go.heap w !! j' = Some row ->
     Go.heap w' !! j' = Some (Nat.iter count Go.SimulateImageProcessing row)).
Proof.
  intros Hpos HL Hrun Hj.
  destruct (main_loop_rows batchSize clock Hpos labels env count i w tot w' tot' ms
              HL Hrun) as [Hheap _].
  split; [|split; [|split]].
  - rewrite Hheap. apply iter_run_rows_rest; assumption.
  - intros b [k Hk]%list_elem_of_lookup.
    apply (spec_batches_lookup batchSize Hpos) in Hk as [-> Hk].
    unfold Go.covers, Go.batch_at, Go.window, Go.batched in *.
    cbn [Go.s_off Go.s_len Go.Images].
    assert (k * batchSize + batchSize <= j) by nia.
    destruct (Nat.ltb_spec j (k * batchSize + batchSize)); [lia|].
    apply andb_false_r.
  - intros sched. apply exec_frame; assumption.
  - intros j' row Hj' Hrow. rewrite Hheap.
    apply iter_run_rows_batched; assumption.
Qed.

(** The hypotheses of [remainder_never_mutated] on five images in batches
    of two, run twice: the fifth image is left as it was. *)
Lemma remainder_never_mutated_witness :
  exists w' tot' ms,
    Go.main_loop 2 Fixtures.ticking 2 0 (fun _ => Fixtures.calm)
      Fixtures.five_labels (Fixtures.fresh (Fixtures.all_ones 5))
      Go.zero_totals = Go.Ok (w', tot', ms) /\
    Go.heap w' !! 4 = Some [F32.one].
Proof.
  destruct (Go.main_loop 2 Fixtures.ticking 2 0 (fun _ => Fixtures.calm)
              Fixtures.five_labels (Fixtures.fresh (Fixtures.all_ones 5))
              Go.zero_totals) as [[[w' tot'] ms]| | |] eqn:Hrun;
    try (vm_compute in Hrun; discriminate).
  exists w', tot', ms. split; [reflexivity|].
  refine (proj1 (remainder_never_mutated Z 2 Fixtures.ticking
                   (fun _ => Fixtures.calm) Fixtures.five_labels 2 0
                   (Fixtures.fresh (Fixtures.all_ones 5)) w' Go.zero_totals
                   tot' ms 4 _ _ Hrun _)).
  - lia.
  - vm_compute. lia.
  - vm_compute. lia.
Defined.

(** The scenario of the specification: 5050 vectors in batches of 500 give
    ten batches, and the rows from 5000 on are in none. *)
Example remainder_of_5050 :
  let n := Z.to_nat 5050 in
  Go.make_batches Go.batchSize_const n n
    = Go.Ok (Go.spec_batches Go.batchSize_const n) /\
  length (Go.spec_batches Go.batchSize_const n) = 10 /\
  Go.batched Go.batchSize_const n = Z.to_nat 5000.
Proof. vm_compute. repeat split. Qed.

(** C10.  The batches alias the dataset and nothing resets it, so the runs
    compound: after [r <= numRuns] iterations of the loop of [main] on a
    loaded dataset, a row that lies in a batch holds, element by element,
    the [r]-fold double of what was loaded, whose value is exactly [2^r]
    times the loaded value; and [r] doublings turn 1.0 into 2.0 only for
    [r = 1]. *)
Theorem runs_compound (Label : Type) (batchSize : nat) (clock : nat -> Z)
    (env : nat -> Go.Probe) (labels : list Label) (r i : nat)
    (w w' : Go.World) (tot tot' : Go.Totals) (ms : list Go.RunMetrics)
    (j p : nat) (row : Go.Vector) (x : F32.f32) :
  0 < batchSize ->
  Go.batched batchSize (length (Go.heap w)) <= length labels ->
  r <= Go.numRuns ->
  Forall (Forall F32.loaded) (Go.heap w) ->
  Go.main_loop batchSize clock r i env labels w tot = Go.Ok (w', tot', ms) ->
  j < Go.batched batchSize (length (Go.heap w)) ->
  Go.heap w !! j = Some row -> row !! p = Some x ->
  exists u,
    F32.units x = Some u /\
    Go.heap w' !! j = Some (map (Nat.iter r F32.double) row) /\
    F32.units (Nat.iter r F32.double x) = Some (2 ^ Z.of_nat r * u)%Z /\
    (Nat.iter r F32.double F32.one = F32.two <-> r = 1).
Proof.
  intros Hpos HL Hr Hloaded Hrun Hj Hrow Hx.
  destruct (main_loop_rows batchSize clock Hpos labels env r i w tot w' tot' ms
              HL Hrun) as [Hheap _].
  assert (2 ^ Z.of_nat r <= 2 ^ 100)%Z as Hpow.
  { apply Z.pow_le_mono_r; unfold Go.numRuns in Hr; lia. }
  assert (0 < 2 ^ Z.of_nat r)%Z as Hpos2 by (apply Z.pow_pos_nonneg; lia).
  assert (forall y v, F32.valid y = true -> F32.units y = Some v ->
            (0 <= v <= 2 ^ 149)%Z ->
            F32.units (Nat.iter r F32.double y) = Some (2 ^ Z.of_nat r * v)%Z)
    as Hiter.
  { intros y v Hv Hu Hrange.
    apply (iter_double_units r y v Hv Hu).
    unfold F32.half_range. rewrite Z.abs_eq by lia.
    transitivity (2 ^ 149 * 2 ^ 100)%Z; [nia | vm_compute; discriminate]. }
  assert (F32.loaded x) as [b ->].
  { rewrite Forall_lookup in Hloaded. specialize (Hloaded j row Hrow).
    rewrite Forall_lookup in Hloaded. exact (Hloaded p x Hx). }
  destruct (pixel_range (F32.byte_value b) (byte_value_range b))
    as (Hv & u & Hu & Hrange).
  exists u. split; [exact Hu|]. split; [|split].
  - rewrite Hheap, <- iter_Simulate.
    apply iter_run_rows_batched; assumption.
  - apply Hiter; assumption.
  - split.
    + intros E.
      pose proof (Hiter F32.one (2 ^ 149)%Z eq_refl eq_refl ltac:(lia)) as H1.
      assert (F32.units F32.two = Some (2 * 2 ^ 149)%Z) as H2
        by (vm_compute; reflexivity).
      rewrite E, H2 in H1. injection H1 as H1.
      assert (0 < 2 ^ 149)%Z as Hbig by (apply Z.pow_pos_nonneg; lia).
      revert H1. generalize (2 ^ 149)%Z Hbig. intros P HP H1.
      destruct r as [|[|r']]; [|reflexivity|]; exfalso.
      * change (2 ^ Z.of_nat 0)%Z with 1%Z in H1. lia.
      * rewrite !Nat2Z.inj_succ, !Z.pow_succ_r in H1 by lia.
        assert (0 < 2 ^ Z.of_nat r')%Z by (apply Z.pow_pos_nonneg; lia). nia.
    + intros ->. reflexivity.
Qed.

(** The hypotheses of [runs_compound] on five loaded images of one white
    pixel in batches of two, run twice: the pixel of the second image holds
    four times the loaded value. *)
Lemma runs_compound_witness :
  exists w' tot' ms,
    Go.main_loop 2 Fixtures.ticking 2 0 (fun _ => Fixtures.calm)
      Fixtures.five_labels (Fixtures.fresh (Fixtures.all_ones 5))
      Go.zero_totals = Go.Ok (w', tot', ms) /\
    Go.heap w' !! 1 = Some [F32.of_Z 4] /\
    F32.units (F32.of_Z 4) = Some (2 ^ 2 * 2 ^ 149)%Z.
Proof.
  destruct (Go.main_loop 2 Fixtures.ticking 2 0 (fun _ => Fixtures.calm)
              Fixtures.five_labels (Fixtures.fresh (Fixtures.all_ones 5))
              Go.zero_totals) as [[[w' tot'] ms]| | |] eqn:Hrun;
    try (vm_compute in Hrun; discriminate).
  exists w', tot', ms. split; [reflexivity|].
  destruct (runs_compound Z 2 Fixtures.ticking (fun _ => Fixtures.calm)
              Fixtures.five_labels 2 0 (Fixtures.fresh (Fixtures.all_ones 5))
              w' Go.zero_totals tot' ms 1 0 [F32.one] F32.one)
    as (u & Hu & Hheap & Hunits & _).
  - lia.
  - vm_compute. lia.
  - unfold Go.numRuns. lia.
  - repeat constructor; exists Byte.xff; vm_compute; reflexivity.
  - exact Hrun.
  - vm_compute. lia.
  - reflexivity.
  - reflexivity.
  - split; [exact Hheap|]. vm_compute in Hu. injection Hu as <-. exact Hunits.
Defined.

(** *** Scheduler *)

(** X30.  Go: whatever the order in which the runtime resumes
    the goroutines, [RunProcessingTask] returns, every row that lies in a
    batch has then been transformed exactly once, the dataset keeps its
    length, and, when the batched values are finite with doubles in range,
    the exact sum of the batched elements after the run is twice the sum
    before.  Java: when no queue operation is interrupted and
    [awaitTermination] ends because every consumer has returned, every
    vector of every loaded batch has been transformed exactly once, nothing
    is left in the queue or with the producer, and the same checksum
    relation holds. *)
Theorem exactly_once_per_run :
  (forall (Label : Type) (batchSize : nat) (clock : nat -> Z)
          (sched : list nat) (labels : list Label) (w : Go.World),
      0 < batchSize ->
      Go.batched batchSize (length (Go.heap w)) <= length labels ->
      exists e o w',
        Go.RunProcessingTask batchSize clock sched labels w = Go.Ok (e, o, w') /\
        (forall j row, j < Go.batched batchSize (length (Go.heap w)) ->
           Go.heap w !! j = Some row ->
           Go.heap w' !! j = Some (Go.SimulateImageProcessing row)) /\
        length (Go.heap w') = length (Go.heap w) /\
        (forall c,
           let n := Go.batched batchSize (length (Go.heap w)) in
           Forall (Forall (fun x => F32.in_exact_range x = true))
             (take n (Go.heap w)) ->
           F32.checksum (take n (Go.heap w)) = Some c ->
           F32.checksum (take n (Go.heap w')) = Some (2 * c)%Z))
  /\
  (forall (nConsumers capacity : nat) (trace : list JavaCifar.Event)
          (loaded : list (list JavaCifar.Vector)) (st : JavaCifar.State)
          (out : list string),
      0 < nConsumers ->
      JavaCifar.undisturbed trace = true ->
      JavaCifar.processBatches nConsumers capacity trace
        JavaCifar.AllTerminated
        (JavaCifar.start (JavaCifar.allocate loaded).2
           (JavaCifar.allocate loaded).1)
      = Some (JavaCifar.Returns (st, out)) ->
      JavaCifar.heap st = map JavaCifar.double_image (concat loaded) /\
      JavaCifar.queue st = [] /\
      JavaCifar.producer st = JavaCifar.Finished [] /\
      (forall c,
         Forall (Forall (fun x => F32.in_exact_range x = true))
           (concat loaded) ->
         F32.checksum (concat loaded) = Some c ->
         F32.checksum (JavaCifar.heap st) = Some (2 * c)%Z)).
Proof.
  split.
  - intros Label batchSize clock sched labels w Hpos HL.
    eexists _, _, _. split; [apply RunProcessingTask_spec; assumption|].
    cbn [Go.heap].
    pose proof (batched_le batchSize Hpos (length (Go.heap w))) as Hb.
    split; [|split].
    + intros j row Hj Hrow. apply run_rows_lookup_batched; assumption.
    + apply length_run_rows. exact Hpos.
    + intros c. cbn zeta. intros Hrange Hc. unfold Go.run_rows.
      rewrite take_app_length' by (rewrite length_map, length_take; lia).
      apply checksum_doubles; assumption.
  - intros nConsumers capacity trace loaded st out HW Hquiet Hrun.
    destruct (processBatches_complete nConsumers capacity trace _ _ st out
                HW Hquiet Hrun) as (Hheap & Hq & Hp & _).
    rewrite process_all_allocate in Hheap.
    split; [exact Hheap|]. split; [exact Hq|]. split; [exact Hp|].
    intros c Hrange Hc. rewrite Hheap.
    apply (checksum_doubles (concat loaded) c Hrange Hc).
Qed.

(** The hypotheses of [exactly_once_per_run]: five images in batches of
    two under a schedule that resumes the second goroutine first, and two
    Java batches handled by two consumers under the sequential trace. *)
Lemma exactly_once_per_run_witness :
  (exists e o w',
     Go.RunProcessingTask 2 Fixtures.ticking [1; 0; 1] Fixtures.five_labels
       (Fixtures.fresh (Fixtures.all_ones 5)) = Go.Ok (e, o, w') /\
     Go.heap w' !! 3 = Some [F32.two]) /\
  (exists st,
     JavaCifar.processBatches 2 JavaCifar.QUEUE_CAPACITY
       (JavaCifar.sequential_trace 2 2) JavaCifar.AllTerminated
       (JavaCifar.start (JavaCifar.allocate Fixtures.two_batches).2
          (JavaCifar.allocate Fixtures.two_batches).1)
     = Some (JavaCifar.Returns (st, [])) /\
     JavaCifar.heap st = [[F32.two]; [F32.two]]).
Proof.
  split.
  - destruct (proj1 exactly_once_per_run Z 2 Fixtures.ticking [1; 0; 1]
                Fixtures.five_labels (Fixtures.fresh (Fixtures.all_ones 5)))
      as (e & o & w' & Hrun & Hrows & _).
    + lia.
    + vm_compute. lia.
    + exists e, o, w'. split; [exact Hrun|].
      apply (Hrows 3 [F32.one]); [vm_compute; lia | reflexivity].
  - destruct (JavaCifar.processBatches 2 JavaCifar.QUEUE_CAPACITY
                (JavaCifar.sequential_trace 2 2) JavaCifar.AllTerminated
                (JavaCifar.start (JavaCifar.allocate Fixtures.two_batches).2
                   (JavaCifar.allocate Fixtures.two_batches).1))
      as [[[st out]|]|] eqn:Hrun; try (vm_compute in Hrun; discriminate).
    assert (out = []) as ->.
    { vm_compute in Hrun. injection Hrun as _ <-. reflexivity. }
    exists st. split; [reflexivity|].
    apply (proj2 exactly_once_per_run 2 JavaCifar.QUEUE_CAPACITY
             (JavaCifar.sequential_trace 2 2) Fixtures.two_batches st []);
      [lia | reflexivity | exact Hrun].
Defined.

(** C1: the code at the failing input.  The Java scheduler with one
    consumer and the two loaded batches: the ten minutes of
    [awaitTermination] pass while the consumer holds the first batch and
    the producer has not put the second.  [processBatches] returns
    normally with both vectors as they were, the checksum unchanged
    instead of doubled; [main] waits for the producer, which puts its
    last batch and ends, and records the run, the vectors still
    untransformed. *)
Lemma timed_out_run_skips_vectors :
  (exists st,
     JavaCifar.processBatches 1 JavaCifar.QUEUE_CAPACITY
       [JavaCifar.EProducer; JavaCifar.EConsumer 0; JavaCifar.EConsumer 0]
       JavaCifar.TimedOut
       (JavaCifar.start (JavaCifar.allocate Fixtures.two_batches).2
          (JavaCifar.allocate Fixtures.two_batches).1)
     = Some (JavaCifar.Returns (st, [])) /\
     JavaCifar.heap st = [[F32.one]; [F32.one]] /\
     JavaCifar.heap st
       <> map JavaCifar.double_image (concat Fixtures.two_batches) /\
     JavaCifar.held (JavaCifar.consumers st) = [[0]] /\
     JavaCifar.remaining (JavaCifar.producer st) = [[1]] /\
     F32.checksum (concat Fixtures.two_batches) = Some (2 ^ 150)%Z /\
     F32.checksum (JavaCifar.heap st) = Some (2 ^ 150)%Z) /\
  (exists w' tot' m,
     JavaMain.main_iteration 1 JavaCifar.QUEUE_CAPACITY Fixtures.ticking
       (JavaCifar.allocate Fixtures.two_batches).2 Samples.timed_out_probe
       Samples.java_fresh JavaMain.zero_totals
     = Some (w', tot', m) /\
     JavaMain.arrays w' = [[F32.one]; [F32.one]] /\
     JavaMain.elapsedTime m = 1%Z /\
     JavaMain.totalExecutionTime tot' = 1%Z).
Proof.
  split.
  - eexists. split; [vm_compute; reflexivity|].
    cbn [JavaCifar.heap JavaCifar.producer JavaCifar.consumers].
    repeat split; try (vm_compute; reflexivity). vm_compute. discriminate.
  - eexists _, _, _. split; [vm_compute; reflexivity|].
    repeat split.
Qed.

(** C8.  In Strategy A the flag is [true] exactly when the producer is
    past its [finally], at every moment of every execution; and in every
    execution in which [queue.put] is not interrupted, whatever the
    consumers do, the flag is [true] only when the producer has left its
    loop normally, after the last batch has been put: every batch is
    then in the queue, in the hands of a consumer, or processed.  The
    Tiny-ImageNet producer sets its flag once, as the last thing it does,
    after every [put] of the walk. *)
Theorem flag_set_when_producer_ends (nConsumers capacity : nat)
    (trace : list JavaCifar.Event) (allBatches : list JavaCifar.Batch)
    (h : list JavaCifar.Vector) :
  let st := JavaCifar.exec capacity trace
              (JavaCifar.spawn_consumers nConsumers
                 (JavaCifar.start allBatches h)) in
  (JavaCifar.isDoneProducing st = true <->
   exists unsent, JavaCifar.producer st = JavaCifar.Finished unsent) /\
  (JavaQueue.producer_undisturbed trace = true ->
   JavaCifar.isDoneProducing st = true ->
   JavaCifar.producer st = JavaCifar.Finished [] /\
   exists processed,
     JavaCifar.heap st = JavaCifar.process_all processed h /\
     processed ++ JavaCifar.held (JavaCifar.consumers st) ++ JavaCifar.queue st
       ≡ₚ allBatches) /\
  (forall w : JavaTiny.Walked,
     exists before,
       JavaTiny.produceImages w = before ++ [JavaTiny.SetFlag] /\
       (JavaTiny.SetFlag ∉ before) /\
       JavaTinyWalk.enqueued before
         = JavaTinyWalk.put_images (JavaTiny.visited w)).
Proof.
  cbn zeta. split; [|split].
  - apply flag_iff_finished. cbn. split; [discriminate|].
    intros [unsent E]. discriminate.
  - intros Hquiet Hdone.
    assert (JavaCifar.producer
              (JavaCifar.exec capacity trace
                 (JavaCifar.spawn_consumers nConsumers
                    (JavaCifar.start allBatches h)))
            = JavaCifar.Finished []) as Hp.
    { apply (exec_flag_sent capacity trace _ Hquiet); [|exact Hdone].
      cbn. discriminate. }
    split; [exact Hp|].
    destruct (exec_conserved allBatches h capacity trace _
                (initial_conserved nConsumers allBatches h))
      as (processed & Hheap & Hperm).
    exists processed. split; [exact Hheap|].
    unfold JavaQueue.initial in Hperm. rewrite Hp in Hperm.
    cbn [JavaCifar.remaining] in Hperm. rewrite app_nil_r in Hperm.
    exact Hperm.
  - intros w. rewrite produceImages_spec. eexists. split; [reflexivity|].
    split.
    + rewrite elem_of_app. intros [H | H].
      * exact (SetFlag_not_visited _ H).
      * destruct (JavaTiny.walk_throws w).
        -- apply list_elem_of_singleton in H. discriminate.
        -- apply elem_of_nil in H. exact H.
    + unfold JavaTinyWalk.enqueued. rewrite flat_map_app.
      fold (JavaTinyWalk.enqueued (flat_map JavaTinyWalk.visit (JavaTiny.visited w))).
      rewrite enqueued_visits.
      destruct (JavaTiny.walk_throws w); cbn; rewrite app_nil_r; reflexivity.
Qed.

(** The hypotheses of [flag_set_when_producer_ends]: two batches, the
    first taken by the consumer before the second is put; when the flag
    is set the first is in the hands of the consumer and the second in
    the queue. *)
Lemma flag_set_when_producer_ends_witness :
  let trace := [JavaCifar.EProducer; JavaCifar.EConsumer 0;
                JavaCifar.EConsumer 0; JavaCifar.EProducer;
                JavaCifar.EProducer] in
  let st := JavaCifar.exec JavaCifar.QUEUE_CAPACITY trace
              (JavaCifar.spawn_consumers 1
                 (JavaCifar.start [[0]; [1]] [[F32.one]; [F32.one]])) in
  JavaQueue.producer_undisturbed trace = true /\
  JavaCifar.isDoneProducing st = true /\
  JavaCifar.held (JavaCifar.consumers st) = [[0]] /\
  JavaCifar.queue st = [[1]] /\
  JavaCifar.producer st = JavaCifar.Finished [].
Proof.
  cbn zeta. split; [reflexivity|]. split; [reflexivity|].
  split; [reflexivity|]. split; [reflexivity|].
  exact (proj1 (proj1 (proj2 (flag_set_when_producer_ends 1
                                JavaCifar.QUEUE_CAPACITY
                                [JavaCifar.EProducer; JavaCifar.EConsumer 0;
                                 JavaCifar.EConsumer 0; JavaCifar.EProducer;
                                 JavaCifar.EProducer]
                                [[0]; [1]] [[F32.one]; [F32.one]]))
                  eq_refl eq_refl)).
Defined.

(** C5: the code at the failing input.  Whatever the threads have done
    when the ten minutes pass, [processBatches] returns normally and prints
    nothing, as it does when the pool has drained; with one consumer
    holding the first batch and the second not yet put, it returns with
    both vectors untransformed.  The Tiny-ImageNet variant logs its
    "failed to terminate in time" line on an interrupt, never on the
    timeout. *)
Lemma termination_timeout_is_dropped :
  (forall nConsumers capacity trace st,
     JavaCifar.processBatches nConsumers capacity trace JavaCifar.TimedOut st
     = Some (JavaCifar.Returns
               (JavaCifar.exec capacity trace
                  (JavaCifar.spawn_consumers nConsumers st), []))) /\
  (let st := JavaCifar.exec JavaCifar.QUEUE_CAPACITY
               [JavaCifar.EProducer; JavaCifar.EConsumer 0; JavaCifar.EConsumer 0]
               (JavaCifar.spawn_consumers 1
                  (JavaCifar.start (JavaCifar.allocate Fixtures.two_batches).2
                     (JavaCifar.allocate Fixtures.two_batches).1)) in
   JavaCifar.consumers st = [JavaCifar.Holding [0]] /\
   JavaCifar.producer st = JavaCifar.Producing [[1]] /\
   JavaCifar.heap st = [[F32.one]; [F32.one]]) /\
  JavaTiny.await_and_log JavaCifar.TimedOut = JavaCifar.Returns [] /\
  JavaTiny.await_and_log JavaCifar.TimedOut
    = JavaTiny.await_and_log JavaCifar.AllTerminated /\
  JavaTiny.await_and_log JavaCifar.WaitInterrupted
    = JavaCifar.Returns ["Consumer threads failed to terminate in time."%string].
Proof. cbn zeta. repeat split. Qed.

(** *** Loader *)

(** C6: the code at the failing input.  On a data directory whose files
    are empty the Go loader panics at the first index expression, and so
    does [main]; it returns an error only when a file cannot be read.  On
    the same inputs the Java loader throws [IOException]. *)
Lemma go_loader_panics_on_short_file :
  Go.LoadCIFAR10 Fixtures.empty_files = Go.Panic "index out of range" /\
  Go.main Fixtures.ticking Fixtures.empty_files (fun _ => Fixtures.calm)
    = Go.Panic "index out of range" /\
  Go.LoadCIFAR10 Fixtures.no_files = Go.Err "failed to read file" /\
  JavaCifar.loadCifar10Dataset Fixtures.empty_files
    = JavaCifar.Throws (JavaCifar.IOException "File is smaller than expected") /\
  JavaCifar.loadCifar10Dataset Fixtures.no_files
    = JavaCifar.Throws (JavaCifar.IOException "File is smaller than expected").
Proof. repeat split; vm_compute; reflexivity. Qed.

(** *** Memory *)

(** C7: the code at the failing input.  With [Alloc] at 2000 bytes before
    the run and 1000 after, the Go loop records [2^64 - 1000] as the
    memory usage of the run and adds it to the total; the Java loop
    records [-1000]. *)
Lemma go_memory_delta_wraps :
  Go.uint64_sub 1000 2000 = (2 ^ 64 - 1000)%Z /\
  (exists w' tot' m,
     Go.main_iteration 2 Fixtures.ticking Fixtures.shrinking
       Fixtures.five_labels (Fixtures.fresh (Fixtures.all_ones 5))
       Go.zero_totals = Go.Ok (w', tot', m) /\
     Go.memoryUsage m = 18446744073709550616%Z /\
     Go.totalMemoryUsage tot' = 18446744073709550616%Z) /\
  JavaCifar.memoryUsage 2000 1000 = (-1000)%Z.
Proof.
  split; [reflexivity|]. split; [|reflexivity].
  eexists _, _, _. split; [vm_compute; reflexivity|]. split; reflexivity.
Qed.

(** What the two subtractions give in general. *)
Lemma memory_delta_by_language (before after : Z) :
  (0 <= before < 2 ^ 63 -> 0 <= after < 2 ^ 63 ->
   JavaCifar.memoryUsage before after = after - before /\
   Go.uint64_sub after before
   = if after <? before then after - before + 2 ^ 64 else after - before)%Z.
Proof.
  intros Hb Ha. unfold JavaCifar.memoryUsage, JavaCifar.long_wrap, Go.uint64_sub.
  change (2 ^ 63)%Z with 9223372036854775808%Z in *.
  change (2 ^ 64)%Z with 18446744073709551616%Z.
  split.
  - Z.to_euclidean_division_equations. lia.
  - destruct (Z.ltb_spec after before); Z.to_euclidean_division_equations; lia.
Qed.

(** *** The tests of the repository, replayed *)

(** [TestSimulateImageProcessing]: an image of ones becomes an image of
    twos. *)
Example test_SimulateImageProcessing :
  Go.SimulateImageProcessing (replicate Go.imageSize F32.one)
  = replicate Go.imageSize F32.two.
Proof. vm_compute. reflexivity. Qed.

(** [TestProcessBatch], on a batch of [batchSize] images of four pixels:
    the goroutine run to its end leaves all twos and a counter at zero. *)
Example test_ProcessBatch :
  let st := Go.wg_Wait []
              (Go.spawn [Go.batch_at Go.batchSize_const 0]
                 (replicate Go.batchSize_const (replicate 4 F32.one))) in
  Go.mem st = replicate Go.batchSize_const (replicate 4 F32.two) /\
  Go.wg st = 0.
Proof. vm_compute. split; reflexivity. Qed.

(** [testProduceBatches]: the same batch put twice, then the flag; the
    queue holds two batches. *)
Example test_produceBatches :
  let st := JavaCifar.exec 10
              [JavaCifar.EProducer; JavaCifar.EProducer; JavaCifar.EProducer]
              (JavaCifar.start [[0]; [0]] [[F32.one]]) in
  length (JavaCifar.queue st) = 2 /\ JavaCifar.isDoneProducing st = true.
Proof. vm_compute. split; reflexivity. Qed.

(** [testProcessBatch] of the Java harness. *)
Example test_processBatch :
  JavaCifar.processBatch [0] [[F32.pixel 0; F32.pixel 128; F32.pixel 255]]
  = [[F32.double (F32.pixel 0); F32.double (F32.pixel 128);
      F32.double (F32.pixel 255)]].
Proof. vm_compute. reflexivity. Qed.

(** [testProcessImageWithoutDependencies]: channels at 100 become 200. *)
Example test_processImage :
  JavaTiny.processImage [[JavaTiny.rgb_of 100 100 100]]
  = [[JavaTiny.rgb_of 200 200 200]].
Proof. vm_compute. reflexivity. Qed.

End Properties.

(** ** Go: edges of the batcher, the counter, the totals *)

Module GoFacts2.

Import Go GoFacts.

Local Open Scope nat_scope.

Section Edges.
Variable batchSize : nat.
Hypothesis batchSize_pos : 0 < batchSize.

Lemma batched_small n : n < batchSize -> batched batchSize n = 0.
Proof. intros H. unfold batched. rewrite Nat.div_small by exact H. reflexivity. Qed.

Lemma run_rows_small rows :
  length rows < batchSize -> run_rows batchSize rows = rows.
Proof.
  intros H. unfold run_rows. rewrite batched_small by exact H.
  rewrite take_0, drop_0. reflexivity.
Qed.

End Edges.

(** Some goroutine still running keeps the counter positive. *)
Lemma running_counted (gs : list Goroutine) k g :
  gs !! k = Some g -> g_done g = false ->
  0 < length (filter (fun g => running g = true) gs).
Proof.
  revert k. induction gs as [|a gs IH]; intros [|k] Hk Hd; try discriminate.
  - injection Hk as ->. rewrite filter_cons_True; [cbn; lia|].
    unfold running. rewrite Hd. reflexivity.
  - cbn in Hk. rewrite filter_cons.
    destruct (decide (running a = true)); [cbn; lia|]. eapply IH; eassumption.
Qed.

Lemma none_running (gs : list Goroutine) :
  length (filter (fun g => running g = true) gs) = 0 <->
  Forall (fun g => g_done g = true) gs.
Proof.
  induction gs as [|a gs IH].
  - split; [constructor | reflexivity].
  - destruct (g_done a) eqn:Hd.
    + rewrite filter_cons_False by (unfold running; rewrite Hd; discriminate).
      rewrite IH. split.
      * intros H. constructor; assumption.
      * intros H. inversion H. assumption.
    + rewrite filter_cons_True by (unfold running; rewrite Hd; reflexivity).
      split; [cbn; lia|]. intros H. inversion H. congruence.
Qed.

End GoFacts2.

(** ** Java: the loop of [main] *)

Module JavaMainFacts.

Import JavaCifar JavaFacts JavaFacts2 JavaMain.

Local Open Scope nat_scope.

Lemma view_threads_of st : view (heap st) (threads_of st) = st.
Proof. destruct st; reflexivity. Qed.

Lemma threads_of_view h t : threads_of (view h t) = t.
Proof. destruct t; reflexivity. Qed.

Lemma long_sub_exact a b :
  (- 2 ^ 63 <= a - b < 2 ^ 63)%Z -> long_sub a b = (a - b)%Z.
Proof.
  intros H. unfold long_sub, long_wrap.
  change (2 ^ 63)%Z with 9223372036854775808%Z in *.
  change (2 ^ 64)%Z with 18446744073709551616%Z.
  Z.to_euclidean_division_equations. lia.
Qed.

(** The threads of a run that is over do nothing any more. *)
Lemma step_over capacity ev h t :
  over t -> step capacity ev (view h t) = view h t.
Proof.
  intros [[unsent Hp] Hc].
  assert (forall c x, t_consumers t !! c = Some x -> x = Exited) as Hex.
  { intros c x Hx. rewrite Forall_lookup in Hc. exact (Hc c x Hx). }
  destruct ev as [| |c|c]; cbn [step].
  - unfold producer_step. cbn [view producer]. rewrite Hp. reflexivity.
  - unfold producer_interrupt. cbn [view producer]. rewrite Hp. reflexivity.
  - unfold consumer_step. cbn [view consumers].
    destruct (t_consumers t !! c) as [x|] eqn:Hx; [|reflexivity].
    rewrite (Hex c x Hx). reflexivity.
  - unfold consumer_interrupt. cbn [view consumers].
    destruct (t_consumers t !! c) as [x|] eqn:Hx; [|reflexivity].
    rewrite (Hex c x Hx). reflexivity.
Qed.

Lemma exec_over capacity h t : forall trace,
  over t -> exec capacity trace (view h t) = view h t.
Proof.
  induction trace as [|ev trace IH]; intros Ht; [reflexivity|].
  cbn [exec fold_left]. rewrite step_over by exact Ht. apply IH, Ht.
Qed.

Lemma wexec_ticks capacity : forall trace w,
  ticks (wexec capacity trace w) = ticks w.
Proof.
  induction trace as [|e trace IH]; intros w; [reflexivity|].
  cbn [wexec fold_left]. change (fold_left _ trace ?x) with (wexec capacity trace x).
  rewrite IH. unfold wstep. destruct (runs w !! e.1); reflexivity.
Qed.

(** While the earlier runs are over, a trace acts on the last run alone. *)
Lemma wexec_focus capacity old : forall trace h t k,
  Forall over old ->
  wexec capacity trace {| arrays := h; runs := old ++ [t]; ticks := k |}
  = {| arrays := heap (exec capacity (focus (length old) trace) (view h t));
       runs := old ++ [threads_of
                         (exec capacity (focus (length old) trace) (view h t))];
       ticks := k |}.
Proof.
  induction trace as [|[r ev] trace IH]; intros h t k Hold.
  - cbn [wexec fold_left focus exec]. rewrite threads_of_view. reflexivity.
  - cbn [wexec fold_left focus fst snd].
    change (fold_left _ trace ?x) with (wexec capacity trace x).
    unfold wstep. cbn [fst snd runs arrays ticks].
    destruct (Nat.eqb_spec r (length old)) as [-> | Hne].
    + rewrite list_lookup_middle by reflexivity.
      rewrite insert_app_r_alt, Nat.sub_diag by lia.
      change (<[0 := ?x]> [t]) with [x].
      rewrite IH by exact Hold. cbn [exec fold_left].
      rewrite view_threads_of. reflexivity.
    + destruct (decide (r < length old)) as [Hlt | Hge].
      * rewrite lookup_app_l by exact Hlt.
        destruct (old !! r) as [t'|] eqn:Ht';
          [|apply lookup_ge_None_1 in Ht'; lia].
        assert (over t') as Hov
          by (rewrite Forall_lookup in Hold; exact (Hold r t' Ht')).
        rewrite step_over by exact Hov. cbn [view heap].
        rewrite threads_of_view, list_insert_id
          by (rewrite lookup_app_l by exact Hlt; exact Ht').
        apply IH, Hold.
      * rewrite lookup_ge_None_2 by (rewrite length_app; cbn [length]; lia).
        apply IH, Hold.
Qed.

Lemma focus_undisturbed r : forall trace,
  undisturbed (map snd trace) = true -> undisturbed (focus r trace) = true.
Proof.
  induction trace as [|e trace IH]; intros H; [reflexivity|].
  cbn [map undisturbed forallb] in H. apply andb_prop in H as [He H].
  cbn [focus]. destruct (e.1 =? r); [|apply IH, H].
  cbn [undisturbed forallb]. rewrite He. apply IH, H.
Qed.

(** The pool is started on a state that has no consumer yet. *)
Lemma started_inv allBatches h n st :
  Inv allBatches h st -> consumers st = [] ->
  Inv allBatches h (spawn_consumers n st).
Proof.
  intros [(processed & Hheap & Hperm) Hflag Hrun Hexit] Hc.
  split; cbn [spawn_consumers heap producer queue isDoneProducing consumers].
  - exists processed. split; [exact Hheap|].
    unfold held in *. rewrite held_idle. rewrite Hc in Hperm. exact Hperm.
  - exact Hflag.
  - exact Hrun.
  - intros [i Hi]%list_elem_of_lookup.
    apply lookup_replicate in Hi as [Hi _]. discriminate.
Qed.

(** A pool that has drained without interrupts has processed every
    batch. *)
Lemma drained allBatches h st :
  Inv allBatches h st -> consumers st <> [] -> all_exited st = true ->
  heap st = process_all allBatches h /\ over (threads_of st).
Proof.
  intros [(processed & Hheap & Hperm) Hflag _ Hexit] Hne Hall.
  assert (Exited ∈ consumers st) as Hin.
  { unfold all_exited in Hall. destruct (consumers st) as [|c cs]; [congruence|].
    cbn in Hall. destruct c; try discriminate. left. }
  destruct (Hexit Hin) as [Hdone Hq].
  pose proof (proj1 Hflag Hdone) as Hp.
  rewrite Hq, Hp, (held_all_exited _ Hall) in Hperm. cbn in Hperm.
  rewrite app_nil_r in Hperm. split.
  - rewrite Hheap. apply process_all_perm. exact Hperm.
  - split; cbn [threads_of t_producer t_consumers]; [eauto|].
    unfold all_exited in Hall. rewrite forallb_forall in Hall.
    apply Forall_forall. intros c Hc.
    specialize (Hall c (proj1 (list_elem_of_In _ _) Hc)).
    destruct c; try discriminate. reflexivity.
Qed.

Section Loop.
Variable nConsumers : nat.
Variable capacity : nat.
Variable clock : nat -> Z.
Variable allBatches : list Batch.

(** What an iteration measures. *)
Lemma main_iteration_times p w tot w' tot' m :
  main_iteration nConsumers capacity clock allBatches p w tot
    = Some (w', tot', m) ->
  elapsedTime m = long_sub (clock (2 + ticks w)) (clock (1 + ticks w)) /\
  overheadTime m = long_sub (clock (3 + ticks w)) (clock (ticks w)) /\
  memoryUsage m = long_sub (p_memoryAfter p) (p_memoryBefore p) /\
  ticks w' = 4 + ticks w.
Proof.
  unfold main_iteration, nanoTime. cbn beta iota zeta.
  cbn [ticks arrays runs spawn_pool start_run].
  rewrite !wexec_ticks. cbn [start_run ticks].
  destruct (match p_await p with AllTerminated => _ | _ => _ end);
    [discriminate|].
  destruct (negb _); [discriminate|].
  intros H. injection H as <- _ <-.
  cbn [elapsedTime overheadTime memoryUsage ticks].
  rewrite !wexec_ticks. cbn [ticks]. auto.
Qed.

Hypothesis nConsumers_pos : 0 < nConsumers.

(** A quiet iteration on a world whose earlier runs are over. *)
Lemma main_iteration_quiet p old h k tot w' tot' m :
  Forall over old -> quiet p ->
  main_iteration nConsumers capacity clock allBatches p
    {| arrays := h; runs := old; ticks := k |} tot = Some (w', tot', m) ->
  arrays w' = process_all allBatches h /\
  Forall over (runs w') /\ length (runs w') = S (length old) /\
  ticks w' = 4 + k.
Proof.
  intros Hold (Hawait & Hb & Hd & Hj) Hrun.
  pose proof (main_iteration_times _ _ _ _ _ _ Hrun) as (_ & _ & _ & Hticks).
  cbn [ticks] in Hticks.
  unfold main_iteration, nanoTime, start_run in Hrun.
  cbn [arrays runs ticks] in Hrun.
  rewrite wexec_focus in Hrun by exact Hold.
  cbn [arrays runs ticks] in Hrun.
  set (st1 := exec capacity (focus (length old) (p_before p))
                (view h {| t_producer := Producing allBatches; t_queue := [];
                           t_flag := false; t_consumers := [] |})) in Hrun.
  assert (Inv allBatches h st1) as HI1.
  { apply threads_inv; [apply focus_undisturbed, Hb|].
    exact (start_inv allBatches h 0). }
  assert (consumers st1 = []) as Hc1.
  { pose proof (exec_consumers_length capacity
                  (focus (length old) (p_before p))
                  (view h {| t_producer := Producing allBatches; t_queue := [];
                             t_flag := false; t_consumers := [] |})) as Hl.
    fold st1 in Hl. cbn in Hl. destruct (consumers st1); [reflexivity|].
    discriminate. }
  unfold spawn_pool in Hrun. cbn [arrays runs ticks] in Hrun.
  rewrite alter_app_r_alt, Nat.sub_diag in Hrun by lia.
  change (alter ?f 0 [?x]) with [f x] in Hrun.
  change {| t_producer := t_producer (threads_of st1);
            t_queue := t_queue (threads_of st1);
            t_flag := t_flag (threads_of st1);
            t_consumers := replicate nConsumers AtLoop |}
    with (threads_of (spawn_consumers nConsumers st1)) in Hrun.
  replace (heap st1) with (heap (spawn_consumers nConsumers st1)) in Hrun
    by reflexivity.
  rewrite wexec_focus in Hrun by exact Hold.
  rewrite view_threads_of in Hrun.
  set (st3 := exec capacity (focus (length old) (p_during p))
                (spawn_consumers nConsumers st1)) in Hrun.
  assert (Inv allBatches h st3) as HI3.
  { apply threads_inv; [apply focus_undisturbed, Hd|].
    apply started_inv; assumption. }
  rewrite Hawait in Hrun. unfold pool_exited in Hrun.
  cbn [runs] in Hrun. rewrite list_lookup_middle in Hrun by reflexivity.
  cbn [threads_of t_consumers] in Hrun.
  change (forallb _ (consumers st3)) with (all_exited st3) in Hrun.
  destruct (all_exited st3) eqn:Hall; [|discriminate].
  cbn [negb] in Hrun.
  destruct (drained allBatches h st3 HI3) as [Hheap Hover]; [|exact Hall|].
  { pose proof (exec_consumers_length capacity
                  (focus (length old) (p_during p))
                  (spawn_consumers nConsumers st1)) as Hl.
    fold st3 in Hl. cbn in Hl. rewrite length_replicate in Hl.
    intros E. rewrite E in Hl. cbn in Hl. lia. }
  cbn [arrays runs ticks] in Hrun.
  rewrite wexec_focus in Hrun by exact Hold.
  rewrite exec_over in Hrun by exact Hover.
  rewrite threads_of_view in Hrun. cbn [view heap] in Hrun.
  unfold producer_ended in Hrun. cbn [runs] in Hrun.
  rewrite list_lookup_middle in Hrun by reflexivity.
  destruct Hover as [[unsent Hp] Hcs].
  rewrite Hp in Hrun. cbn [negb] in Hrun.
  injection Hrun as <- _ _. cbn [arrays runs ticks].
  split; [exact Hheap|]. split; [|split].
  - apply Forall_app. split; [exact Hold|]. constructor; [|constructor].
    split; [eauto | exact Hcs].
  - rewrite length_app. cbn [length]. lia.
  - reflexivity.
Qed.

(** After [count] quiet iterations every batch has been processed [count]
    times. *)
Lemma main_loop_quiet env : forall count i w tot w' tot' ms,
  Forall over (runs w) ->
  (forall j, i <= j < i + count -> quiet (env j)) ->
  main_loop nConsumers capacity clock allBatches count i env w tot
    = Some (w', tot', ms) ->
  arrays w' = Nat.iter count (process_all allBatches) (arrays w) /\
  Forall over (runs w') /\ length (runs w') = count + length (runs w) /\
  length ms = count /\ ticks w' = 4 * count + ticks w.
Proof.
  induction count as [|count IH]; intros i w tot w' tot' ms Hold Hq Hrun.
  - cbn in Hrun. injection Hrun as <- <- <-. auto.
  - cbn [main_loop] in Hrun.
    destruct (main_iteration nConsumers capacity clock allBatches (env i) w tot)
      as [[[w1 tot1] m]|] eqn:H1; [|discriminate].
    cbn [mbind option_bind] in Hrun.
    destruct (main_loop nConsumers capacity clock allBatches count (S i) env
                w1 tot1) as [[[w2 tot2] ms2]|] eqn:H2; [|discriminate].
    cbn [mbind option_bind] in Hrun. injection Hrun as <- <- <-.
    destruct w as [h old k]. cbn [arrays runs ticks] in *.
    destruct (main_iteration_quiet (env i) old h k tot w1 tot1 m Hold
                (Hq i ltac:(lia)) H1) as (A1 & O1 & L1 & T1).
    destruct (IH (S i) w1 tot1 w2 tot2 ms2 O1) as (A2 & O2 & L2 & M2 & T2);
      [intros j Hj; apply Hq; lia | exact H2 |].
    split; [|split; [exact O2|split; [lia|split; [cbn; lia | lia]]]].
    rewrite A2, A1, <- Nat.iter_succ_r. reflexivity.
Qed.

End Loop.

(** The references of the batches depend on their sizes only. *)
Lemma refs_from_fmap (f : Vector -> Vector) : forall loaded next,
  refs_from next (map (map f) loaded) = refs_from next loaded.
Proof.
  induction loaded as [|b loaded IH]; intros next; [reflexivity|].
  cbn [map refs_from]. rewrite length_map, IH. reflexivity.
Qed.

Lemma concat_fmap (f : Vector -> Vector) (loaded : list (list Vector)) :
  concat (map (map f) loaded) = map f (concat loaded).
Proof.
  induction loaded as [|b loaded IH]; [reflexivity|].
  cbn [map concat]. rewrite map_app, IH. reflexivity.
Qed.

Lemma iter_process_all (loaded : list (list Vector)) : forall k,
  Nat.iter k (process_all (allocate loaded).2) (allocate loaded).1
  = map (Nat.iter k double_image) (concat loaded).
Proof.
  induction k as [|k IH].
  - cbn. symmetry. apply map_id.
  - change (Nat.iter (S k) ?f ?x) with (f (Nat.iter k f x)).
    rewrite IH. cbn [allocate snd].
    rewrite <- (concat_fmap (Nat.iter k double_image)).
    rewrite <- (refs_from_fmap (Nat.iter k double_image) loaded 0).
    pose proof (process_all_refs
                  (map (map (Nat.iter k double_image)) loaded) []) as H.
    cbn [length app] in H. rewrite H.
    rewrite concat_fmap, map_map. reflexivity.
Qed.

End JavaMainFacts.

(** ** Java: a run without interrupts can always be completed *)

Module JavaProgress.

Import JavaCifar JavaFacts JavaQueue.

Local Open Scope nat_scope.

Lemma cost_insert (cs : list Consumer) (c : nat) old x :
  cs !! c = Some old ->
  foldr Nat.add 0 (map cost (<[c := x]> cs)) + cost old
  = foldr Nat.add 0 (map cost cs) + cost x.
Proof.
  revert c. induction cs as [|a cs IH]; intros [|c] Hc; try discriminate.
  - injection Hc as ->. cbn. lia.
  - cbn in Hc. change (<[S c := x]> (a :: cs)) with (a :: <[c := x]> cs).
    cbn [map foldr]. specialize (IH c Hc). lia.
Qed.

Lemma not_all_exited st :
  all_exited st = false ->
  exists c x, consumers st !! c = Some x /\ x <> Exited.
Proof.
  unfold all_exited. generalize (consumers st). intros cs.
  induction cs as [|a cs IH]; intros H; [discriminate|].
  cbn [forallb] in H. destruct a.
  - exists 0, AtLoop. split; [reflexivity | discriminate].
  - exists 0, Polling. split; [reflexivity | discriminate].
  - exists 0, (Holding b). split; [reflexivity | discriminate].
  - destruct (IH H) as (c & x & Hc & Hx). exists (S c), x. auto.
Qed.

Section Progress.
Variable allBatches : list Batch.
Variable h0 : list Vector.
Variable capacity : nat.
Hypothesis capacity_pos : 0 < capacity.

(** While a consumer is still running, some thread can take steps that
    leave less work. *)
Lemma progress st :
  Inv allBatches h0 st -> all_exited st = false ->
  exists trace,
    undisturbed trace = true /\ work (exec capacity trace st) < work st.
Proof.
  intros [_ Hflag Hrun _] Hall.
  destruct (not_all_exited st Hall) as (c & x & Hc & Hx).
  destruct x as [| | b |]; [| | |congruence].
  - (* at the loop test *)
    destruct (queue st) as [|b q] eqn:Hq.
    + destruct (producer st) as [[|b rest] | unsent] eqn:Hp.
      * exists [EProducer]. split; [reflexivity|].
        cbn [exec fold_left step]. unfold producer_step. rewrite Hp.
        unfold work. cbn [set_producer producer queue consumers remaining length].
        rewrite Hp. cbn [remaining length]. lia.
      * exists [EProducer]. split; [reflexivity|].
        cbn [exec fold_left step]. unfold producer_step. rewrite Hp, Hq.
        cbn [length]. destruct (Nat.ltb_spec 0 capacity); [|lia].
        unfold work. cbn [set_producer producer queue consumers remaining length].
        rewrite Hp, Hq. cbn [remaining length app]. lia.
      * assert (unsent = []) as ->.
        { destruct Hrun as [[todo E] | E]; congruence. }
        assert (isDoneProducing st = true) as Hdone by (apply Hflag; reflexivity).
        exists [EConsumer c]. split; [reflexivity|].
        cbn [exec fold_left step]. unfold consumer_step. rewrite Hc, Hdone, Hq.
        rewrite bool_decide_eq_true_2 by reflexivity. cbn [negb orb].
        unfold work. cbn [set_consumer producer queue consumers].
        pose proof (cost_insert (consumers st) c AtLoop Exited Hc) as Hcost.
        cbn [cost] in Hcost. rewrite Hq. lia.
    + exists [EConsumer c; EConsumer c; EConsumer c]. split; [reflexivity|].
      cbn [exec fold_left step].
      assert (consumer_step c st = set_consumer c Polling (heap st) (b :: q) st)
        as E1.
      { unfold consumer_step. rewrite Hc, Hq.
        rewrite bool_decide_eq_false_2 by discriminate.
        rewrite orb_true_r. reflexivity. }
      rewrite E1.
      assert (c < length (consumers st)) as Hlt
        by (eapply lookup_lt_Some; exact Hc).
      assert (consumer_step c (set_consumer c Polling (heap st) (b :: q) st)
              = set_consumer c (Holding b) (heap st) q
                  (set_consumer c Polling (heap st) (b :: q) st)) as E2.
      { unfold consumer_step at 1. cbn [set_consumer consumers queue heap].
        rewrite list_lookup_insert_eq by exact Hlt. reflexivity. }
      rewrite E2.
      unfold consumer_step at 1. cbn [set_consumer consumers queue heap].
      rewrite list_lookup_insert_eq by (rewrite length_insert; exact Hlt).
      unfold work.
      cbn [set_consumer producer queue consumers isDoneProducing heap].
      rewrite !list_insert_insert_eq.
      rewrite (list_insert_id _ _ _ Hc). rewrite Hq. cbn [length]. lia.
  - (* in poll *)
    exists [EConsumer c]. split; [reflexivity|].
    cbn [exec fold_left step]. unfold consumer_step. rewrite Hc.
    destruct (queue st) as [|b q] eqn:Hq; unfold work;
      cbn [set_consumer producer queue consumers length];
      rewrite ?Hq; cbn [length].
    + pose proof (cost_insert (consumers st) c Polling AtLoop Hc) as Hcost.
      cbn [cost] in Hcost. lia.
    + pose proof (cost_insert (consumers st) c Polling (Holding b) Hc) as Hcost.
      cbn [cost] in Hcost. lia.
  - (* holding a batch *)
    exists [EConsumer c]. split; [reflexivity|].
    cbn [exec fold_left step]. unfold consumer_step. rewrite Hc.
    unfold work. cbn [set_consumer producer queue consumers].
    pose proof (cost_insert (consumers st) c (Holding b) AtLoop Hc) as Hcost.
    cbn [cost] in Hcost. lia.
Qed.

Lemma undisturbed_app a b :
  undisturbed a = true -> undisturbed b = true -> undisturbed (a ++ b) = true.
Proof.
  intros Ha Hb. unfold undisturbed in *. rewrite forallb_app, Ha, Hb. reflexivity.
Qed.

(** Hence every consumer can be brought home. *)
Lemma can_drain : forall n st,
  work st < n -> Inv allBatches h0 st ->
  exists trace,
    undisturbed trace = true /\ all_exited (exec capacity trace st) = true.
Proof.
  induction n as [|n IH]; intros st Hn HI; [lia|].
  destruct (all_exited st) eqn:Hall.
  - exists []. split; [reflexivity | exact Hall].
  - destruct (progress st HI Hall) as (t1 & Hq1 & Hless).
    destruct (IH (exec capacity t1 st) ltac:(lia)
                (threads_inv allBatches h0 capacity t1 st Hq1 HI))
      as (t2 & Hq2 & Hdone).
    exists (t1 ++ t2). split; [apply undisturbed_app; assumption|].
    rewrite threads_exec_app. exact Hdone.
Qed.

End Progress.

End JavaProgress.

(** ** Go: the totals of the loop of [main] *)

Module GoTotals.

Import Go GoFacts Metrics.

Lemma uint64_add_sub t a b :
  uint64_add (t mod 2 ^ 64) (uint64_sub a b) = ((t + (a - b)) mod 2 ^ 64)%Z.
Proof.
  unfold uint64_add, uint64_sub.
  rewrite <- Zplus_mod. reflexivity.
Qed.

Lemma int64_add_exact a b :
  (- 2 ^ 63 <= a + b < 2 ^ 63)%Z -> int64_add a b = (a + b)%Z.
Proof.
  intros H. unfold int64_add.
  change (2 ^ 63)%Z with 9223372036854775808%Z in *.
  change (2 ^ 64)%Z with 18446744073709551616%Z.
  Z.to_euclidean_division_equations. lia.
Qed.

Lemma time_Sub_exact t u :
  (0 <= t - u <= maxDuration)%Z -> time_Sub t u = (t - u)%Z.
Proof. unfold time_Sub, minDuration, maxDuration. lia. Qed.

Local Open Scope nat_scope.

Section Loop.
Context {Label : Type}.
Variable batchSize : nat.
Variable clock : nat -> Z.
Hypothesis batchSize_pos : 0 < batchSize.
Variable labels : list Label.
Variable env : nat -> Probe.

(** The memory total is the sum of the signed differences, modulo
    [2^64]: what a run adds by wrapping, the total loses again. *)
Lemma main_loop_memory : forall count i w tot w' tot' ms t,
  batched batchSize (length (heap w)) <= length labels ->
  totalMemoryUsage tot = (t mod 2 ^ 64)%Z ->
  main_loop batchSize clock count i env labels w tot = Ok (w', tot', ms) ->
  map memoryUsage ms
    = map (fun d => (d mod 2 ^ 64)%Z) (alloc_deltas env i count) /\
  totalMemoryUsage tot' = ((t + sum (alloc_deltas env i count)) mod 2 ^ 64)%Z.
Proof.
  induction count as [|count IH]; intros i w tot w' tot' ms t HL Ht Hrun.
  - cbn in Hrun. injection Hrun as <- <- <-. cbn. rewrite Z.add_0_r. auto.
  - cbn [main_loop] in Hrun.
    rewrite (main_iteration_spec batchSize clock batchSize_pos) in Hrun
      by assumption.
    destruct (p_cpu (env i)) as [cpu | | |]; try discriminate.
    cbn [mbind result_bind] in Hrun.
    match type of Hrun with context [main_loop _ _ _ _ _ _ ?w1 ?t1] =>
      destruct (main_loop batchSize clock count (S i) env labels w1 t1)
        as [[[w2 tot2] ms2] | | |] eqn:Hrest; try discriminate;
      apply (IH _ _ _ _ _ _
               (t + (p_allocAfter (env i) - p_allocBefore (env i)))%Z)
        in Hrest as [Hms Htot]
    end.
    + cbn in Hrun. injection Hrun as <- <- <-.
      unfold alloc_deltas in *. cbn [seq map sum foldr]. split.
      * rewrite Hms. reflexivity.
      * rewrite Htot. f_equal. unfold sum. lia.
    + cbn [heap]. rewrite (length_run_rows batchSize batchSize_pos). assumption.
    + cbn [totalMemoryUsage]. rewrite Ht. apply uint64_add_sub.
Qed.

(** The clock is read six times per iteration. *)
Lemma main_loop_ticks : forall count i w tot w' tot' ms,
  batched batchSize (length (heap w)) <= length labels ->
  main_loop batchSize clock count i env labels w tot = Ok (w', tot', ms) ->
  ticks w' = 6 * count + ticks w.
Proof.
  induction count as [|count IH]; intros i w tot w' tot' ms HL Hrun.
  - cbn in Hrun. injection Hrun as <- <- <-. reflexivity.
  - cbn [main_loop] in Hrun.
    rewrite (main_iteration_spec batchSize clock batchSize_pos) in Hrun
      by assumption.
    destruct (p_cpu (env i)) as [cpu | | |]; try discriminate.
    cbn [mbind result_bind] in Hrun.
    match type of Hrun with context [main_loop _ _ _ _ _ _ ?w1 ?t1] =>
      destruct (main_loop batchSize clock count (S i) env labels w1 t1)
        as [[[w2 tot2] ms2] | | |] eqn:Hrest; try discriminate;
      apply IH in Hrest
    end.
    + cbn in Hrun. injection Hrun as <- <- <-. rewrite Hrest. cbn [ticks]. lia.
    + cbn [heap]. rewrite (length_run_rows batchSize batchSize_pos). assumption.
Qed.

(** While the loop lasts less than [maxDuration], the two time totals are
    the sums of what the runs returned, and they are ordered like the
    windows they measure. *)
Lemma main_loop_times : forall count i w tot w' tot' ms,
  monotonic clock ->
  batched batchSize (length (heap w)) <= length labels ->
  (0 <= totalExecutionTime tot <= totalConcurrencyOverhead tot)%Z ->
  (totalConcurrencyOverhead tot
     + (clock (6 * count + ticks w) - clock (ticks w)) <= maxDuration)%Z ->
  main_loop batchSize clock count i env labels w tot = Ok (w', tot', ms) ->
  totalExecutionTime tot'
    = (totalExecutionTime tot + sum (map executionTime ms))%Z /\
  totalConcurrencyOverhead tot'
    = (totalConcurrencyOverhead tot + sum (map concurrencyOverhead ms))%Z /\
  (0 <= sum (map executionTime ms) <= sum (map concurrencyOverhead ms))%Z /\
  (sum (map concurrencyOverhead ms)
     <= clock (6 * count + ticks w) - clock (ticks w))%Z.
Proof.
  induction count as [|count IH];
    intros i w tot w' tot' ms Hmono HL H0 Hfit Hrun.
  - cbn in Hrun. injection Hrun as <- <- <-. cbn. lia.
  - cbn [main_loop] in Hrun.
    rewrite (main_iteration_spec batchSize clock batchSize_pos) in Hrun
      by assumption.
    destruct (p_cpu (env i)) as [cpu | | |]; try discriminate.
    cbn [mbind result_bind] in Hrun.
    pose proof (Hmono (ticks w) (1 + ticks w) ltac:(lia)) as M1.
    pose proof (Hmono (1 + ticks w) (2 + ticks w) ltac:(lia)) as M2.
    pose proof (Hmono (2 + ticks w) (3 + ticks w) ltac:(lia)) as M3.
    pose proof (Hmono (3 + ticks w) (6 + ticks w) ltac:(lia)) as M4.
    pose proof (Hmono (6 + ticks w) (6 * S count + ticks w) ltac:(lia)) as M5.
    replace (6 * count + (6 + ticks w)) with (6 * S count + ticks w) in * by lia.
    assert (time_Sub (clock (2 + ticks w)) (clock (1 + ticks w))
            = (clock (2 + ticks w) - clock (1 + ticks w))%Z) as E1
      by (apply time_Sub_exact; lia).
    assert (time_Sub (clock (3 + ticks w)) (clock (ticks w))
            = (clock (3 + ticks w) - clock (ticks w))%Z) as E2
      by (apply time_Sub_exact; lia).
    cbn zeta in Hrun. rewrite E1, E2 in Hrun.
    unfold maxDuration in *.
    change (2 ^ 63)%Z with 9223372036854775808%Z in *.
    rewrite !int64_add_exact in Hrun
      by (change (2 ^ 63)%Z with 9223372036854775808%Z; lia).
    match type of Hrun with context [main_loop _ _ _ _ _ _ ?w1 ?t1] =>
      destruct (main_loop batchSize clock count (S i) env labels w1 t1)
        as [[[w2 tot2] ms2] | | |] eqn:Hrest; try discriminate;
      apply IH in Hrest as (T1 & T2 & T3 & T4); [|exact Hmono| | |]
    end.
    + cbn in Hrun. injection Hrun as <- <- <-.
      cbn [totalExecutionTime totalConcurrencyOverhead ticks] in *.
      replace (6 * count + (6 + ticks w)) with (6 * S count + ticks w) in * by lia.
      cbn [map sum foldr executionTime concurrencyOverhead].
      fold (sum (map executionTime ms2)) (sum (map concurrencyOverhead ms2)).
      cbn [Nat.add] in *. lia.
    + cbn [heap]. rewrite (length_run_rows batchSize batchSize_pos). assumption.
    + cbn [totalExecutionTime totalConcurrencyOverhead]. lia.
    + cbn [totalExecutionTime totalConcurrencyOverhead ticks].
      replace (6 * count + (6 + ticks w)) with (6 * S count + ticks w) by lia.
      lia.
Qed.

End Loop.

End GoTotals.

(** ** Go: the harness that only times the run *)

Module GoTimedFacts.

Import Go GoFacts GoTotals Metrics.

Local Open Scope nat_scope.

Lemma durations_S clock t count :
  GoTimed.durations clock t (S count)
  = time_Sub (clock (1 + t)) (clock t) :: GoTimed.durations clock (2 + t) count.
Proof.
  unfold GoTimed.durations. cbn [seq map]. f_equal.
  rewrite <- seq_shift, map_map. apply map_ext. intros k.
  f_equal; f_equal; lia.
Qed.

Lemma length_durations clock t count :
  length (GoTimed.durations clock t count) = count.
Proof. unfold GoTimed.durations. rewrite length_map, length_seq. reflexivity. Qed.

Section Loop.
Context {Label : Type}.
Variable batchSize : nat.
Variable clock : nat -> Z.
Hypothesis batchSize_pos : 0 < batchSize.
Variable labels : list Label.
Variable scheds : nat -> list nat.

Lemma RunProcessingTask_timed sched w :
  batched batchSize (length (heap w)) <= length labels ->
  GoTimed.RunProcessingTask batchSize clock sched labels w
  = Ok (time_Sub (clock (1 + ticks w)) (clock (ticks w)),
        {| heap := run_rows batchSize (heap w); ticks := 2 + ticks w |}).
Proof.
  intros HL. unfold GoTimed.RunProcessingTask.
  rewrite (make_batches_spec batchSize batchSize_pos) by assumption.
  cbn [mbind result_bind time_Now time_Since heap ticks].
  destruct (wg_Wait_spec batchSize batchSize_pos (heap w) sched) as (Hmem & _).
  cbn zeta in Hmem. rewrite Hmem. reflexivity.
Qed.

(** The loop never indexes [executionTimes] out of range, and fills it
    in run order. *)
Lemma main_loop_timed : forall count i w total times,
  batched batchSize (length (heap w)) <= length labels ->
  i + count <= length times ->
  GoTimed.main_loop batchSize clock count i scheds labels w total times
  = Ok ({| heap := Nat.iter count (run_rows batchSize) (heap w);
           ticks := 2 * count + ticks w |},
        fold_left int64_add (GoTimed.durations clock (ticks w) count) total,
        take i times ++ GoTimed.durations clock (ticks w) count
          ++ drop (i + count) times).
Proof.
  induction count as [|count IH]; intros i w total times HL Hi.
  - cbn. rewrite Nat.add_0_r, take_drop. destruct w; reflexivity.
  - cbn [GoTimed.main_loop]. rewrite RunProcessingTask_timed by assumption.
    cbn [mbind result_bind]. unfold GoSlice.assign.
    destruct (Nat.ltb_spec i (length times)); [|lia].
    cbn [mbind result_bind]. rewrite IH.
    + cbn [heap ticks]. rewrite durations_S. cbn [fold_left].
      rewrite <- Nat.iter_succ_r.
      replace (2 * count + (2 + ticks w)) with (2 * S count + ticks w) by lia.
      do 2 f_equal.
      rewrite (take_S_r _ i (time_Sub (clock (1 + ticks w)) (clock (ticks w))))
        by (apply list_lookup_insert_eq; assumption).
      rewrite take_insert_ge by lia.
      rewrite drop_insert_lt by lia.
      rewrite <- app_assoc. cbn [app].
      replace (S i + count) with (i + S count) by lia. reflexivity.
    + cbn [heap]. rewrite (length_run_rows batchSize batchSize_pos). assumption.
    + rewrite length_insert. lia.
Qed.

End Loop.

Section Durations.
Variable clock : nat -> Z.

(** While the loop lasts less than [maxDuration] the total is the sum of
    the run times, none of which is negative. *)
Lemma durations_sum : forall count t total,
  monotonic clock ->
  (0 <= total)%Z ->
  (total + (clock (2 * count + t) - clock t) <= maxDuration)%Z ->
  fold_left int64_add (GoTimed.durations clock t count) total
  = (total + sum (GoTimed.durations clock t count))%Z /\
  Forall (fun d => (0 <= d)%Z) (GoTimed.durations clock t count) /\
  (sum (GoTimed.durations clock t count) <= clock (2 * count + t) - clock t)%Z.
Proof.
  induction count as [|count IH]; intros t total Hmono H0 Hfit.
  - cbn. split; [lia|]. split; [constructor | lia].
  - rewrite durations_S. cbn [fold_left sum foldr].
    fold (sum (GoTimed.durations clock (2 + t) count)).
    pose proof (Hmono t (1 + t) ltac:(lia)) as M1.
    pose proof (Hmono (1 + t) (2 + t) ltac:(lia)) as M2.
    pose proof (Hmono (2 + t) (2 * S count + t) ltac:(lia)) as M3.
    unfold maxDuration in *.
    change (2 ^ 63)%Z with 9223372036854775808%Z in *.
    assert (time_Sub (clock (1 + t)) (clock t) = (clock (1 + t) - clock t)%Z)
      as E by (apply time_Sub_exact; unfold maxDuration;
               change (2 ^ 63)%Z with 9223372036854775808%Z; lia).
    rewrite E.
    rewrite int64_add_exact
      by (change (2 ^ 63)%Z with 9223372036854775808%Z; lia).
    destruct (IH (2 + t) (total + (clock (1 + t) - clock t))%Z Hmono)
      as (S1 & S2 & S3).
    + lia.
    + replace (2 * count + (2 + t)) with (2 * S count + t) by lia. lia.
    + replace (2 * count + (2 + t)) with (2 * S count + t) in S3 by lia.
      split; [rewrite S1; lia|]. split; [constructor; [lia | exact S2] | lia].
Qed.

End Durations.

Lemma sum_nonneg (l : list Z) :
  Forall (fun d => (0 <= d)%Z) l -> (0 <= sum l)%Z.
Proof.
  induction 1 as [|d l Hd _ IH]; [cbn; lia|].
  cbn [sum foldr]. fold (sum l). lia.
Qed.

(** What the loop and the division of [main] return. *)
Lemma run_and_average_spec {Label : Type} (batchSize : nat)
    (clock : nat -> Z) (scheds : nat -> list nat) (labels : list Label)
    (runs : nat) (w : World) :
  0 < batchSize -> 0 < runs ->
  batched batchSize (length (heap w)) <= length labels ->
  monotonic clock ->
  (clock (2 * runs + ticks w)%nat - clock (ticks w) <= maxDuration)%Z ->
  GoTimed.run_and_average batchSize clock runs scheds labels w
  = Ok ({| heap := Nat.iter runs (run_rows batchSize) (heap w);
           ticks := 2 * runs + ticks w |},
        GoTimed.durations clock (ticks w) runs,
        sum (GoTimed.durations clock (ticks w) runs),
        Z.quot (sum (GoTimed.durations clock (ticks w) runs)) (Z.of_nat runs)).
Proof.
  intros Hpos Hruns HL Hmono Hfit.
  destruct (durations_sum clock runs (ticks w) 0%Z Hmono ltac:(lia)
              ltac:(lia)) as (S1 & S2 & S3).
  rewrite Z.add_0_l in S1.
  pose proof (sum_nonneg _ S2) as Hs0.
  set (times := GoTimed.durations clock (ticks w) runs) in *.
  assert (0 <= Z.quot (sum times) (Z.of_nat runs) <= sum times)%Z as Hq.
  { split; [apply Z.quot_pos; lia|].
    apply Z.quot_le_upper_bound; [lia|].
    assert (1 <= Z.of_nat runs)%Z by lia. nia. }
  unfold GoTimed.run_and_average.
  rewrite (main_loop_timed batchSize clock Hpos labels scheds)
    by (rewrite ?length_replicate; cbn; lia || assumption).
  cbn [mbind result_bind]. fold times. rewrite S1.
  rewrite take_0, drop_ge by (rewrite length_replicate; lia).
  rewrite app_nil_r. cbn [app].
  unfold GoTimed.int64_div.
  destruct (Z.eqb_spec (Z.of_nat runs) 0); [lia|].
  cbn [mbind result_bind]. do 3 f_equal.
  unfold maxDuration in Hfit.
  change (2 ^ 63)%Z with 9223372036854775808%Z in *.
  change (2 ^ 64)%Z with 18446744073709551616%Z.
  rewrite Z.mod_small by lia. lia.
Qed.

(** Truncated division keeps the quotient between the bounds of the
    summands. *)
Lemma quot_between (l : list Z) (lo hi : Z) :
  l <> [] -> Forall (fun d => (lo <= d <= hi)%Z) l ->
  (lo <= Z.quot (sum l) (Z.of_nat (length l)) <= hi)%Z.
Proof.
  intros Hne Hall.
  assert (Z.of_nat (length l) * lo <= sum l <= Z.of_nat (length l) * hi)%Z
    as Hs.
  { clear Hne. induction Hall as [|d l Hd _ IH]; [cbn; lia|].
    cbn [length sum foldr]. fold (sum l). lia. }
  assert (0 < Z.of_nat (length l))%Z as Hn
    by (destruct l; [congruence | cbn; lia]).
  revert Hs Hn. generalize (Z.of_nat (length l)) (sum l). intros n s Hs Hn.
  Z.to_euclidean_division_equations. nia.
Qed.

End GoTimedFacts.

(** ** The loaders: what they read from complete files *)

Module LoaderFacts2.

Import F32Facts LoaderFacts CifarFile.

Local Open Scope nat_scope.

Lemma imageSize_eq : JavaCifar.IMAGE_SIZE = Go.imageSize.
Proof. reflexivity. Qed.

Lemma expected_size_eq : JavaCifar.expected_size = Go.expected_size.
Proof.
  unfold JavaCifar.expected_size, Go.expected_size.
  rewrite imageSize_eq. unfold JavaCifar.NUM_IMAGES_PER_BATCH, Go.numImagesPerBatch.
  lia.
Qed.

Lemma Ok_inj {A} (a b : A) : Go.Ok a = Go.Ok b -> a = b.
Proof. intros H. injection H as ->. reflexivity. Qed.

Lemma Returns_inj {A} (a b : A) :
  JavaCifar.Returns a = JavaCifar.Returns b -> a = b.
Proof. intros H. injection H as ->. reflexivity. Qed.

(* The number of records per file stays folded from here on. *)
Local Opaque Go.numImagesPerBatch JavaCifar.NUM_IMAGES_PER_BATCH
  Go.imageSize JavaCifar.IMAGE_SIZE.

(** ** Go *)

Lemma convert_spec imageData : forall count k,
  k + count <= length imageData ->
  Go.convert count k imageData
  = Go.Ok (map (fun b => F32.pixel (F32.byte_value b))
             (take count (drop k imageData))).
Proof.
  induction count as [|count IH]; intros k Hk; [reflexivity|].
  cbn [Go.convert]. unfold Go.index.
  destruct (lookup_lt_is_Some_2 imageData k ltac:(lia)) as [b Hb].
  rewrite Hb. cbn [mbind Go.result_bind].
  rewrite IH by lia. cbn [mbind Go.result_bind].
  rewrite (drop_S _ _ _ Hb). reflexivity.
Qed.

Lemma load_records_spec data : forall count j acc,
  (j + count) * (Go.imageSize + 1) <= length data ->
  Go.load_records count j data acc
  = Go.Ok (acc.1 ++ map (record_image data) (seq j count),
           acc.2 ++ map (record_label data) (seq j count)).
Proof.
  induction count as [|count IH]; intros j [imgs lbls] Hlen.
  - cbn. rewrite !app_nil_r. reflexivity.
  - cbn [Go.load_records]. unfold Go.index.
    destruct (lookup_lt_is_Some_2 data (j * (Go.imageSize + 1)) ltac:(lia))
      as [label Hl].
    rewrite Hl. cbn [mbind Go.result_bind]. unfold Go.subslice.
    destruct (Nat.leb_spec (j * (Go.imageSize + 1) + 1)
                ((j + 1) * (Go.imageSize + 1))); [|lia].
    destruct (Nat.leb_spec ((j + 1) * (Go.imageSize + 1)) (length data)); [|lia].
    cbn [andb mbind Go.result_bind].
    replace ((j + 1) * (Go.imageSize + 1) - (j * (Go.imageSize + 1) + 1))
      with Go.imageSize by lia.
    rewrite convert_spec by (rewrite length_take, length_drop; lia).
    cbn [mbind Go.result_bind]. rewrite IH by lia.
    cbn [fst snd seq map]. rewrite drop_0, take_take, Nat.min_id.
    rewrite <- !app_assoc. cbn [app].
    unfold record_label at 2. rewrite Hl. reflexivity.
Qed.

Lemma load_files_spec fs : forall count i acc,
  (forall k, i <= k < i + count -> complete fs k) ->
  Go.load_files count i fs acc
  = Go.Ok (acc.1 ++ dataset_images fs i count,
           acc.2 ++ dataset_labels fs i count).
Proof.
  induction count as [|count IH]; intros i [imgs lbls] Hfs.
  - cbn. rewrite !app_nil_r. reflexivity.
  - cbn [Go.load_files].
    destruct (Hfs i ltac:(lia)) as (d & Hd & Hlen). rewrite Hd.
    rewrite load_records_spec by exact Hlen.
    cbn [mbind Go.result_bind]. rewrite IH by (intros k Hk; apply Hfs; lia).
    cbn [fst snd]. unfold dataset_images, dataset_labels, content.
    cbn [seq map concat]. rewrite Hd, <- !app_assoc. reflexivity.
Qed.

Lemma LoadCIFAR10_spec fs :
  (forall i, 1 <= i <= 5 -> complete fs i) ->
  Go.LoadCIFAR10 fs
  = Go.Ok (dataset_images fs 1 5, dataset_labels fs 1 5).
Proof.
  intros Hfs. unfold Go.LoadCIFAR10.
  rewrite load_files_spec by (intros k Hk; apply Hfs; lia).
  cbn [fst snd]. rewrite !app_nil_l. reflexivity.
Qed.

Lemma length_file_images d : length (file_images d) = Go.numImagesPerBatch.
Proof. unfold file_images. rewrite length_map, length_seq. reflexivity. Qed.

Lemma length_file_labels d : length (file_labels d) = Go.numImagesPerBatch.
Proof. unfold file_labels. rewrite length_map, length_seq. reflexivity. Qed.

Lemma length_dataset_images fs : forall count i,
  length (dataset_images fs i count) = count * Go.numImagesPerBatch.
Proof.
  induction count as [|count IH]; intros i; [reflexivity|].
  unfold dataset_images in *. cbn [seq map concat].
  rewrite length_app, length_file_images, IH. reflexivity.
Qed.

Lemma length_dataset_labels fs : forall count i,
  length (dataset_labels fs i count) = count * Go.numImagesPerBatch.
Proof.
  induction count as [|count IH]; intros i; [reflexivity|].
  unfold dataset_labels in *. cbn [seq map concat].
  rewrite length_app, length_file_labels, IH. reflexivity.
Qed.

(** Image [j] of file [i + k]. *)
Lemma dataset_images_lookup fs : forall count i k j,
  k < count -> j < Go.numImagesPerBatch ->
  dataset_images fs i count !! (k * Go.numImagesPerBatch + j)
  = Some (record_image (content fs (i + k)) j).
Proof.
  induction count as [|count IH]; intros i k j Hk Hj; [lia|].
  unfold dataset_images in *. cbn [seq map concat].
  destruct k as [|k].
  - rewrite lookup_app_l by (rewrite length_file_images; lia).
    unfold file_images. rewrite list_lookup_fmap, lookup_seq_lt by lia.
    rewrite Nat.add_0_r. reflexivity.
  - rewrite lookup_app_r by (rewrite length_file_images; lia).
    rewrite length_file_images.
    replace (S k * Go.numImagesPerBatch + j - Go.numImagesPerBatch)
      with (k * Go.numImagesPerBatch + j) by lia.
    rewrite IH by lia. do 3 f_equal. lia.
Qed.

Lemma dataset_labels_lookup fs : forall count i k j,
  k < count -> j < Go.numImagesPerBatch ->
  dataset_labels fs i count !! (k * Go.numImagesPerBatch + j)
  = Some (record_label (content fs (i + k)) j).
Proof.
  induction count as [|count IH]; intros i k j Hk Hj; [lia|].
  unfold dataset_labels in *. cbn [seq map concat].
  destruct k as [|k].
  - rewrite lookup_app_l by (rewrite length_file_labels; lia).
    unfold file_labels. rewrite list_lookup_fmap, lookup_seq_lt by lia.
    rewrite Nat.add_0_r. reflexivity.
  - rewrite lookup_app_r by (rewrite length_file_labels; lia).
    rewrite length_file_labels.
    replace (S k * Go.numImagesPerBatch + j - Go.numImagesPerBatch)
      with (k * Go.numImagesPerBatch + j) by lia.
    rewrite IH by lia. do 3 f_equal. lia.
Qed.

(** A record that lies in the file gives an image of [imageSize] loaded
    pixels. *)
Lemma record_image_length data j :
  (j + 1) * (Go.imageSize + 1) <= length data ->
  length (record_image data j) = Go.imageSize.
Proof.
  intros H. unfold record_image. rewrite length_map, length_take, length_drop. lia.
Qed.

Lemma record_image_loaded data j : Forall F32.loaded (record_image data j).
Proof.
  unfold record_image. apply Forall_fmap, Forall_true. intros b. exists b. reflexivity.
Qed.

(** Bytes after the last record play no part. *)
Lemma record_image_take data j n :
  (j + 1) * (Go.imageSize + 1) <= n ->
  record_image (take n data) j = record_image data j.
Proof.
  intros H. unfold record_image. f_equal.
  apply list_eq. intros p.
  destruct (decide (p < Go.imageSize)) as [Hp | Hp].
  - rewrite !lookup_take_lt, !lookup_drop by exact Hp.
    apply lookup_take_lt. lia.
  - rewrite !lookup_take_ge by lia. reflexivity.
Qed.

Lemma record_label_take data j n :
  (j + 1) * (Go.imageSize + 1) <= n ->
  record_label (take n data) j = record_label data j.
Proof.
  intros H. unfold record_label. rewrite lookup_take_lt by lia. reflexivity.
Qed.

(** ** Java *)

Import JavaCifar.

Lemma read_pixels_spec : forall count dis,
  count <= length dis ->
  read_pixels count dis
  = Returns (map (fun b => F32.pixel (F32.byte_value b)) (take count dis),
             drop count dis).
Proof.
  induction count as [|count IH]; intros dis Hlen.
  - rewrite take_0, drop_0. reflexivity.
  - destruct dis as [|b dis]; [cbn in Hlen; lia|].
    cbn [read_pixels readByte mbind completion_bind].
    rewrite IH by (cbn in Hlen; lia). reflexivity.
Qed.

Lemma record_images_cons b dis count :
  map (record_image (b :: dis)) (seq 0 (S count))
  = map (fun b => F32.pixel (F32.byte_value b)) (take IMAGE_SIZE dis)
      :: map (record_image (drop IMAGE_SIZE dis)) (seq 0 count).
Proof.
  cbn [seq map]. apply (f_equal2 cons); [reflexivity|].
  rewrite <- seq_shift, map_map. apply map_ext. intros j.
  unfold record_image. do 2 f_equal.
  replace (S j * (Go.imageSize + 1) + 1)
    with (S (IMAGE_SIZE + (j * (Go.imageSize + 1) + 1)))
    by (rewrite imageSize_eq; lia).
  rewrite skipn_cons, drop_drop. reflexivity.
Qed.

Lemma read_records_spec : forall count dis allBatches,
  count * (1 + IMAGE_SIZE) <= length dis ->
  read_records count dis allBatches
  = Returns (allBatches
               ++ singleton_batches (map (record_image dis) (seq 0 count))).
Proof.
  induction count as [|count IH]; intros dis allBatches Hlen.
  - cbn. rewrite app_nil_r. reflexivity.
  - cbn [read_records].
    destruct (Nat.ltb_spec (length dis) (1 + IMAGE_SIZE)); [lia|].
    destruct dis as [|b dis]; [cbn in *; lia|].
    cbn [readByte mbind completion_bind].
    rewrite read_pixels_spec by (cbn [length] in *; lia).
    cbn [mbind completion_bind].
    rewrite IH by (rewrite length_drop; cbn [length] in Hlen; lia).
    rewrite record_images_cons. unfold singleton_batches. cbn [map].
    rewrite <- app_assoc. reflexivity.
Qed.

Lemma read_files_spec fs : forall count i allBatches,
  (forall k, i <= k < i + count -> complete fs k) ->
  read_files count i fs allBatches
  = Returns (allBatches ++ singleton_batches (dataset_images fs i count)).
Proof.
  induction count as [|count IH]; intros i allBatches Hfs.
  - cbn. rewrite app_nil_r. reflexivity.
  - cbn [read_files].
    destruct (Hfs i ltac:(lia)) as (d & Hd & Hlen). rewrite Hd.
    pose proof expected_size_eq as He. unfold expected_size in He.
    destruct (Z.ltb_spec (Z.of_nat (length d))
                (Z.of_nat NUM_IMAGES_PER_BATCH * (1 + Z.of_nat IMAGE_SIZE))); [nia|].
    rewrite read_records_spec by lia.
    cbn [mbind completion_bind].
    rewrite IH by (intros k Hk; apply Hfs; lia).
    unfold dataset_images, content. cbn [seq map concat]. rewrite Hd.
    unfold singleton_batches. rewrite map_app, <- app_assoc. reflexivity.
Qed.

Lemma loadCifar10Dataset_spec fs :
  (forall i, 1 <= i <= 5 -> complete fs i) ->
  loadCifar10Dataset fs
  = Returns (singleton_batches (dataset_images fs 1 5)).
Proof.
  intros Hfs. unfold loadCifar10Dataset.
  rewrite read_files_spec by (intros k Hk; apply Hfs; lia).
  rewrite app_nil_l. reflexivity.
Qed.

Lemma concat_singleton_batches (l : list Vector) :
  concat (singleton_batches l) = l.
Proof.
  unfold singleton_batches. induction l as [|a l IH]; [reflexivity|].
  cbn [map concat app]. rewrite IH. reflexivity.
Qed.

Lemma read_files_Returns_inv fs : forall count i allBatches batches,
  read_files count i fs allBatches = Returns batches ->
  forall k, i <= k < i + count -> complete fs k.
Proof.
  intros count i allBatches batches H k Hk.
  destruct (fs k) as [d|] eqn:Hd.
  - destruct (Nat.le_gt_cases Go.expected_size (length d)) as [Hfit | Hshort].
    + exists d. auto.
    + destruct (read_files_short fs k count i allBatches Hk) as [msg E].
      * unfold file_length. rewrite Hd, expected_size_eq. exact Hshort.
      * rewrite E in H. discriminate.
  - destruct (read_files_short fs k count i allBatches Hk) as [msg E].
    + unfold file_length. rewrite Hd, expected_size_eq.
      unfold Go.expected_size. pose proof numImagesPerBatch_pos. lia.
    + rewrite E in H. discriminate.
Qed.

(** The loader returns, or throws [IOException]: the test of
    [dis.available()] never fires behind the test of the file size. *)
Lemma read_files_outcome fs : forall count i allBatches,
  (exists batches, read_files count i fs allBatches = Returns batches) \/
  (exists msg, read_files count i fs allBatches = Throws (IOException msg)).
Proof.
  induction count as [|count IH]; intros i allBatches.
  - left. eexists. reflexivity.
  - cbn [read_files].
    match goal with |- context [if ?c then _ else _] => destruct c eqn:Hlt end;
      [right; eexists; reflexivity|].
    apply Z.ltb_ge in Hlt.
    destruct (fs i) as [d|].
    + rewrite read_records_spec by lia. cbn [mbind completion_bind]. apply IH.
    + pose proof NUM_IMAGES_PER_BATCH_pos. lia.
Qed.

End LoaderFacts2.

(** ** Go: [main] from the data files to the last run *)

Module GoMainFacts.

Import Go GoFacts GoFacts2 LoaderFacts LoaderFacts2 CifarFile.

Local Open Scope nat_scope.

Lemma run_rows_full batchSize rows :
  batched batchSize (length rows) = length rows ->
  run_rows batchSize rows = map SimulateImageProcessing rows.
Proof.
  intros H. unfold run_rows. rewrite H, take_ge, drop_ge by lia.
  apply app_nil_r.
Qed.

Lemma iter_run_rows_full batchSize rows : forall r,
  batched batchSize (length rows) = length rows ->
  Nat.iter r (run_rows batchSize) rows
  = map (Nat.iter r SimulateImageProcessing) rows.
Proof.
  induction r as [|r IH]; intros H.
  - cbn. symmetry. apply map_id.
  - change (Nat.iter (S r) (run_rows batchSize) rows)
      with (run_rows batchSize (Nat.iter r (run_rows batchSize) rows)).
    rewrite IH by exact H.
    rewrite run_rows_full by (rewrite length_map; exact H).
    rewrite map_map. reflexivity.
Qed.

(** The dataset of [main]: 50000 images, all of them in batches. *)
Lemma dataset_batched :
  batched batchSize_const (5 * numImagesPerBatch) = 5 * numImagesPerBatch.
Proof.
  unfold batched, batchSize_const, numImagesPerBatch.
  replace (5 * Z.to_nat 10000) with (100 * 500) by lia.
  rewrite Nat.div_mul by lia. reflexivity.
Qed.

Local Opaque Go.numImagesPerBatch.

(** The first file that is not complete decides how the loader ends. *)
Lemma load_files_unreadable fs i0 : forall count i acc,
  i <= i0 < i + count ->
  (forall k, i <= k < i0 -> complete fs k) ->
  fs i0 = None ->
  load_files count i fs acc = Err "failed to read file".
Proof.
  induction count as [|count IH]; intros i acc Hi Hbefore Hnone; [lia|].
  cbn [load_files]. destruct (decide (i = i0)) as [-> | Hne].
  - rewrite Hnone. reflexivity.
  - destruct (Hbefore i ltac:(lia)) as (d & Hd & Hlen). rewrite Hd.
    rewrite load_records_spec by exact Hlen. cbn [mbind result_bind].
    apply IH; [lia | | exact Hnone]. intros k Hk. apply Hbefore. lia.
Qed.

Section Loop.
Context {Label : Type}.
Variable batchSize : nat.
Variable clock : nat -> Z.
Hypothesis batchSize_pos : 0 < batchSize.
Variable labels : list Label.
Variable env : nat -> Probe.

(** The first CPU probe that fails ends the process. *)
Lemma main_loop_fatal j : forall count i w tot,
  batched batchSize (length (heap w)) <= length labels ->
  i <= j < i + count ->
  (forall k, i <= k < j -> exists cpu, p_cpu (env k) = Ok cpu) ->
  (forall cpu, p_cpu (env j) <> Ok cpu) ->
  main_loop batchSize clock count i env labels w tot
  = Fatal "Error calculating CPU usage".
Proof.
  induction count as [|count IH]; intros i w tot HL Hj Hbefore Hfail; [lia|].
  cbn [main_loop].
  rewrite (main_iteration_spec batchSize clock batchSize_pos) by assumption.
  destruct (decide (i = j)) as [-> | Hne].
  - destruct (p_cpu (env j)) as [cpu | | |]; [|reflexivity..].
    exfalso. apply (Hfail cpu). reflexivity.
  - destruct (Hbefore i ltac:(lia)) as [cpu ->]. cbn [mbind result_bind].
    rewrite IH; [reflexivity | | lia | | exact Hfail].
    + cbn [heap]. rewrite (length_run_rows batchSize batchSize_pos). assumption.
    + intros k Hk. apply Hbefore. lia.
Qed.

End Loop.

End GoMainFacts.

(** ** Go: the Tiny-ImageNet loader *)

Module GoTinyFacts.

Import Go GoTiny.

Local Open Scope nat_scope.

Lemma length_triple img y x : length (triple img y x) = 3.
Proof. unfold triple. destruct (At img x y) as [[r g] b]. reflexivity. Qed.

Lemma length_row_values img y : forall count x,
  length (row_values img y x count) = 3 * count.
Proof.
  induction count as [|count IH]; intros x; [reflexivity|].
  unfold row_values in *. cbn [seq map concat].
  rewrite length_app, length_triple, IH. lia.
Qed.

Lemma length_rows_values img : forall count y,
  length (rows_values img y count) = 3 * (Dx img * count).
Proof.
  induction count as [|count IH]; intros y.
  - cbn. lia.
  - unfold rows_values in *. cbn [seq map concat].
    rewrite length_app, length_row_values, IH. lia.
Qed.

(** A slice rewritten from [idx] on, cut after the part rewritten. *)
Lemma take_splice {A} (l m r : list A) idx n :
  idx <= length l -> length m = n ->
  take (idx + n) (take idx l ++ m ++ r) = take idx l ++ m.
Proof.
  intros Hl Hm. rewrite app_assoc. apply take_app_length'.
  rewrite length_app, length_take. lia.
Qed.

Lemma drop_splice {A} (l m r : list A) idx n k :
  idx <= length l -> length m = n ->
  drop (idx + n + k) (take idx l ++ m ++ r) = drop k r.
Proof.
  intros Hl Hm. rewrite app_assoc. apply drop_app_add'.
  rewrite length_app, length_take. lia.
Qed.

(** Three stores in a row. *)
Lemma assign3 (pixels : Vector) idx a b c :
  idx + 3 <= length pixels ->
  (p1 ← GoSlice.assign pixels idx a;
   p2 ← GoSlice.assign p1 (idx + 1) b;
   GoSlice.assign p2 (idx + 2) c)
  = Ok (take idx pixels ++ [a; b; c] ++ drop (idx + 3) pixels).
Proof.
  intros H. unfold GoSlice.assign.
  destruct (Nat.ltb_spec idx (length pixels)); [|lia].
  cbn [mbind result_bind]. rewrite length_insert.
  destruct (Nat.ltb_spec (idx + 1) (length pixels)); [|lia].
  cbn [mbind result_bind]. rewrite !length_insert.
  destruct (Nat.ltb_spec (idx + 2) (length pixels)); [|lia].
  f_equal. apply list_eq. intros i.
  destruct (decide (i < idx)) as [Hlt | Hge].
  - rewrite lookup_app_l by (rewrite length_take; lia).
    rewrite lookup_take_lt by lia.
    rewrite !list_lookup_insert_ne by lia. reflexivity.
  - rewrite lookup_app_r by (rewrite length_take; lia).
    rewrite length_take, Nat.min_l by lia.
    destruct (decide (i = idx)) as [-> | N0].
    { rewrite Nat.sub_diag. cbn.
      rewrite !list_lookup_insert_ne by lia.
      apply list_lookup_insert_eq. lia. }
    destruct (decide (i = idx + 1)) as [-> | N1].
    { replace (idx + 1 - idx) with 1 by lia. cbn.
      rewrite list_lookup_insert_ne by lia.
      apply list_lookup_insert_eq. rewrite length_insert. lia. }
    destruct (decide (i = idx + 2)) as [-> | N2].
    { replace (idx + 2 - idx) with 2 by lia. cbn.
      apply list_lookup_insert_eq. rewrite !length_insert. lia. }
    rewrite !list_lookup_insert_ne by lia.
    rewrite (lookup_app_r [a; b; c]) by (cbn [length]; lia).
    cbn [length]. rewrite lookup_drop. f_equal. lia.
Qed.

Lemma assign3_short (pixels : Vector) idx a b c :
  length pixels < idx + 3 ->
  (p1 ← GoSlice.assign pixels idx a;
   p2 ← GoSlice.assign p1 (idx + 1) b;
   GoSlice.assign p2 (idx + 2) c)
  = Panic "index out of range".
Proof.
  intros H. unfold GoSlice.assign.
  destruct (Nat.ltb_spec idx (length pixels)); [|reflexivity].
  cbn [mbind result_bind]. rewrite length_insert.
  destruct (Nat.ltb_spec (idx + 1) (length pixels)); [|reflexivity].
  cbn [mbind result_bind]. rewrite !length_insert.
  destruct (Nat.ltb_spec (idx + 2) (length pixels)); [lia | reflexivity].
Qed.

Lemma columns_step img y count x pixels idx :
  columns img y (S count) x pixels idx
  = (p ← (p1 ← GoSlice.assign pixels idx (channel (At img x y).1.1);
          p2 ← GoSlice.assign p1 (idx + 1) (channel (At img x y).1.2);
          GoSlice.assign p2 (idx + 2) (channel (At img x y).2));
     columns img y count (S x) p (idx + 3)).
Proof.
  cbn [columns]. destruct (At img x y) as [[r g] b]. cbn [fst snd].
  destruct (GoSlice.assign pixels idx (channel r)) as [p1| | |]; try reflexivity.
  cbn [mbind result_bind].
  destruct (GoSlice.assign p1 (idx + 1) (channel g)) as [p2| | |]; reflexivity.
Qed.

Lemma triple_eq img y x :
  triple img y x
  = [channel (At img x y).1.1; channel (At img x y).1.2; channel (At img x y).2].
Proof. unfold triple. destruct (At img x y) as [[r g] b]. reflexivity. Qed.

(** A row that fits is stored from [idx] on; the rest of the slice is
    kept. *)
Lemma columns_spec img y : forall count x pixels idx,
  idx + 3 * count <= length pixels ->
  columns img y count x pixels idx
  = Ok (take idx pixels ++ row_values img y x count
          ++ drop (idx + 3 * count) pixels,
        idx + 3 * count).
Proof.
  induction count as [|count IH]; intros x pixels idx H.
  - cbn [columns row_values seq map concat app].
    rewrite Nat.mul_0_r, Nat.add_0_r, take_drop. reflexivity.
  - rewrite columns_step, assign3 by lia. cbn [mbind result_bind].
    rewrite IH
      by (rewrite length_app, length_take; cbn [length app];
          rewrite length_drop; lia).
    rewrite (take_splice pixels _ _ idx 3) by (cbn [length]; lia || reflexivity).
    rewrite (drop_splice pixels _ _ idx 3 (3 * count))
      by (cbn [length]; lia || reflexivity).
    rewrite drop_drop.
    replace (idx + 3 + 3 * count) with (idx + 3 * S count) by lia.
    f_equal. f_equal.
    unfold row_values. cbn [seq map concat]. rewrite triple_eq.
    rewrite <- !app_assoc. reflexivity.
Qed.

(** A row that does not fit makes a store panic. *)
Lemma columns_short img y : forall count x pixels idx,
  idx <= length pixels -> length pixels < idx + 3 * count ->
  columns img y count x pixels idx = Panic "index out of range".
Proof.
  induction count as [|count IH]; intros x pixels idx Hidx H; [lia|].
  rewrite columns_step.
  destruct (Nat.le_gt_cases (idx + 3) (length pixels)) as [Hfit | Hshort].
  - rewrite assign3 by lia. cbn [mbind result_bind].
    apply IH; rewrite length_app, length_take; cbn [length app];
      rewrite length_drop; lia.
  - rewrite assign3_short by lia. reflexivity.
Qed.

Lemma rows_spec img : forall count y pixels idx,
  idx + 3 * (Dx img * count) <= length pixels ->
  rows img count y pixels idx
  = Ok (take idx pixels ++ rows_values img y count
          ++ drop (idx + 3 * (Dx img * count)) pixels,
        idx + 3 * (Dx img * count)).
Proof.
  induction count as [|count IH]; intros y pixels idx H.
  - cbn [rows rows_values seq map concat app].
    rewrite Nat.mul_0_r, Nat.mul_0_r, Nat.add_0_r, take_drop. reflexivity.
  - cbn [rows]. rewrite columns_spec by lia. cbn [mbind result_bind].
    rewrite IH
      by (rewrite length_app, length_take, length_app, length_row_values,
            length_drop; lia).
    rewrite (take_splice pixels _ _ idx (3 * Dx img))
      by (lia || apply length_row_values).
    rewrite (drop_splice pixels _ _ idx (3 * Dx img) (3 * (Dx img * count)))
      by (lia || apply length_row_values).
    rewrite drop_drop.
    replace (idx + 3 * Dx img + 3 * (Dx img * count))
      with (idx + 3 * (Dx img * S count)) by lia.
    f_equal. f_equal.
    unfold rows_values. cbn [seq map concat].
    rewrite <- !app_assoc. reflexivity.
Qed.

Lemma rows_short img : forall count y pixels idx,
  idx <= length pixels -> length pixels < idx + 3 * (Dx img * count) ->
  rows img count y pixels idx = Panic "index out of range".
Proof.
  induction count as [|count IH]; intros y pixels idx Hidx H; [lia|].
  cbn [rows].
  destruct (Nat.le_gt_cases (idx + 3 * Dx img) (length pixels)) as [Hfit | Hshort].
  - rewrite columns_spec by lia. cbn [mbind result_bind].
    apply IH;
      rewrite length_app, length_take, length_app, length_row_values, length_drop;
      lia.
  - rewrite columns_short by lia. reflexivity.
Qed.

(** The values of the pixel at [(x, y)] in the sequence of all values. *)
Lemma row_values_lookup img y : forall count x0 x c,
  x < count -> c < 3 ->
  row_values img y x0 count !! (3 * x + c) = triple img y (x0 + x) !! c.
Proof.
  induction count as [|count IH]; intros x0 x c Hx Hc; [lia|].
  unfold row_values in *. cbn [seq map concat].
  destruct x as [|x].
  - rewrite lookup_app_l by (rewrite length_triple; lia).
    rewrite Nat.add_0_r. reflexivity.
  - rewrite lookup_app_r by (rewrite length_triple; lia).
    rewrite length_triple.
    replace (3 * S x + c - 3) with (3 * x + c) by lia.
    rewrite IH by lia. do 2 f_equal. lia.
Qed.

Lemma rows_values_lookup img : forall count y0 y x c,
  y < count -> x < Dx img -> c < 3 ->
  rows_values img y0 count !! (3 * (y * Dx img + x) + c)
  = triple img (y0 + y) x !! c.
Proof.
  induction count as [|count IH]; intros y0 y x c Hy Hx Hc; [lia|].
  unfold rows_values in *. cbn [seq map concat].
  destruct y as [|y].
  - rewrite lookup_app_l by (rewrite length_row_values; lia).
    replace (3 * (0 * Dx img + x) + c) with (3 * x + c) by lia.
    rewrite row_values_lookup by lia.
    rewrite Nat.add_0_r. reflexivity.
  - rewrite lookup_app_r by (rewrite length_row_values; lia).
    rewrite length_row_values.
    replace (3 * (S y * Dx img + x) + c - 3 * Dx img)
      with (3 * (y * Dx img + x) + c) by lia.
    rewrite IH by lia. do 2 f_equal. lia.
Qed.

(** The walk, visit by visit. *)
Lemma loadImage_fits img dir :
  Dx img * Dy img <= imageHeight * imageWidth ->
  loadImage (Decodes img) dir
  = Ok (rows_values img 0 (Dy img)
          ++ replicate (imageHeight * imageWidth * channels
                        - 3 * (Dx img * Dy img)) zero,
        dir).
Proof.
  intros H. unfold loadImage.
  rewrite rows_spec by (rewrite length_replicate; unfold channels; lia).
  cbn [mbind result_bind Nat.add]. rewrite take_0, drop_replicate.
  reflexivity.
Qed.

Lemma loadImage_large img dir :
  imageHeight * imageWidth < Dx img * Dy img ->
  loadImage (Decodes img) dir = Panic "index out of range".
Proof.
  intros H. unfold loadImage.
  rewrite rows_short by (rewrite ?length_replicate; unfold channels; lia).
  reflexivity.
Qed.




End GoTinyFacts.

(** ** Log files *)

Module LogFacts.

Import Logs.

Local Open Scope string_scope.

Lemma append_assoc (a b c : string) : (a ++ b) ++ c = a ++ (b ++ c).
Proof. induction a as [|x a IH]; [reflexivity|]. cbn. rewrite IH. reflexivity. Qed.

Lemma append_nil_r (a : string) : a ++ "" = a.
Proof. induction a as [|x a IH]; [reflexivity|]. cbn. rewrite IH. reflexivity. Qed.

Lemma store_same d path content : store d path content path = Regular content.
Proof. unfold store. rewrite String.eqb_refl. reflexivity. Qed.

Lemma store_other d path content p :
  p <> path -> store d path content p = d p.
Proof.
  intros H. unfold store. destruct (String.eqb_spec p path); [congruence|].
  reflexivity.
Qed.

(** Successive appends to a file that opens. *)
Lemma append_all_spec stamps filePath : forall ms i d content,
  open_append d filePath = Some content ->
  open_append (append_all stamps i d filePath ms) filePath
    = Some (content ++ lines stamps i ms) /\
  forall p, p <> filePath -> append_all stamps i d filePath ms p = d p.
Proof.
  induction ms as [|m ms IH]; intros i d content Hopen.
  - cbn [append_all lines]. rewrite append_nil_r. auto.
  - cbn [append_all lines]. unfold AppendToLogFile. rewrite Hopen.
    cbn [fst].
    destruct (IH (S i) (store d filePath (content ++ stamps i ++ m ++ LF))
                (content ++ stamps i ++ m ++ LF)) as [H1 H2].
    { unfold open_append. rewrite store_same. reflexivity. }
    split.
    + rewrite H1. f_equal. rewrite !append_assoc. reflexivity.
    + intros p Hp. rewrite H2 by exact Hp. apply store_other. exact Hp.
Qed.

(** Successive appends to a path that does not open. *)
Lemma append_all_closed stamps filePath : forall ms i d,
  open_append d filePath = None ->
  append_all stamps i d filePath ms = d.
Proof.
  induction ms as [|m ms IH]; intros i d Hopen; [reflexivity|].
  cbn [append_all]. unfold AppendToLogFile. rewrite Hopen. cbn [fst].
  apply IH. exact Hopen.
Qed.

Lemma log_all_spec sep filePath : forall ms d c content,
  open_append d filePath = Some content ->
  open_append (log_all sep d c filePath ms).1 filePath
    = Some (content ++ printed sep ms) /\
  (log_all sep d c filePath ms).2
    = {| out := out c ++ ms; err := err c |} /\
  forall p, p <> filePath -> (log_all sep d c filePath ms).1 p = d p.
Proof.
  induction ms as [|m ms IH]; intros d c content Hopen.
  - cbn [log_all printed fst snd]. rewrite append_nil_r, app_nil_r.
    destruct c; auto.
  - cbn [log_all printed]. unfold logMessage. rewrite Hopen.
    destruct (IH (store d filePath (content ++ m ++ sep))
                {| out := out c ++ [m]; err := err c |}
                (content ++ m ++ sep)) as (H1 & H2 & H3).
    { unfold open_append. rewrite store_same. reflexivity. }
    split; [|split].
    + rewrite H1. f_equal. rewrite !append_assoc. reflexivity.
    + rewrite H2. cbn [out err]. rewrite <- app_assoc. reflexivity.
    + intros p Hp. rewrite H3 by exact Hp. apply store_other. exact Hp.
Qed.

Lemma log_all_closed sep filePath : forall ms d c,
  open_append d filePath = None ->
  log_all sep d c filePath ms
  = (d, {| out := out c;
           err := err c ++ replicate (length ms) "Failed to write log" |}).
Proof.
  induction ms as [|m ms IH]; intros d c Hopen.
  - cbn. rewrite app_nil_r. destruct c; reflexivity.
  - cbn [log_all]. unfold logMessage. rewrite Hopen.
    rewrite IH by exact Hopen. cbn [out err length replicate].
    rewrite <- app_assoc. reflexivity.
Qed.

End LogFacts.

(** ** Further properties of the programs *)

Module Extras.

Import F32Facts GoFacts GoFacts2 GoTotals GoTimedFacts GoMainFacts GoTinyFacts.
Import JavaFacts JavaFacts2 JavaQueueFacts JavaMainFacts JavaProgress.
Import JavaTinyFacts LogFacts LoaderFacts LoaderFacts2.

Local Open Scope nat_scope.

(** *** The Go fan-out: a small dataset, the counter, rows in progress *)

(** X2.  A dataset of fewer than [batchSize] images gives no batch: the
    run starts no goroutine, transforms nothing and needs no label, and
    still reads the clock four times and returns its two durations. *)
Theorem small_dataset_untouched (Label : Type) (batchSize : nat)
    (clock : nat -> Z) (sched : list nat) (labels : list Label)
    (w : Go.World) :
  length (Go.heap w) < batchSize ->
  Go.make_batches batchSize (length (Go.heap w)) (length labels) = Go.Ok [] /\
  Go.RunProcessingTask batchSize clock sched labels w
  = Go.Ok (Go.time_Sub (clock (2 + Go.ticks w)) (clock (1 + Go.ticks w)),
           Go.time_Sub (clock (3 + Go.ticks w)) (clock (Go.ticks w)),
           {| Go.heap := Go.heap w; Go.ticks := 4 + Go.ticks w |}).
Proof.
  intros Hsmall. assert (0 < batchSize) as Hpos by lia.
  pose proof (batched_small batchSize (length (Go.heap w)) Hsmall) as Hb.
  split.
  - rewrite (make_batches_spec batchSize Hpos) by lia.
    unfold Go.spec_batches. rewrite Nat.div_small by exact Hsmall. reflexivity.
  - rewrite (RunProcessingTask_spec batchSize clock Hpos) by lia.
    rewrite (run_rows_small batchSize) by exact Hsmall. reflexivity.
Qed.

(** The hypothesis of [small_dataset_untouched]: one image, batches of
    two, no label. *)
Lemma small_dataset_untouched_witness :
  Go.RunProcessingTask 2 Fixtures.ticking [0; 0] ([] : list Z)
    (Fixtures.fresh (Fixtures.all_ones 1))
  = Go.Ok (1%Z, 3%Z, {| Go.heap := Fixtures.all_ones 1; Go.ticks := 4 |}).
Proof.
  apply (proj2 (small_dataset_untouched Z 2 Fixtures.ticking [0; 0] []
                  (Fixtures.fresh (Fixtures.all_ones 1)) ltac:(cbn; lia))).
Defined.

(** X3.  At every moment of a run, whatever the order in which the
    goroutines have been resumed so far, the [WaitGroup] counter is the
    number of goroutines that have not returned: a goroutine that calls
    [wg.Done()] finds the counter positive, and the counter is zero
    exactly when every goroutine has returned. *)
Theorem waitgroup_counts_running (batchSize : nat) (rows : list Go.Vector)
    (sched : list nat) :
  0 < batchSize ->
  let st := Go.exec sched
              (Go.spawn (Go.spec_batches batchSize (length rows)) rows) in
  Go.wg st = length (filter (fun g => Go.running g = true) (Go.pool st)) /\
  length (Go.pool st) = length rows / batchSize /\
  (forall k g, Go.pool st !! k = Some g -> Go.g_done g = false ->
     0 < Go.wg st) /\
  (Go.wg st = 0 <-> Forall (fun g => Go.g_done g = true) (Go.pool st)).
Proof.
  intros Hpos st.
  destruct (goroutines_inv batchSize Hpos rows sched _
              (spawn_inv batchSize Hpos rows)) as [Hfit _ _ Hwg].
  fold st in Hfit, Hwg. split; [exact Hwg|]. split; [exact Hfit|]. split.
  - intros k g Hk Hd. rewrite Hwg. eapply running_counted; eassumption.
  - rewrite Hwg. apply none_running.
Qed.

(** The hypothesis of [waitgroup_counts_running]: five images in batches
    of two, the second goroutine resumed three times and so returned. *)
Lemma waitgroup_counts_running_witness :
  Go.wg (Go.exec [1; 1; 1]
           (Go.spawn (Go.spec_batches 2 5) (Fixtures.all_ones 5))) = 1.
Proof.
  destruct (waitgroup_counts_running 2 (Fixtures.all_ones 5) [1; 1; 1]
              ltac:(lia)) as [H _].
  exact (eq_trans H eq_refl).
Defined.

(** X4.  At every moment of a run every row is either as it was or
    transformed once, never twice, and within each batch the transformed
    rows are the first ones: row [j] is transformed exactly when the
    goroutine of its batch has done more than [j mod batchSize]
    iterations.  The rows of the remainder have no goroutine. *)
Theorem rows_in_progress (batchSize : nat) (rows : list Go.Vector)
    (sched : list nat) :
  0 < batchSize ->
  let st := Go.exec sched
              (Go.spawn (Go.spec_batches batchSize (length rows)) rows) in
  exists iterations : nat -> nat,
    (forall k, iterations k <= batchSize) /\
    (forall k, length rows / batchSize <= k -> iterations k = 0) /\
    length (Go.mem st) = length rows /\
    forall j row, rows !! j = Some row ->
      Go.mem st !! j
      = Some (if j mod batchSize <? iterations (j / batchSize)
              then Go.SimulateImageProcessing row else row).
Proof.
  intros Hpos st.
  destruct (goroutines_inv batchSize Hpos rows sched _
              (spawn_inv batchSize Hpos rows)) as [Hfit Hpool Hmem _].
  fold st in Hfit, Hpool, Hmem.
  exists (fun k => match Go.pool st !! k with
                   | Some g => Go.g_i g
                   | None => 0
                   end).
  split; [|split; [|split]].
  - intros k. destruct (Go.pool st !! k) as [g|] eqn:Hk; [|lia].
    apply (Hpool k g Hk).
  - intros k Hk. rewrite lookup_ge_None_2 by lia. reflexivity.
  - rewrite Hmem. unfold Go.progress_rows. apply length_imap.
  - intros j row Hj. rewrite Hmem. unfold Go.progress_rows.
    rewrite list_lookup_imap, Hj. cbn [fmap option_fmap option_map].
    destruct (Go.pool st !! (j / batchSize)); reflexivity.
Qed.

(** The hypothesis of [rows_in_progress]: five images in batches of two;
    when the second goroutine has run once, only the third image is
    transformed. *)
Lemma rows_in_progress_witness :
  Go.mem (Go.exec [1]
            (Go.spawn (Go.spec_batches 2 5) (Fixtures.all_ones 5)))
  = [[F32.one]; [F32.one]; [F32.two]; [F32.one]; [F32.one]] /\
  exists iterations : nat -> nat, iterations 1 <= 2.
Proof.
  split; [reflexivity|].
  destruct (rows_in_progress 2 (Fixtures.all_ones 5) [1] ltac:(lia))
    as (iterations & H & _).
  exists iterations. apply H.
Defined.

(** *** The totals and the average of [main] *)

(** X5.  The memory total of the loop of [main] is the sum of the signed
    differences [Alloc after - Alloc before] of the runs, reduced modulo
    [2^64]: a run recorded as a huge value because memory shrank is
    compensated in the total, which is the true sum whenever that sum is
    not negative (and below [2^64]). *)
Theorem memory_total_is_modular_sum (Label : Type) (batchSize : nat)
    (clock : nat -> Z) (env : nat -> Go.Probe) (labels : list Label)
    (count : nat) (w w' : Go.World) (tot' : Go.Totals)
    (ms : list Go.RunMetrics) :
  0 < batchSize ->
  Go.batched batchSize (length (Go.heap w)) <= length labels ->
  Go.main_loop batchSize clock count 0 env labels w Go.zero_totals
    = Go.Ok (w', tot', ms) ->
  map Go.memoryUsage ms
    = map (fun d => (d mod 2 ^ 64)%Z) (Metrics.alloc_deltas env 0 count) /\
  Go.totalMemoryUsage tot'
    = (Metrics.sum (Metrics.alloc_deltas env 0 count) mod 2 ^ 64)%Z /\
  ((0 <= Metrics.sum (Metrics.alloc_deltas env 0 count) < 2 ^ 64)%Z ->
   Go.totalMemoryUsage tot'
     = Metrics.sum (Metrics.alloc_deltas env 0 count)).
Proof.
  intros Hpos HL Hrun.
  destruct (main_loop_memory batchSize clock Hpos labels env count 0 w
              Go.zero_totals w' tot' ms 0%Z HL eq_refl Hrun) as [Hms Htot].
  rewrite Z.add_0_l in Htot.
  split; [exact Hms|]. split; [exact Htot|].
  intros Hrange. rewrite Htot. apply Z.mod_small. exact Hrange.
Qed.

(** The hypotheses of [memory_total_is_modular_sum]: two runs over five
    images, memory shrinking by 1000 bytes in the first and growing by
    1000 in the second; the total is zero. *)
Lemma memory_total_is_modular_sum_witness :
  exists w' tot' ms,
    Go.main_loop 2 Fixtures.ticking 2 0
      (fun i => match i with 0 => Fixtures.shrinking | _ => Fixtures.calm end)
      Fixtures.five_labels (Fixtures.fresh (Fixtures.all_ones 5))
      Go.zero_totals = Go.Ok (w', tot', ms) /\
    map Go.memoryUsage ms = [18446744073709550616%Z; 1000%Z] /\
    Go.totalMemoryUsage tot' = 0%Z.
Proof.
  destruct (Go.main_loop 2 Fixtures.ticking 2 0
              (fun i => match i with 0 => Fixtures.shrinking | _ => Fixtures.calm end)
              Fixtures.five_labels (Fixtures.fresh (Fixtures.all_ones 5))
              Go.zero_totals) as [[[w' tot'] ms]| | |] eqn:Hrun;
    try (vm_compute in Hrun; discriminate).
  exists w', tot', ms. split; [reflexivity|].
  destruct (memory_total_is_modular_sum Z 2 Fixtures.ticking
              (fun i => match i with 0 => Fixtures.shrinking | _ => Fixtures.calm end)
              Fixtures.five_labels 2 (Fixtures.fresh (Fixtures.all_ones 5))
              w' tot' ms) as (H1 & _ & H3).
  - lia.
  - vm_compute. lia.
  - exact Hrun.
  - split; [exact H1|]. apply H3. vm_compute. split; [discriminate | reflexivity].
Defined.

(** X6.  With a clock that never goes back, and as long as the whole loop
    lasts less than the largest [Duration], the two time totals of [main]
    are the plain sums of what the runs returned, no run time is lost to
    wrap-around, the total execution time is at most the total overhead,
    and the total overhead is at most the time between the first and the
    last clock reading of the loop, which reads the clock six times per
    run. *)
Theorem time_totals_are_sums (Label : Type) (batchSize : nat)
    (clock : nat -> Z) (env : nat -> Go.Probe) (labels : list Label)
    (count : nat) (w w' : Go.World) (tot' : Go.Totals)
    (ms : list Go.RunMetrics) :
  0 < batchSize ->
  Go.batched batchSize (length (Go.heap w)) <= length labels ->
  Go.monotonic clock ->
  (clock (6 * count + Go.ticks w)%nat - clock (Go.ticks w) <= Go.maxDuration)%Z ->
  Go.main_loop batchSize clock count 0 env labels w Go.zero_totals
    = Go.Ok (w', tot', ms) ->
  Go.ticks w' = 6 * count + Go.ticks w /\
  Go.totalExecutionTime tot' = Metrics.sum (map Go.executionTime ms) /\
  Go.totalConcurrencyOverhead tot'
    = Metrics.sum (map Go.concurrencyOverhead ms) /\
  (0 <= Go.totalExecutionTime tot' <= Go.totalConcurrencyOverhead tot')%Z /\
  (Go.totalConcurrencyOverhead tot'
     <= clock (6 * count + Go.ticks w)%nat - clock (Go.ticks w))%Z.
Proof.
  intros Hpos HL Hmono Hfit Hrun.
  split; [eapply main_loop_ticks; eassumption|].
  destruct (main_loop_times batchSize clock Hpos labels env count 0 w
              Go.zero_totals w' tot' ms Hmono HL)
    as (T1 & T2 & T3 & T4);
    [ unfold Go.zero_totals;
      cbn [Go.totalExecutionTime Go.totalConcurrencyOverhead]; lia ..
    | exact Hrun |].
  cbn [Go.zero_totals Go.totalExecutionTime Go.totalConcurrencyOverhead]
    in T1, T2.
  rewrite Z.add_0_l in T1, T2. rewrite T1, T2. auto.
Qed.

(** The hypotheses of [time_totals_are_sums]: two runs over five images
    with a clock that ticks once per reading. *)
Lemma time_totals_are_sums_witness :
  exists w' tot' ms,
    Go.main_loop 2 Fixtures.ticking 2 0 (fun _ => Fixtures.calm)
      Fixtures.five_labels (Fixtures.fresh (Fixtures.all_ones 5))
      Go.zero_totals = Go.Ok (w', tot', ms) /\
    Go.ticks w' = 12 /\
    (0 <= Go.totalExecutionTime tot' <= Go.totalConcurrencyOverhead tot')%Z.
Proof.
  destruct (Go.main_loop 2 Fixtures.ticking 2 0 (fun _ => Fixtures.calm)
              Fixtures.five_labels (Fixtures.fresh (Fixtures.all_ones 5))
              Go.zero_totals) as [[[w' tot'] ms]| | |] eqn:Hrun;
    try (vm_compute in Hrun; discriminate).
  exists w', tot', ms. split; [reflexivity|].
  destruct (time_totals_are_sums Z 2 Fixtures.ticking (fun _ => Fixtures.calm)
              Fixtures.five_labels 2 (Fixtures.fresh (Fixtures.all_ones 5))
              w' tot' ms) as (H1 & _ & _ & H4 & _).
  - lia.
  - vm_compute. lia.
  - intros a b Hab. unfold Fixtures.ticking. lia.
  - vm_compute. discriminate.
  - exact Hrun.
  - split; [exact H1 | exact H4].
Defined.

(** X7.  The harness that only times the run ([go/cifar-10/main.go]):
    with a positive number of runs, a clock that never goes back and a
    loop that lasts less than the largest [Duration], [main] never writes
    [executionTimes] out of range; it records one execution time per run,
    in run order and none negative; the total is their sum; the average
    it logs is the total divided by the number of runs, rounded towards
    zero, and lies between the smallest and the largest run time; and
    every batched row has been transformed once per run. *)
Theorem average_of_run_times (Label : Type) (batchSize : nat)
    (clock : nat -> Z) (scheds : nat -> list nat) (labels : list Label)
    (runs : nat) (w : Go.World) :
  0 < batchSize -> 0 < runs ->
  Go.batched batchSize (length (Go.heap w)) <= length labels ->
  Go.monotonic clock ->
  (clock (2 * runs + Go.ticks w)%nat - clock (Go.ticks w) <= Go.maxDuration)%Z ->
  exists w' times total average,
    GoTimed.run_and_average batchSize clock runs scheds labels w
      = Go.Ok (w', times, total, average) /\
    times = GoTimed.durations clock (Go.ticks w) runs /\
    length times = runs /\
    Forall (fun d => (0 <= d)%Z) times /\
    total = Metrics.sum times /\
    average = Z.quot total (Z.of_nat runs) /\
    (forall lo hi, Forall (fun d => (lo <= d <= hi)%Z) times ->
       (lo <= average <= hi)%Z) /\
    Go.heap w' = Nat.iter runs (Go.run_rows batchSize) (Go.heap w).
Proof.
  intros Hpos Hruns HL Hmono Hfit.
  destruct (durations_sum clock runs (Go.ticks w) 0%Z Hmono ltac:(lia)
              ltac:(lia)) as (_ & S2 & _).
  pose proof (length_durations clock (Go.ticks w) runs) as Hlen.
  eexists _, _, _, _.
  split; [apply run_and_average_spec; assumption|].
  split; [reflexivity|]. split; [exact Hlen|]. split; [exact S2|].
  split; [reflexivity|]. split; [reflexivity|]. split; [|reflexivity].
  intros lo hi Hall.
  replace (Z.of_nat runs)
    with (Z.of_nat (length (GoTimed.durations clock (Go.ticks w) runs)))
    by (rewrite Hlen; reflexivity).
  apply quot_between; [|exact Hall].
  intros E. rewrite E in Hlen. cbn in Hlen. lia.
Qed.

(** The hypotheses of [average_of_run_times]: two runs over five images in
    batches of two with a clock that ticks once per reading; each run
    lasts one tick, and so does the average. *)
Lemma average_of_run_times_witness :
  exists w',
    GoTimed.run_and_average 2 Fixtures.ticking 2 (fun _ => [])
      Fixtures.five_labels (Fixtures.fresh (Fixtures.all_ones 5))
    = Go.Ok (w', [1; 1], 2, 1)%Z.
Proof.
  destruct (average_of_run_times Z 2 Fixtures.ticking (fun _ => [])
              Fixtures.five_labels 2 (Fixtures.fresh (Fixtures.all_ones 5)))
    as (w' & times & total & average & Hrun & Ht & _ & _ & Hs & Ha & _).
  - lia.
  - lia.
  - vm_compute. lia.
  - intros a b Hab. unfold Fixtures.ticking. lia.
  - vm_compute. discriminate.
  - exists w'. rewrite Hrun. subst average total times. reflexivity.
Defined.

(** *** The loaders *)

Section Loaders.

Local Opaque Go.numImagesPerBatch JavaCifar.NUM_IMAGES_PER_BATCH
  Go.imageSize JavaCifar.IMAGE_SIZE.

(** X8.  When the five data files can be read and hold at least
    [numImagesPerBatch] records each, [LoadCIFAR10] returns 50000 images
    and 50000 labels; image number [i * numImagesPerBatch + j] is the
    image of record [j] of file [i + 1], its [imageSize] pixels each
    [float32(b) / 255.0] for the byte [b] of the file, and the label at
    the same position is the first byte of that record.  Bytes after the
    last record play no part: two directories whose files agree on their
    first [expected_size] bytes load the same dataset. *)
Theorem LoadCIFAR10_reads_records (fs : nat -> option (list Byte.byte)) :
  (forall i, 1 <= i <= 5 -> CifarFile.complete fs i) ->
  exists images labels,
    Go.LoadCIFAR10 fs = Go.Ok (images, labels) /\
    length images = 5 * Go.numImagesPerBatch /\
    length labels = 5 * Go.numImagesPerBatch /\
    Forall (fun image => length image = Go.imageSize) images /\
    Forall (Forall F32.loaded) images /\
    (forall i j, i < 5 -> j < Go.numImagesPerBatch ->
       images !! (i * Go.numImagesPerBatch + j)
         = Some (CifarFile.record_image (CifarFile.content fs (1 + i)) j) /\
       labels !! (i * Go.numImagesPerBatch + j)
         = Some (CifarFile.record_label (CifarFile.content fs (1 + i)) j)) /\
    (forall fs' : nat -> option (list Byte.byte),
       (forall i, 1 <= i <= 5 ->
          CifarFile.complete fs' i /\
          take Go.expected_size (CifarFile.content fs' i)
            = take Go.expected_size (CifarFile.content fs i)) ->
       Go.LoadCIFAR10 fs' = Go.Ok (images, labels)).
Proof.
  intros Hfs.
  exists (CifarFile.dataset_images fs 1 5), (CifarFile.dataset_labels fs 1 5).
  assert (forall i j, i < 5 -> j < Go.numImagesPerBatch ->
            (j + 1) * (Go.imageSize + 1)
              <= length (CifarFile.content fs (1 + i))) as Hfit.
  { intros i j Hi Hj. destruct (Hfs (1 + i) ltac:(lia)) as (d & Hd & Hlen).
    unfold CifarFile.content. rewrite Hd.
    unfold Go.expected_size in Hlen. nia. }
  split; [|split; [|split; [|split; [|split; [|split]]]]].
  - apply LoadCIFAR10_spec. exact Hfs.
  - apply length_dataset_images.
  - apply length_dataset_labels.
  - apply Forall_lookup. intros p image Hp.
    pose proof numImagesPerBatch_pos as HN.
    pose proof (lookup_lt_Some _ _ _ Hp) as Hlt.
    rewrite length_dataset_images in Hlt.
    pose proof (Nat.div_mod_eq p Go.numImagesPerBatch) as Hdm.
    pose proof (Nat.mod_upper_bound p Go.numImagesPerBatch ltac:(lia)) as Hm.
    assert (p / Go.numImagesPerBatch < 5) as Hd
      by (apply Nat.Div0.div_lt_upper_bound; lia).
    rewrite Hdm, (Nat.mul_comm Go.numImagesPerBatch) in Hp.
    rewrite dataset_images_lookup in Hp by assumption.
    apply (inj Some) in Hp as <-.
    apply record_image_length. apply Hfit; [exact Hd | exact Hm].
  - apply Forall_lookup. intros p image Hp.
    pose proof numImagesPerBatch_pos as HN.
    pose proof (lookup_lt_Some _ _ _ Hp) as Hlt.
    rewrite length_dataset_images in Hlt.
    pose proof (Nat.div_mod_eq p Go.numImagesPerBatch) as Hdm.
    pose proof (Nat.mod_upper_bound p Go.numImagesPerBatch ltac:(lia)) as Hm.
    assert (p / Go.numImagesPerBatch < 5) as Hd
      by (apply Nat.Div0.div_lt_upper_bound; lia).
    rewrite Hdm, (Nat.mul_comm Go.numImagesPerBatch) in Hp.
    rewrite dataset_images_lookup in Hp by assumption.
    apply (inj Some) in Hp as <-. apply record_image_loaded.
  - intros i j Hi Hj. split.
    + apply dataset_images_lookup; assumption.
    + apply dataset_labels_lookup; assumption.
  - intros fs' Hfs'.
    rewrite LoadCIFAR10_spec by (intros k Hk; apply Hfs'; exact Hk).
    replace (CifarFile.dataset_images fs' 1 5)
      with (CifarFile.dataset_images fs 1 5);
      [replace (CifarFile.dataset_labels fs' 1 5)
         with (CifarFile.dataset_labels fs 1 5); [reflexivity|] |].
    + unfold CifarFile.dataset_labels. apply (f_equal (@concat Z)). apply map_ext_in.
      intros k Hk. apply in_seq in Hk.
      destruct (Hfs' k ltac:(lia)) as [_ Htake].
      unfold CifarFile.file_labels. apply map_ext_in. intros j Hj.
      apply in_seq in Hj.
      rewrite <- (record_label_take (CifarFile.content fs' k) j Go.expected_size),
              <- (record_label_take (CifarFile.content fs k) j Go.expected_size),
              Htake; [reflexivity | |]; unfold Go.expected_size; nia.
    + unfold CifarFile.dataset_images. apply (f_equal (@concat Go.Vector)). apply map_ext_in.
      intros k Hk. apply in_seq in Hk.
      destruct (Hfs' k ltac:(lia)) as [_ Htake].
      unfold CifarFile.file_images. apply map_ext_in. intros j Hj.
      apply in_seq in Hj.
      rewrite <- (record_image_take (CifarFile.content fs' k) j Go.expected_size),
              <- (record_image_take (CifarFile.content fs k) j Go.expected_size),
              Htake; [reflexivity | |]; unfold Go.expected_size; nia.
Qed.

(** The hypothesis of [LoadCIFAR10_reads_records]: five files of zeros of
    the expected size; the first image starts with the pixel 0.0. *)
Lemma LoadCIFAR10_reads_records_witness :
  exists images labels,
    Go.LoadCIFAR10 Fixtures.zero_files = Go.Ok (images, labels) /\
    length images = 5 * Go.numImagesPerBatch /\
    Forall (fun image => length image = Go.imageSize) images.
Proof.
  destruct (LoadCIFAR10_reads_records Fixtures.zero_files)
    as (images & labels & H1 & H2 & _ & H4 & _).
  - intros i _. exists JavaCifar.zero_file. split; [reflexivity|].
    unfold JavaCifar.zero_file. rewrite length_replicate, expected_size_eq.
    apply Nat.le_refl.
  - exists images, labels. auto.
Defined.

(** X9.  The two CIFAR-10 loaders read the same dataset.  When the five
    files can be read and hold at least [numImagesPerBatch] records each,
    both return, the Java loader with the images of the Go loader in the
    same order, each one wrapped in a batch of its own.  The Java loader
    returns in no other case, so that whenever it returns the Go loader
    returns too, with the images of its batches. *)
Theorem loaders_agree (fs : nat -> option (list Byte.byte)) :
  ((forall i, 1 <= i <= 5 -> CifarFile.complete fs i) ->
   exists images labels,
     Go.LoadCIFAR10 fs = Go.Ok (images, labels) /\
     JavaCifar.loadCifar10Dataset fs
       = JavaCifar.Returns (JavaCifar.singleton_batches images)) /\
  (forall batches,
     JavaCifar.loadCifar10Dataset fs = JavaCifar.Returns batches ->
     (forall i, 1 <= i <= 5 -> CifarFile.complete fs i) /\
     exists labels, Go.LoadCIFAR10 fs = Go.Ok (concat batches, labels)).
Proof.
  split.
  - intros Hfs. eexists _, _. split; [apply LoadCIFAR10_spec; exact Hfs|].
    apply loadCifar10Dataset_spec. exact Hfs.
  - intros batches H.
    assert (forall i, 1 <= i <= 5 -> CifarFile.complete fs i) as Hfs.
    { intros i Hi. apply (read_files_Returns_inv fs 5 1 _ _ H). lia. }
    split; [exact Hfs|].
    rewrite loadCifar10Dataset_spec in H by exact Hfs.
    apply Returns_inj in H as <-.
    exists (CifarFile.dataset_labels fs 1 5).
    rewrite concat_singleton_batches. apply LoadCIFAR10_spec. exact Hfs.
Qed.

(** The hypotheses of [loaders_agree]: on five files of zeros of the
    expected size both loaders return, with the same images. *)
Lemma loaders_agree_witness :
  exists images labels,
    Go.LoadCIFAR10 Fixtures.zero_files = Go.Ok (images, labels) /\
    JavaCifar.loadCifar10Dataset Fixtures.zero_files
      = JavaCifar.Returns (JavaCifar.singleton_batches images).
Proof.
  apply (proj1 (loaders_agree Fixtures.zero_files)).
  intros i _. exists JavaCifar.zero_file. split; [reflexivity|].
  unfold JavaCifar.zero_file. rewrite length_replicate, expected_size_eq.
  apply Nat.le_refl.
Defined.

(** X10.  The Java loader ends in one of two ways: it returns, or it
    throws [IOException] for the first file that is missing or smaller
    than [NUM_IMAGES_PER_BATCH] records.  Behind that test the stream
    never runs short, so the [EOFException] of the inner loop is never
    thrown; and a loader that returns has read
    [5 * NUM_IMAGES_PER_BATCH] images of [IMAGE_SIZE] pixels. *)
Theorem java_loader_outcomes (fs : nat -> option (list Byte.byte)) :
  ((exists batches,
      JavaCifar.loadCifar10Dataset fs = JavaCifar.Returns batches) \/
   (exists msg,
      JavaCifar.loadCifar10Dataset fs
        = JavaCifar.Throws (JavaCifar.IOException msg))) /\
  (forall batches,
     JavaCifar.loadCifar10Dataset fs = JavaCifar.Returns batches ->
     length batches = 5 * JavaCifar.NUM_IMAGES_PER_BATCH /\
     Forall (fun batch =>
               exists image, batch = [image] /\
                             length image = JavaCifar.IMAGE_SIZE) batches).
Proof.
  split; [apply read_files_outcome|].
  intros batches H. unfold JavaCifar.loadCifar10Dataset in H.
  destruct (read_files_total fs 5 1 []) as (images & E & Hn & Himgs).
  { intros k Hk.
    destruct (read_files_Returns_inv fs 5 1 _ _ H k Hk) as (d & Hd & Hlen).
    unfold JavaCifar.file_length. rewrite Hd, expected_size_eq. exact Hlen. }
  rewrite E in H. apply Returns_inj in H as <-. cbn [app].
  unfold JavaCifar.singleton_batches. rewrite length_map. split; [exact Hn|].
  apply Forall_fmap. eapply Forall_impl; [exact Himgs|].
  intros image [Hl _]. exists image. split; [reflexivity | exact Hl].
Qed.

(** The hypothesis of [java_loader_outcomes]: the loader returns on five
    files of zeros of the expected size. *)
Lemma java_loader_outcomes_witness :
  exists batches,
    JavaCifar.loadCifar10Dataset Fixtures.zero_files
      = JavaCifar.Returns batches /\
    length batches = 5 * JavaCifar.NUM_IMAGES_PER_BATCH.
Proof.
  assert (forall i, 1 <= i <= 5 -> CifarFile.complete Fixtures.zero_files i)
    as Hfs.
  { intros i _. exists JavaCifar.zero_file. split; [reflexivity|].
    unfold JavaCifar.zero_file. rewrite length_replicate, expected_size_eq.
    apply Nat.le_refl. }
  eexists. split; [apply loadCifar10Dataset_spec; exact Hfs|].
  apply (proj2 (java_loader_outcomes Fixtures.zero_files)).
  apply loadCifar10Dataset_spec. exact Hfs.
Defined.

(** *** [main] of the Go harness with metrics *)

(** X11.  When the five data files are complete and every CPU probe
    answers, [main] runs to its end: the loader returns 50000 images,
    which [batchSize] divides, so that no image is left out; the loop
    records [numRuns] runs and reads the clock six times per run; and at
    the end every image has been transformed [numRuns] times. *)
Theorem main_runs_to_completion (clock : nat -> Z)
    (fs : nat -> option (list Byte.byte)) (env : nat -> Go.Probe) :
  (forall i, 1 <= i <= 5 -> CifarFile.complete fs i) ->
  (forall j, j < Go.numRuns -> exists cpu, Go.p_cpu (env j) = Go.Ok cpu) ->
  exists w' tot' ms,
    Go.main clock fs env = Go.Ok (w', tot', ms) /\
    length ms = Go.numRuns /\
    Go.ticks w' = 6 * Go.numRuns /\
    Go.batched Go.batchSize_const (length (CifarFile.dataset_images fs 1 5))
      = length (CifarFile.dataset_images fs 1 5) /\
    Go.heap w'
      = map (Nat.iter Go.numRuns Go.SimulateImageProcessing)
          (CifarFile.dataset_images fs 1 5).
Proof.
  intros Hfs Hcpu. unfold Go.main.
  rewrite LoadCIFAR10_spec by exact Hfs.
  assert (0 < Go.batchSize_const) as Hpos by (unfold Go.batchSize_const; lia).
  assert (Go.batched Go.batchSize_const
            (length (CifarFile.dataset_images fs 1 5))
          = length (CifarFile.dataset_images fs 1 5)) as Hb
    by (rewrite length_dataset_images; exact dataset_batched).
  set (w0 := {| Go.heap := CifarFile.dataset_images fs 1 5; Go.ticks := 0 |}).
  assert (Go.batched Go.batchSize_const (length (Go.heap w0))
          <= length (CifarFile.dataset_labels fs 1 5)) as HL.
  { cbn [w0 Go.heap]. rewrite Hb, length_dataset_images, length_dataset_labels.
    apply Nat.le_refl. }
  destruct (main_loop_total Go.batchSize_const clock Hpos
              (CifarFile.dataset_labels fs 1 5) env Go.numRuns 0 w0
              Go.zero_totals HL) as (w' & tot' & ms & Hrun).
  { intros j Hj. apply Hcpu. lia. }
  exists w', tot', ms. split; [exact Hrun|].
  destruct (main_loop_rows Go.batchSize_const clock Hpos _ env _ _ _ _ _ _ _
              HL Hrun) as [Hheap Hlen].
  split; [exact Hlen|]. split; [|split; [exact Hb|]].
  - rewrite (main_loop_ticks Go.batchSize_const clock Hpos _ env _ _ _ _ _ _ _
               HL Hrun). cbn [w0 Go.ticks]. lia.
  - rewrite Hheap. apply iter_run_rows_full. exact Hb.
Qed.

(** The hypotheses of [main_runs_to_completion]: five files of zeros of
    the expected size and probes that always answer. *)
Lemma main_runs_to_completion_witness :
  exists w' tot' ms,
    Go.main Fixtures.ticking Fixtures.zero_files (fun _ => Fixtures.calm)
      = Go.Ok (w', tot', ms) /\
    length ms = Go.numRuns.
Proof.
  destruct (main_runs_to_completion Fixtures.ticking Fixtures.zero_files
              (fun _ => Fixtures.calm)) as (w' & tot' & ms & H1 & H2 & _).
  - intros i _. exists JavaCifar.zero_file. split; [reflexivity|].
    unfold JavaCifar.zero_file. rewrite length_replicate, expected_size_eq.
    apply Nat.le_refl.
  - intros j _. eexists. reflexivity.
  - exists w', tot', ms. auto.
Defined.

(** X12.  [main] has two fatal exits.  When the first data file that is
    not complete cannot be read, the loader returns an error, the images
    of the files before it are dropped, and [main] ends through
    [log.Fatalf] before any run.  When the files are complete and the CPU
    probe of run [j] fails after those before it have answered, [main]
    ends through [log.Fatalf] in run [j] and reports no metrics. *)
Theorem main_fatal_exits (clock : nat -> Z)
    (fs : nat -> option (list Byte.byte)) (env : nat -> Go.Probe) :
  (forall i0, 1 <= i0 <= 5 ->
     (forall i, 1 <= i < i0 -> CifarFile.complete fs i) ->
     fs i0 = None ->
     Go.LoadCIFAR10 fs = Go.Err "failed to read file" /\
     Go.main clock fs env = Go.Fatal "Error loading CIFAR-10") /\
  (forall j, j < Go.numRuns ->
     (forall i, 1 <= i <= 5 -> CifarFile.complete fs i) ->
     (forall k, k < j -> exists cpu, Go.p_cpu (env k) = Go.Ok cpu) ->
     (forall cpu, Go.p_cpu (env j) <> Go.Ok cpu) ->
     Go.main clock fs env = Go.Fatal "Error calculating CPU usage").
Proof.
  split.
  - intros i0 Hi0 Hbefore Hnone.
    assert (Go.LoadCIFAR10 fs = Go.Err "failed to read file") as E.
    { unfold Go.LoadCIFAR10. apply (load_files_unreadable fs i0); [lia | | exact Hnone].
      intros k Hk. apply Hbefore. lia. }
    split; [exact E|]. unfold Go.main. rewrite E. reflexivity.
  - intros j Hj Hfs Hbefore Hfail. unfold Go.main.
    rewrite LoadCIFAR10_spec by exact Hfs.
    assert (0 < Go.batchSize_const) as Hpos by (unfold Go.batchSize_const; lia).
    apply (main_loop_fatal Go.batchSize_const clock Hpos _ env j).
    + cbn [Go.heap].
      rewrite length_dataset_images, dataset_batched, length_dataset_labels.
      apply Nat.le_refl.
    + lia.
    + intros k Hk. apply Hbefore. lia.
    + exact Hfail.
Qed.

(** The hypotheses of [main_fatal_exits]: a directory without its first
    file, and complete files with a CPU probe that fails in the third
    run. *)
Lemma main_fatal_exits_witness :
  Go.main Fixtures.ticking Fixtures.no_files (fun _ => Fixtures.calm)
    = Go.Fatal "Error loading CIFAR-10" /\
  Go.main Fixtures.ticking Fixtures.zero_files
    (fun k => if k =? 2 then
                {| Go.p_sched := []; Go.p_allocBefore := 0;
                   Go.p_allocAfter := 0; Go.p_cpu := Go.Err "cpu" |}
              else Fixtures.calm)
    = Go.Fatal "Error calculating CPU usage".
Proof.
  split.
  - apply (proj1 (main_fatal_exits Fixtures.ticking Fixtures.no_files
                    (fun _ => Fixtures.calm)) 1); [lia | | reflexivity].
    intros i Hi. lia.
  - apply (proj2 (main_fatal_exits Fixtures.ticking Fixtures.zero_files _) 2).
    + unfold Go.numRuns. lia.
    + intros i _. exists JavaCifar.zero_file. split; [reflexivity|].
      unfold JavaCifar.zero_file. rewrite length_replicate, expected_size_eq.
      apply Nat.le_refl.
    + intros k Hk. destruct k as [|[|k]]; [eexists; reflexivity.. | lia].
    + intros cpu. cbn. discriminate.
Defined.

(** X29.  [main] of the harness that only times the run
    ([go/cifar-10/main.go]).  When the five data files are complete, the
    clock never goes back and the loop lasts less than the largest
    [Duration], it runs to its end: it records [numRuns] execution times,
    one per run and in run order, logs as average their sum divided by
    [numRuns], and leaves every image transformed [numRuns] times.  When
    the first file that is not complete cannot be read it ends through
    [log.Fatalf] before any run. *)
Theorem timed_main_outcomes (clock : nat -> Z)
    (fs : nat -> option (list Byte.byte)) (scheds : nat -> list nat) :
  ((forall i, 1 <= i <= 5 -> CifarFile.complete fs i) ->
   Go.monotonic clock ->
   (clock (2 * Go.numRuns)%nat - clock 0%nat <= Go.maxDuration)%Z ->
   exists w' times,
     GoTimed.main clock fs scheds
       = Go.Ok (w', times, Metrics.sum times,
                Z.quot (Metrics.sum times) (Z.of_nat Go.numRuns)) /\
     times = GoTimed.durations clock 0 Go.numRuns /\
     length times = Go.numRuns /\
     Forall (fun d => (0 <= d)%Z) times /\
     Go.heap w'
       = map (Nat.iter Go.numRuns Go.SimulateImageProcessing)
           (CifarFile.dataset_images fs 1 5)) /\
  (forall i0, 1 <= i0 <= 5 ->
     (forall i, 1 <= i < i0 -> CifarFile.complete fs i) ->
     fs i0 = None ->
     GoTimed.main clock fs scheds = Go.Fatal "Error loading CIFAR-10").
Proof.
  split.
  - intros Hfs Hmono Hfit. unfold GoTimed.main.
    rewrite LoadCIFAR10_spec by exact Hfs.
    assert (0 < Go.batchSize_const) as Hpos
      by (unfold Go.batchSize_const; lia).
    assert (Go.batched Go.batchSize_const
              (length (CifarFile.dataset_images fs 1 5))
            = length (CifarFile.dataset_images fs 1 5)) as Hb
      by (rewrite length_dataset_images; exact dataset_batched).
    rewrite run_and_average_spec.
    + cbn [Go.heap Go.ticks]. eexists _, _. split; [reflexivity|].
      split; [reflexivity|]. split; [apply length_durations|].
      split; [|cbn [Go.heap]; apply iter_run_rows_full; exact Hb].
      apply (durations_sum clock Go.numRuns 0 0%Z Hmono); [lia|].
      rewrite Nat.add_0_r. lia.
    + exact Hpos.
    + unfold Go.numRuns. lia.
    + cbn [Go.heap].
      rewrite Hb, length_dataset_images, length_dataset_labels.
      apply Nat.le_refl.
    + exact Hmono.
    + cbn [Go.ticks]. rewrite Nat.add_0_r. exact Hfit.
  - intros i0 Hi0 Hbefore Hnone. unfold GoTimed.main, Go.LoadCIFAR10.
    rewrite (load_files_unreadable fs i0); [reflexivity | lia | | exact Hnone].
    intros k Hk. apply Hbefore. lia.
Qed.

(** The hypotheses of [timed_main_outcomes]: five files of zeros of the
    expected size with a clock that ticks once per reading, and a
    directory without files. *)
Lemma timed_main_outcomes_witness :
  (exists w' times,
     GoTimed.main Fixtures.ticking Fixtures.zero_files (fun _ => [])
       = Go.Ok (w', times, Metrics.sum times,
                Z.quot (Metrics.sum times) (Z.of_nat Go.numRuns)) /\
     length times = Go.numRuns) /\
  GoTimed.main Fixtures.ticking Fixtures.no_files (fun _ => [])
    = Go.Fatal "Error loading CIFAR-10".
Proof.
  split.
  - destruct (proj1 (timed_main_outcomes Fixtures.ticking Fixtures.zero_files
                       (fun _ => [])))
      as (w' & times & H1 & _ & H3 & _).
    + intros i _. exists JavaCifar.zero_file. split; [reflexivity|].
      unfold JavaCifar.zero_file. rewrite length_replicate, expected_size_eq.
      apply Nat.le_refl.
    + intros a b Hab. unfold Fixtures.ticking. lia.
    + vm_compute. discriminate.
    + exists w', times. auto.
  - apply (proj2 (timed_main_outcomes Fixtures.ticking Fixtures.no_files
                    (fun _ => [])) 1); [lia | | reflexivity].
    intros i Hi. lia.
Defined.

End Loaders.

(** *** The Go Tiny-ImageNet loader *)

(** X13.  For a decoded image of at most [imageHeight * imageWidth]
    pixels, [loadImage] returns [imageHeight * imageWidth * channels]
    values and the name of the directory: the three values of the pixel
    at [(x, y)] are [float32(c) / 65535.0] for its red, green and blue,
    stored from position [3 * (y * Dx + x)] on, so rows follow each other
    at the width of the image itself, and the positions after the last
    pixel keep the zero of [make]. *)
Theorem loadImage_layout (img : GoTiny.Image) (dir : string) :
  GoTiny.Dx img * GoTiny.Dy img <= GoTiny.imageHeight * GoTiny.imageWidth ->
  exists pixels : list F32.f32,
    GoTiny.loadImage (GoTiny.Decodes img) dir = Go.Ok (pixels, dir) /\
    length pixels
      = GoTiny.imageHeight * GoTiny.imageWidth * GoTiny.channels /\
    (forall x y c, x < GoTiny.Dx img -> y < GoTiny.Dy img -> c < 3 ->
       pixels !! (3 * (y * GoTiny.Dx img + x) + c)
       = GoTiny.triple img y x !! c) /\
    (forall i,
       3 * (GoTiny.Dx img * GoTiny.Dy img) <= i
         < GoTiny.imageHeight * GoTiny.imageWidth * GoTiny.channels ->
       pixels !! i = Some GoTiny.zero).
Proof.
  intros Hfit. eexists. split; [apply loadImage_fits; exact Hfit|].
  split; [|split].
  - rewrite length_app, length_rows_values, length_replicate.
    unfold GoTiny.channels. lia.
  - intros x y c Hx Hy Hc.
    rewrite lookup_app_l by (rewrite length_rows_values; nia).
    rewrite rows_values_lookup by assumption. reflexivity.
  - intros i Hi.
    rewrite lookup_app_r by (rewrite length_rows_values; lia).
    rewrite length_rows_values. apply lookup_replicate_2. lia.
Qed.

(** The hypothesis of [loadImage_layout] on an image of one pixel: full
    red is stored as 1.0, no green as 0.0, and the fourth value is the
    zero of [make]. *)
Lemma loadImage_layout_witness :
  exists pixels : list F32.f32,
    GoTiny.loadImage (GoTiny.Decodes Samples.one_pixel) "n01"
      = Go.Ok (pixels, "n01"%string) /\
    pixels !! 0 = Some F32.one /\
    pixels !! 1 = Some GoTiny.zero /\
    pixels !! 3 = Some GoTiny.zero.
Proof.
  destruct (loadImage_layout Samples.one_pixel "n01")
    as (pixels & H1 & _ & H3 & H4); [cbn; lia|].
  exists pixels. split; [exact H1|]. split; [|split].
  - apply (H3 0 0 0); cbn; lia.
  - apply (H3 0 0 1); cbn; lia.
  - apply (H4 3). cbn. lia.
Defined.

(** X14.  An image of more than [imageHeight * imageWidth] pixels makes
    [loadImage] panic: the store for the first pixel that does not fit is
    out of range, and no error is returned. *)
Theorem loadImage_panics_on_large_image (img : GoTiny.Image) (dir : string) :
  GoTiny.imageHeight * GoTiny.imageWidth < GoTiny.Dx img * GoTiny.Dy img ->
  GoTiny.loadImage (GoTiny.Decodes img) dir = Go.Panic "index out of range".
Proof. apply loadImage_large. Qed.

(** The hypothesis of [loadImage_panics_on_large_image]: an image of 65
    by 64 pixels. *)
Lemma loadImage_panics_on_large_image_witness :
  GoTiny.loadImage (GoTiny.Decodes Samples.too_wide) "n01"
  = Go.Panic "index out of range".
Proof.
  apply (loadImage_panics_on_large_image Samples.too_wide "n01").
  cbn. lia.
Defined.



(** *** The Java queue under any trace *)

(** X16.  Whatever the threads do, interrupts included, the queue never
    holds more than [capacity] batches: [queue.put] only adds to a queue
    that has room. *)
Theorem queue_is_bounded (nConsumers capacity : nat)
    (trace : list JavaCifar.Event) (allBatches : list JavaCifar.Batch)
    (h : list JavaCifar.Vector) :
  length (JavaCifar.queue
            (JavaCifar.exec capacity trace
               (JavaQueue.initial nConsumers allBatches h))) <= capacity.
Proof. apply exec_bounded. cbn. lia. Qed.

(** X17.  Whatever the threads do, interrupts included, no batch is lost
    and none is duplicated: at every moment the batches already processed,
    those in the hands of consumers, those in the queue and those the
    producer has not put are together the batches the run started with,
    and the arrays are what processing the first group once makes of
    them.  An interrupt can leave batches unprocessed, but it never makes
    one be processed twice or vanish. *)
Theorem batches_are_conserved (nConsumers capacity : nat)
    (trace : list JavaCifar.Event) (allBatches : list JavaCifar.Batch)
    (h : list JavaCifar.Vector) :
  let st := JavaCifar.exec capacity trace
              (JavaQueue.initial nConsumers allBatches h) in
  exists processed,
    JavaCifar.heap st = JavaCifar.process_all processed h /\
    processed ++ JavaCifar.held (JavaCifar.consumers st)
      ++ JavaCifar.queue st ++ JavaCifar.remaining (JavaCifar.producer st)
      ≡ₚ allBatches.
Proof.
  cbn zeta. apply (exec_conserved allBatches h capacity trace).
  apply initial_conserved.
Qed.

(** X18.  In a run without interrupts a consumer leaves its loop only
    when nothing is left to take: from the moment one consumer has
    returned, the flag is set, the queue is empty and the producer has put
    every batch, so every batch is processed or in the hands of another
    consumer. *)
Theorem exit_means_drained (nConsumers capacity : nat)
    (trace : list JavaCifar.Event) (allBatches : list JavaCifar.Batch)
    (h : list JavaCifar.Vector) :
  JavaCifar.undisturbed trace = true ->
  let st := JavaCifar.exec capacity trace
              (JavaQueue.initial nConsumers allBatches h) in
  JavaCifar.Exited ∈ JavaCifar.consumers st ->
  JavaCifar.isDoneProducing st = true /\
  JavaCifar.queue st = [] /\
  JavaCifar.producer st = JavaCifar.Finished [] /\
  exists processed,
    JavaCifar.heap st = JavaCifar.process_all processed h /\
    processed ++ JavaCifar.held (JavaCifar.consumers st) ≡ₚ allBatches.
Proof.
  intros Hquiet st Hexit.
  destruct (threads_inv allBatches h capacity trace _ Hquiet
              (start_inv allBatches h nConsumers))
    as [(processed & Hheap & Hperm) Hflag _ Hex].
  fold (JavaQueue.initial nConsumers allBatches h) in Hheap, Hperm, Hflag, Hex.
  fold st in Hheap, Hperm, Hflag, Hex.
  destruct (Hex Hexit) as [Hdone Hq].
  pose proof (proj1 Hflag Hdone) as Hp.
  split; [exact Hdone|]. split; [exact Hq|]. split; [exact Hp|].
  exists processed. split; [exact Hheap|].
  rewrite Hq, Hp in Hperm. cbn [JavaCifar.remaining app] in Hperm.
  rewrite app_nil_r in Hperm. exact Hperm.
Qed.

(** The hypotheses of [exit_means_drained]: one batch and two consumers;
    the producer puts the batch and ends, the second consumer takes the
    batch, and the first finds nothing and leaves while the second still
    holds it. *)
Lemma exit_means_drained_witness :
  let st := JavaCifar.exec JavaCifar.QUEUE_CAPACITY
              [JavaCifar.EProducer; JavaCifar.EProducer;
               JavaCifar.EConsumer 1; JavaCifar.EConsumer 1;
               JavaCifar.EConsumer 0]
              (JavaQueue.initial 2 [[0]] [[F32.one]]) in
  JavaCifar.consumers st = [JavaCifar.Exited; JavaCifar.Holding [0]] /\
  JavaCifar.queue st = [].
Proof.
  cbn zeta. split; [reflexivity|].
  apply (exit_means_drained 2 JavaCifar.QUEUE_CAPACITY
           [JavaCifar.EProducer; JavaCifar.EProducer;
            JavaCifar.EConsumer 1; JavaCifar.EConsumer 1;
            JavaCifar.EConsumer 0] [[0]] [[F32.one]] eq_refl).
  left.
Defined.

(** X20.  The queue carries references, not copies: when the same
    one-image batch is given [k] times to the producer, as in
    [testProduceBatches], and a single consumer takes them, a run without
    interrupts in which the consumer has returned leaves that image
    doubled [k] times, and every other array as it was. *)
Theorem shared_batch_compounds (capacity : nat)
    (trace : list JavaCifar.Event) (k r : nat) (h : list JavaCifar.Vector)
    (st : JavaCifar.State) (out : list string) :
  JavaCifar.undisturbed trace = true ->
  JavaCifar.processBatches 1 capacity trace JavaCifar.AllTerminated
    (JavaCifar.start (replicate k [r]) h)
  = Some (JavaCifar.Returns (st, out)) ->
  JavaCifar.heap st = alter (Nat.iter k JavaCifar.double_image) r h /\
  (forall j, j <> r -> JavaCifar.heap st !! j = h !! j).
Proof.
  intros Hquiet Hrun.
  destruct (processBatches_complete 1 capacity trace _ _ st out
              ltac:(lia) Hquiet Hrun) as (Hheap & _).
  rewrite process_all_replicate in Hheap.
  assert (JavaCifar.heap st = alter (Nat.iter k JavaCifar.double_image) r h)
    as E.
  { rewrite Hheap. clear. induction k as [|k IH].
    - cbn. symmetry. apply list_alter_id. reflexivity.
    - change (Nat.iter (S k) (JavaCifar.processBatch [r]) h)
        with (JavaCifar.processBatch [r]
                (Nat.iter k (JavaCifar.processBatch [r]) h)).
      rewrite IH, processBatch_singleton, list_alter_alter_eq. reflexivity. }
  split; [exact E|]. intros j Hj. rewrite E.
  apply list_lookup_alter_ne. congruence.
Qed.

(** The hypotheses of [shared_batch_compounds]: the batch of
    [testProduceBatches] put twice and handled by one consumer; its image
    ends at four times its value. *)
Lemma shared_batch_compounds_witness :
  exists st,
    JavaCifar.processBatches 1 JavaCifar.QUEUE_CAPACITY
      (JavaCifar.sequential_trace 2 1) JavaCifar.AllTerminated
      (JavaCifar.start (replicate 2 [0]) [[F32.one]])
    = Some (JavaCifar.Returns (st, [])) /\
    JavaCifar.heap st = [[F32.of_Z 4]].
Proof.
  destruct (JavaCifar.processBatches 1 JavaCifar.QUEUE_CAPACITY
              (JavaCifar.sequential_trace 2 1) JavaCifar.AllTerminated
              (JavaCifar.start (replicate 2 [0]) [[F32.one]]))
    as [[[st out]|]|] eqn:Hrun; try (vm_compute in Hrun; discriminate).
  assert (out = []) as ->.
  { vm_compute in Hrun. injection Hrun as _ <-. reflexivity. }
  exists st. split; [reflexivity|].
  destruct (shared_batch_compounds JavaCifar.QUEUE_CAPACITY
              (JavaCifar.sequential_trace 2 1) 2 0 [[F32.one]] st []
              eq_refl Hrun) as [H _].
  rewrite H. vm_compute. reflexivity.
Defined.

(** *** The Java Tiny-ImageNet harness *)

(** X21.  [produceImages] goes on after an image that fails and keeps
    what it has put when the walk itself fails: the images it enqueues
    are those of the visited paths that can be read and put, in walk
    order, so that an unreadable image between two others removes
    nothing; every other visited path that ends in [.jpg] gives one line
    in the log, never both; and a walk that throws, at the start or
    after some paths, adds one last line.  (The Go loader of the same
    dataset stops at the first error and returns no image.) *)
Theorem produceImages_skips_failures (w : JavaTiny.Walked) :
  let acts := JavaTiny.produceImages w in
  JavaTinyWalk.enqueued acts = JavaTinyWalk.put_images (JavaTiny.visited w) /\
  JavaTinyWalk.logged acts
  = replicate (JavaTinyWalk.failures (JavaTiny.visited w))
      "Error processing image"%string
    ++ (if JavaTiny.walk_throws w
        then ["Error walking dataset directory"%string] else []) /\
  length (JavaTinyWalk.enqueued acts)
    + JavaTinyWalk.failures (JavaTiny.visited w)
  = length (filter (fun e => JavaTinyWalk.is_jpg e = true)
              (JavaTiny.visited w)) /\
  (forall pre post,
     JavaTiny.visited w = pre ++ JavaTiny.Unreadable :: post ->
     JavaTinyWalk.enqueued acts
     = JavaTinyWalk.put_images pre ++ JavaTinyWalk.put_images post).
Proof.
  cbn zeta.
  assert (JavaTinyWalk.enqueued (JavaTiny.produceImages w)
          = JavaTinyWalk.put_images (JavaTiny.visited w)) as Hput.
  { rewrite produceImages_spec. unfold JavaTinyWalk.enqueued.
    rewrite !flat_map_app.
    fold (JavaTinyWalk.enqueued
            (flat_map JavaTinyWalk.visit (JavaTiny.visited w))).
    rewrite enqueued_visits.
    destruct (JavaTiny.walk_throws w); cbn; rewrite !app_nil_r; reflexivity. }
  split; [exact Hput|]. split; [|split].
  - rewrite produceImages_spec. unfold JavaTinyWalk.logged.
    rewrite !flat_map_app.
    fold (JavaTinyWalk.logged
            (flat_map JavaTinyWalk.visit (JavaTiny.visited w))).
    rewrite logged_visits.
    destruct (JavaTiny.walk_throws w); cbn; rewrite ?app_nil_r; reflexivity.
  - rewrite Hput. generalize (JavaTiny.visited w). intros entries.
    induction entries as [|e entries IH]; [reflexivity|].
    destruct e as [|img [|]|];
      cbn [JavaTinyWalk.put_images JavaTinyWalk.failures length].
    + rewrite filter_cons_False by (cbn; discriminate). exact IH.
    + rewrite filter_cons_True by reflexivity. cbn [length]. lia.
    + rewrite filter_cons_True by reflexivity. cbn [length]. lia.
    + rewrite filter_cons_True by reflexivity. cbn [length]. lia.
  - intros pre post E. rewrite Hput, E. clear.
    induction pre as [|e pre IH]; [reflexivity|].
    destruct e as [|img [|]|]; cbn [app JavaTinyWalk.put_images];
      rewrite ?IH; reflexivity.
Qed.

(** The hypothesis of [produceImages_skips_failures]: a walk that visits
    two readable images with an unreadable one between them and then
    throws has enqueued both. *)
Lemma produceImages_skips_failures_witness :
  JavaTinyWalk.enqueued
    (JavaTiny.produceImages
       {| JavaTiny.visited :=
            [JavaTiny.Readable [[1%Z]] false; JavaTiny.Unreadable;
             JavaTiny.Readable [[2%Z]] false];
          JavaTiny.walk_throws := true |})
  = [[[1%Z]]; [[2%Z]]].
Proof.
  exact (proj2 (proj2 (proj2 (produceImages_skips_failures
                                {| JavaTiny.visited :=
                                     [JavaTiny.Readable [[1%Z]] false;
                                      JavaTiny.Unreadable;
                                      JavaTiny.Readable [[2%Z]] false];
                                   JavaTiny.walk_throws := true |})))
           [JavaTiny.Readable [[1%Z]] false]
           [JavaTiny.Readable [[2%Z]] false] eq_refl).
Defined.

(** X22.  Applied [k >= 1] times to a pixel, the transform of
    [processImage] leaves each channel at [min(2^k * c, 255)] and the top
    byte at zero, whatever it was; from the eighth application on every
    channel is 0 if it was 0 and 255 otherwise, so the image no longer
    changes. *)
Theorem processPixel_saturates (a r g b : Z) (k : nat) :
  (0 <= r <= 255)%Z -> (0 <= g <= 255)%Z -> (0 <= b <= 255)%Z ->
  Nat.iter (S k) JavaTiny.processPixel (a * 2 ^ 24 + JavaTiny.rgb_of r g b)%Z
  = JavaTiny.rgb_of (Z.min (2 ^ Z.of_nat (S k) * r) 255)
      (Z.min (2 ^ Z.of_nat (S k) * g) 255)
      (Z.min (2 ^ Z.of_nat (S k) * b) 255) /\
  (0 <= Nat.iter (S k) JavaTiny.processPixel
          (a * 2 ^ 24 + JavaTiny.rgb_of r g b) < 2 ^ 24)%Z /\
  (8 <= S k ->
   Nat.iter (S k) JavaTiny.processPixel (a * 2 ^ 24 + JavaTiny.rgb_of r g b)%Z
   = JavaTiny.rgb_of (JavaTinyWalk.saturated r) (JavaTinyWalk.saturated g)
       (JavaTinyWalk.saturated b)).
Proof.
  intros Hr Hg Hb. rewrite iter_processPixel by assumption.
  split; [|split].
  - rewrite !iter_double_channel by assumption. reflexivity.
  - apply rgb_of_range; apply iter_double_channel_range; assumption.
  - intros Hk. rewrite !saturates by assumption. reflexivity.
Qed.

(** The hypotheses of [processPixel_saturates]: an opaque pixel with
    channels 100, 0 and 1; two applications give 255, 0 and 4, and eight
    give 255, 0 and 255. *)
Lemma processPixel_saturates_witness :
  Nat.iter 2 JavaTiny.processPixel
    (255 * 2 ^ 24 + JavaTiny.rgb_of 100 0 1)%Z = JavaTiny.rgb_of 255 0 4 /\
  Nat.iter 8 JavaTiny.processPixel
    (255 * 2 ^ 24 + JavaTiny.rgb_of 100 0 1)%Z = JavaTiny.rgb_of 255 0 255.
Proof.
  split.
  - apply (proj1 (processPixel_saturates 255 100 0 1 1
                    ltac:(lia) ltac:(lia) ltac:(lia))).
  - apply (proj2 (proj2 (processPixel_saturates 255 100 0 1 7
                           ltac:(lia) ltac:(lia) ltac:(lia)))).
    lia.
Defined.

(** *** Log files and the helper of the tests *)

(** X23.  [AppendToLogFile] only ever appends.  On a path that opens,
    the calls that [main] makes one after the other leave the file with
    what it held before, followed by one line per message in call order,
    each made of the time stamp, the message and a line feed, and leave
    every other file alone; a file that does not exist is created.  On a
    path that does not open each call returns the error and changes
    nothing, and [main], which drops the error, goes on. *)
Theorem log_is_append_only (stamps : nat -> string) (d : Logs.Disk)
    (filePath : string) (ms : list string) :
  (forall content,
     Logs.open_append d filePath = Some content ->
     Logs.open_append (Logs.append_all stamps 0 d filePath ms) filePath
       = Some (content ++ Logs.lines stamps 0 ms)%string /\
     (forall m stamp,
        Logs.AppendToLogFile stamp d filePath m
        = (Logs.store d filePath (content ++ stamp ++ m ++ Logs.LF)%string,
           Go.Ok tt)) /\
     (forall p, p <> filePath ->
        Logs.append_all stamps 0 d filePath ms p = d p)) /\
  (Logs.open_append d filePath = None ->
   Logs.append_all stamps 0 d filePath ms = d /\
   forall m stamp,
     Logs.AppendToLogFile stamp d filePath m = (d, Go.Err "open")).
Proof.
  split.
  - intros content Hopen.
    destruct (append_all_spec stamps filePath ms 0 d content Hopen) as [H1 H2].
    split; [exact H1|]. split; [|exact H2].
    intros m stamp. unfold Logs.AppendToLogFile. rewrite Hopen. reflexivity.
  - intros Hopen. split; [apply append_all_closed; exact Hopen|].
    intros m stamp. unfold Logs.AppendToLogFile. rewrite Hopen. reflexivity.
Qed.

(** The hypotheses of [log_is_append_only], on the run of
    [TestAppendToLogFile]: a log file that does not exist yet holds the
    stamped message after the call. *)
Lemma log_is_append_only_witness :
  Logs.open_append
    (Logs.append_all (fun _ => "2024/12/01 10:00:00 "%string) 0
       (fun _ => Logs.Absent) "test_log.log" ["Test log message"%string])
    "test_log.log"
  = Some ("2024/12/01 10:00:00 Test log message" ++ Logs.LF)%string /\
  Logs.append_all (fun _ => ""%string) 0 (fun _ => Logs.Unwritable)
    "test_log.log" ["Test log message"%string]
  = (fun _ => Logs.Unwritable).
Proof.
  destruct (log_is_append_only (fun _ => "2024/12/01 10:00:00 "%string)
              (fun _ => Logs.Absent) "test_log.log"
              ["Test log message"%string]) as [H _].
  destruct (H ""%string eq_refl) as [H1 _].
  split; [exact H1|].
  apply (proj2 (log_is_append_only (fun _ => ""%string)
                  (fun _ => Logs.Unwritable) "test_log.log"
                  ["Test log message"%string])).
  reflexivity.
Defined.

(** X24.  [logMessage] of the Java harnesses never throws, and keeps the
    log file and the standard output in step.  On a path that opens, a
    sequence of calls appends every message, followed by the line
    separator, to what the file held, prints the same messages in the
    same order on the standard output, prints nothing on the error
    stream and touches no other file.  On a path that does not open, each
    call prints one line on the error stream and the message reaches
    neither the file nor the standard output. *)
Theorem logMessage_mirrors_stdout (sep : string) (d : Logs.Disk)
    (c : Logs.Console) (filePath : string) (ms : list string) :
  (forall content,
     Logs.open_append d filePath = Some content ->
     Logs.open_append (Logs.log_all sep d c filePath ms).1 filePath
       = Some (content ++ Logs.printed sep ms)%string /\
     (Logs.log_all sep d c filePath ms).2
       = {| Logs.out := Logs.out c ++ ms; Logs.err := Logs.err c |} /\
     (forall p, p <> filePath ->
        (Logs.log_all sep d c filePath ms).1 p = d p)) /\
  (Logs.open_append d filePath = None ->
   Logs.log_all sep d c filePath ms
   = (d, {| Logs.out := Logs.out c;
            Logs.err := Logs.err c
                          ++ replicate (length ms)
                               "Failed to write log"%string |})).
Proof.
  split.
  - intros content Hopen. apply log_all_spec. exact Hopen.
  - apply log_all_closed.
Qed.

(** The hypotheses of [logMessage_mirrors_stdout], on the run of
    [testLogging]: the message is in the file and on the standard
    output. *)
Lemma logMessage_mirrors_stdout_witness :
  Logs.open_append
    (Logs.log_all Logs.LF (fun _ => Logs.Absent)
       {| Logs.out := []; Logs.err := [] |} "test_metrics.log"
       ["This is a test log message."%string]).1 "test_metrics.log"
  = Some ("This is a test log message." ++ Logs.LF)%string /\
  (Logs.log_all Logs.LF (fun _ => Logs.Unwritable)
     {| Logs.out := []; Logs.err := [] |} "test_metrics.log"
     ["This is a test log message."%string]).2
  = {| Logs.out := []; Logs.err := ["Failed to write log"%string] |}.
Proof.
  split.
  - apply (proj1 (logMessage_mirrors_stdout Logs.LF (fun _ => Logs.Absent)
                    {| Logs.out := []; Logs.err := [] |} "test_metrics.log"
                    ["This is a test log message."%string]) ""%string eq_refl).
  - rewrite (proj2 (logMessage_mirrors_stdout Logs.LF
                      (fun _ => Logs.Unwritable)
                      {| Logs.out := []; Logs.err := [] |} "test_metrics.log"
                      ["This is a test log message."%string]) eq_refl).
    reflexivity.
Defined.

(** X25.  The helper [contains] of the Go tests never panics, both strings
    being arbitrary, and answers whether [substring] is a prefix of
    [data], not whether it occurs in it: it is true exactly when [data]
    is [substring] followed by something, so a [data] that holds
    [substring] after a first byte is answered false. *)
Theorem contains_is_a_prefix_test (data substring : list Byte.byte) :
  (exists b, Logs.contains data substring = Go.Ok b) /\
  (Logs.contains data substring = Go.Ok true <->
   exists rest, data = substring ++ rest) /\
  (forall x y rest, substring = y :: rest -> x <> y ->
     Logs.contains (x :: substring) substring = Go.Ok false).
Proof.
  assert (forall a b, Logs.string_eq a b = true <-> a = b) as Heq.
  { intros a b. unfold Logs.string_eq.
    destruct (List.list_eq_dec Byte.byte_eq_dec a b); split;
      congruence || discriminate || auto. }
  assert (forall d s : list Byte.byte,
            Logs.contains d s
            = Go.Ok ((length s <=? length d)
                     && Logs.string_eq (take (length s) d) s)) as Hspec.
  { intros d s. unfold Logs.contains, Go.subslice.
    destruct (Nat.leb_spec (length s) (length d)) as [Hle | Hgt];
      [|reflexivity].
    cbn [Nat.leb andb]. cbn [mbind Go.result_bind].
    rewrite Nat.sub_0_r, drop_0. reflexivity. }
  split; [|split].
  - rewrite Hspec. eexists. reflexivity.
  - rewrite Hspec. split.
    + intros H. injection H as H. apply andb_prop in H as [_ H].
      apply Heq in H. exists (drop (length substring) data).
      rewrite <- H at 1. symmetry. apply take_drop.
    + intros [rest ->]. f_equal. apply andb_true_intro. split.
      * apply Nat.leb_le. rewrite length_app. lia.
      * apply Heq. apply take_app_length.
  - intros x y rest -> Hxy. rewrite Hspec. f_equal.
    apply andb_false_intro2.
    destruct (Logs.string_eq _ _) eqn:E; [|reflexivity].
    apply Heq in E. cbn in E. congruence.
Qed.

(** The hypotheses of [contains_is_a_prefix_test]: the bytes of [ab] are
    not found in [xab]. *)
Lemma contains_is_a_prefix_test_witness :
  Logs.contains [Byte.x78; Byte.x61; Byte.x62] [Byte.x61; Byte.x62]
  = Go.Ok false.
Proof.
  apply (proj2 (proj2 (contains_is_a_prefix_test
                         [Byte.x78; Byte.x61; Byte.x62]
                         [Byte.x61; Byte.x62]))
           Byte.x78 Byte.x61 [Byte.x62] eq_refl).
  discriminate.
Defined.

(** *** The loop of [main] of the Java CIFAR-10 harness *)

(** X26.  In the Java loop too the overhead covers the execution time:
    with a [nanoTime] that never goes back, and less than [2^63]
    nanoseconds between the first and the last of the four readings of
    an iteration, the elapsed time of [processBatches] is the difference
    of the two inner readings, the overhead the difference of the two
    outer ones, and so the first is not negative and at most the second,
    whatever the threads do and however [awaitTermination] ends.  The
    memory usage is the signed difference of the two samples. *)
Theorem java_overhead_covers_execution (nConsumers capacity : nat)
    (clock : nat -> Z) (allBatches : list JavaCifar.Batch)
    (p : JavaMain.Probe) (w w' : JavaMain.World)
    (tot tot' : JavaMain.Totals) (m : JavaMain.RunMetrics) :
  JavaMain.monotonic clock ->
  (clock (3 + JavaMain.ticks w)%nat - clock (JavaMain.ticks w) < 2 ^ 63)%Z ->
  JavaMain.main_iteration nConsumers capacity clock allBatches p w tot
    = Some (w', tot', m) ->
  JavaMain.elapsedTime m
    = (clock (2 + JavaMain.ticks w)%nat - clock (1 + JavaMain.ticks w)%nat)%Z /\
  JavaMain.overheadTime m
    = (clock (3 + JavaMain.ticks w)%nat - clock (JavaMain.ticks w))%Z /\
  (0 <= JavaMain.elapsedTime m <= JavaMain.overheadTime m)%Z /\
  JavaMain.memoryUsage m
    = JavaCifar.memoryUsage (JavaMain.p_memoryBefore p)
        (JavaMain.p_memoryAfter p).
Proof.
  intros Hmono Hfit Hrun.
  destruct (main_iteration_times _ _ _ _ _ _ _ _ _ _ Hrun)
    as (He & Ho & Hm & _).
  pose proof (Hmono (JavaMain.ticks w) (1 + JavaMain.ticks w) ltac:(lia)) as M1.
  pose proof (Hmono (1 + JavaMain.ticks w) (2 + JavaMain.ticks w) ltac:(lia))
    as M2.
  pose proof (Hmono (2 + JavaMain.ticks w) (3 + JavaMain.ticks w) ltac:(lia))
    as M3.
  rewrite long_sub_exact in He
    by (change (2 ^ 63)%Z with 9223372036854775808%Z in *; lia).
  rewrite long_sub_exact in Ho
    by (change (2 ^ 63)%Z with 9223372036854775808%Z in *; lia).
  split; [exact He|]. split; [exact Ho|]. split; [lia | exact Hm].
Qed.

(** The hypotheses of [java_overhead_covers_execution]: the first run over
    two batches with a clock that ticks once per reading; the run lasts
    one tick, its overhead three, and its memory usage is -1000 bytes. *)
Lemma java_overhead_covers_execution_witness :
  exists w' tot' m,
    JavaMain.main_iteration 1 JavaCifar.QUEUE_CAPACITY Fixtures.ticking
      (JavaCifar.allocate Fixtures.two_batches).2 (Samples.quiet_probe 0)
      Samples.java_fresh JavaMain.zero_totals = Some (w', tot', m) /\
    JavaMain.elapsedTime m = 1%Z /\ JavaMain.overheadTime m = 3%Z /\
    JavaMain.memoryUsage m = (-1000)%Z.
Proof.
  destruct (JavaMain.main_iteration 1 JavaCifar.QUEUE_CAPACITY Fixtures.ticking
              (JavaCifar.allocate Fixtures.two_batches).2
              (Samples.quiet_probe 0) Samples.java_fresh JavaMain.zero_totals)
    as [[[w' tot'] m]|] eqn:Hrun; [|vm_compute in Hrun; discriminate].
  exists w', tot', m. split; [reflexivity|].
  destruct (java_overhead_covers_execution 1 JavaCifar.QUEUE_CAPACITY
              Fixtures.ticking (JavaCifar.allocate Fixtures.two_batches).2
              (Samples.quiet_probe 0) Samples.java_fresh w'
              JavaMain.zero_totals tot' m) as (H1 & H2 & _ & H4).
  - intros a b Hab. unfold Fixtures.ticking. lia.
  - vm_compute. reflexivity.
  - exact Hrun.
  - split; [exact H1|]. split; [exact H2 | exact H4].
Defined.

(** X27.  The Java runs compound as the Go runs do: [allBatches] is
    loaded once and the producer of every run puts the same arrays, so
    after [count] iterations in which no thread is interrupted and every
    pool drains before [awaitTermination] returns, every image holds its
    [count]-fold double; every run has been recorded, every thread of
    every run has ended, and the clock has been read four times per
    run. *)
Theorem java_runs_compound (nConsumers capacity : nat) (clock : nat -> Z)
    (loaded : list (list JavaCifar.Vector)) (env : nat -> JavaMain.Probe)
    (count : nat) (w' : JavaMain.World) (tot' : JavaMain.Totals)
    (ms : list JavaMain.RunMetrics) :
  0 < nConsumers ->
  (forall j, j < count -> JavaMain.quiet (env j)) ->
  JavaMain.main_loop nConsumers capacity clock (JavaCifar.allocate loaded).2
    count 0 env
    {| JavaMain.arrays := (JavaCifar.allocate loaded).1;
       JavaMain.runs := []; JavaMain.ticks := 0 |}
    JavaMain.zero_totals = Some (w', tot', ms) ->
  JavaMain.arrays w'
    = map (Nat.iter count JavaCifar.double_image) (concat loaded) /\
  length ms = count /\
  length (JavaMain.runs w') = count /\
  Forall JavaMain.over (JavaMain.runs w') /\
  JavaMain.ticks w' = 4 * count.
Proof.
  intros HW Hq Hrun.
  destruct (main_loop_quiet nConsumers capacity clock
              (JavaCifar.allocate loaded).2 HW env count 0
              {| JavaMain.arrays := (JavaCifar.allocate loaded).1;
                 JavaMain.runs := []; JavaMain.ticks := 0 |}
              JavaMain.zero_totals w' tot' ms)
    as (A & O & L & M & T);
    [constructor | intros j Hj; apply Hq; lia | exact Hrun |].
  cbn [JavaMain.arrays JavaMain.runs JavaMain.ticks length] in A, L, T.
  split; [rewrite A; apply iter_process_all|].
  split; [exact M|]. split; [lia|]. split; [exact O | lia].
Qed.

(** The hypotheses of [java_runs_compound]: two quiet runs over two
    one-image batches; each image ends at four times its value. *)
Lemma java_runs_compound_witness :
  exists w' tot' ms,
    JavaMain.main_loop 1 JavaCifar.QUEUE_CAPACITY Fixtures.ticking
      (JavaCifar.allocate Fixtures.two_batches).2 2 0 Samples.quiet_probe
      {| JavaMain.arrays := (JavaCifar.allocate Fixtures.two_batches).1;
         JavaMain.runs := []; JavaMain.ticks := 0 |}
      JavaMain.zero_totals = Some (w', tot', ms) /\
    JavaMain.arrays w' = [[F32.of_Z 4]; [F32.of_Z 4]].
Proof.
  destruct (JavaMain.main_loop 1 JavaCifar.QUEUE_CAPACITY Fixtures.ticking
              (JavaCifar.allocate Fixtures.two_batches).2 2 0
              Samples.quiet_probe
              {| JavaMain.arrays := (JavaCifar.allocate Fixtures.two_batches).1;
                 JavaMain.runs := []; JavaMain.ticks := 0 |}
              JavaMain.zero_totals)
    as [[[w' tot'] ms]|] eqn:Hrun; [|vm_compute in Hrun; discriminate].
  exists w', tot', ms. split; [reflexivity|].
  destruct (java_runs_compound 1 JavaCifar.QUEUE_CAPACITY Fixtures.ticking
              Fixtures.two_batches Samples.quiet_probe 2 w' tot' ms)
    as (H & _).
  - lia.
  - intros j _. repeat split; vm_compute; reflexivity.
  - exact Hrun.
  - rewrite H. vm_compute. reflexivity.
Defined.

(** *** A Java run can always be completed *)

(** X28.  Strategy A cannot get stuck on its own: with at least one
    consumer and room for at least one batch in the queue, from every
    state that a run reaches without interrupts the threads can go on,
    without interrupts, until every consumer has returned; and when they
    have, [processBatches] returns with every batch put, taken and
    processed once, the queue empty and the flag set. *)
Theorem run_can_always_finish (nConsumers capacity : nat)
    (trace : list JavaCifar.Event) (allBatches : list JavaCifar.Batch)
    (h : list JavaCifar.Vector) :
  0 < nConsumers -> 0 < capacity ->
  JavaCifar.undisturbed trace = true ->
  exists more,
    JavaCifar.undisturbed more = true /\
    let st := JavaCifar.exec capacity (trace ++ more)
                (JavaQueue.initial nConsumers allBatches h) in
    JavaCifar.processBatches nConsumers capacity (trace ++ more)
      JavaCifar.AllTerminated (JavaCifar.start allBatches h)
      = Some (JavaCifar.Returns (st, [])) /\
    JavaCifar.all_exited st = true /\
    JavaCifar.heap st = JavaCifar.process_all allBatches h /\
    JavaCifar.queue st = [] /\
    JavaCifar.producer st = JavaCifar.Finished [] /\
    JavaCifar.isDoneProducing st = true.
Proof.
  intros HW Hcap Hquiet.
  pose proof (threads_inv allBatches h capacity trace _ Hquiet
                (start_inv allBatches h nConsumers)) as HI.
  destruct (can_drain allBatches h capacity Hcap _ _ (Nat.lt_succ_diag_r _) HI)
    as (more & Hmore & Hall).
  exists more. split; [exact Hmore|]. cbn zeta.
  unfold JavaQueue.initial. rewrite threads_exec_app.
  assert (JavaCifar.processBatches nConsumers capacity (trace ++ more)
            JavaCifar.AllTerminated (JavaCifar.start allBatches h)
          = Some (JavaCifar.Returns
                    (JavaCifar.exec capacity more
                       (JavaCifar.exec capacity trace
                          (JavaCifar.spawn_consumers nConsumers
                             (JavaCifar.start allBatches h))), []))) as Hrun.
  { unfold JavaCifar.processBatches. rewrite threads_exec_app.
    change {| JavaCifar.heap := _; JavaCifar.producer := _;
              JavaCifar.queue := _; JavaCifar.isDoneProducing := _;
              JavaCifar.consumers := replicate nConsumers JavaCifar.AtLoop |}
      with (JavaCifar.spawn_consumers nConsumers (JavaCifar.start allBatches h)).
    rewrite Hall. reflexivity. }
  split; [exact Hrun|]. split; [exact Hall|].
  apply (processBatches_complete nConsumers capacity (trace ++ more)
           allBatches h _ [] HW).
  - apply undisturbed_app; assumption.
  - exact Hrun.
Qed.

(** The hypotheses of [run_can_always_finish]: two batches and one
    consumer; after a put and the loop test of the consumer the run can be
    completed, and both images are then doubled. *)
Lemma run_can_always_finish_witness :
  exists more,
    JavaCifar.undisturbed more = true /\
    JavaCifar.heap
      (JavaCifar.exec JavaCifar.QUEUE_CAPACITY
         ([JavaCifar.EProducer; JavaCifar.EConsumer 0] ++ more)
         (JavaQueue.initial 1 [[0]; [1]] [[F32.one]; [F32.one]]))
    = [[F32.two]; [F32.two]].
Proof.
  destruct (run_can_always_finish 1 JavaCifar.QUEUE_CAPACITY
              [JavaCifar.EProducer; JavaCifar.EConsumer 0] [[0]; [1]]
              [[F32.one]; [F32.one]])
    as (more & Hq & _ & _ & Hheap & _).
  - lia.
  - unfold JavaCifar.QUEUE_CAPACITY. lia.
  - reflexivity.
  - exists more. split; [exact Hq|]. rewrite Hheap. reflexivity.
Defined.

End Extras.
